(** * MIKROE 4-20 mA R Click / T Click driver: a shallow embedding

    Source: [MIKROE_4_20mA_RT_Click.h] and [MIKROE_4_20mA_RT_Click.cpp]
    (library version 1.1.0), as used by the trachea pressure logger on an
    Adafruit Feather M4 (ATSAMD51, 32-bit [int], IEEE-754 [float]).

    Conventions of the embedding:
    - [uint8_t], [uint16_t] and [uint32_t] values are [Z] with the wrap-around
      of each conversion written out ([wrap8], [wrap16], [wrap32]);
    - the C++ type [float] is an interface ([FloatOps]); [binary32] is the
      single-precision implementation of the target, built on the Standard
      Library's [SpecFloat]; [exact] reads the same code over the real numbers;
    - [micros()], the SPI bus and the GPIO pins are a [World] that every
      method threads through the [io] monad; the bus activity is recorded
      as a trace of [event]s.

    The two sketches that use the library, [main.cpp] of the pressure logger
    and the example [RT_Click.ino], are embedded after the driver. *)

From Stdlib Require Import Strings.String Strings.Ascii.
From Stdlib Require Import ZArith Lia List Bool.
From Stdlib Require Import Floats.SpecFloat.
From Stdlib Require Import Reals Lra.
Import ListNotations.

Local Open Scope Z_scope.

(** ** Fixed-width unsigned integers *)

Definition wrap8 (z : Z) : Z := z mod 2 ^ 8.
Definition wrap16 (z : Z) : Z := z mod 2 ^ 16.
Definition wrap32 (z : Z) : Z := z mod 2 ^ 32.

(** ** The [float] interface *)

Declare Scope float_scope.
Delimit Scope float_scope with flt.

(** Arithmetic of the C++ type [float] as the driver uses it. *)
Class FloatOps (F : Type) : Type := {
  Fadd : F -> F -> F;
  Fsub : F -> F -> F;
  Fmul : F -> F -> F;
  Fdiv : F -> F -> F;
  Fneg : F -> F;
  (** [x > y]; false as soon as one side is not a number *)
  Fgt : F -> F -> bool;
  (** conversion of an integer value ([uint16_t], [uint32_t], [int]) *)
  Fof_int : Z -> F;
  (** the macro [NAN] *)
  NAN : F;
  (** [round()] of Arduino.h: nearest integer, halfway cases away from zero,
      delivered as a [long] *)
  Fround : F -> Z
}.

(** [exp()] of the C library; not part of the repository, so it stays a
    parameter of everything that computes the smoothing factor. *)
Class FloatExp (F : Type) : Type := Fexp_libm : F -> F.

Notation "x + y" := (Fadd x y) : float_scope.
Notation "x - y" := (Fsub x y) : float_scope.
Notation "x * y" := (Fmul x y) : float_scope.
Notation "x / y" := (Fdiv x y) : float_scope.
Notation "- x" := (Fneg x) : float_scope.
Notation "x >? y" := (Fgt x y) : float_scope.

(** [P] holds on the [n] integers from [z] on; for checks by evaluation. *)
Fixpoint all_from (z : Z) (n : nat) (P : Z -> bool) : bool :=
  match n with
  | O => true
  | S n' => P z && all_from (z + 1) n' P
  end.

(** *** IEEE-754 single precision *)

Module B32.

Definition prec : Z := 24.
Definition emax : Z := 128.

Definition add := SFadd prec emax.
Definition sub := SFsub prec emax.
Definition mul := SFmul prec emax.
Definition div := SFdiv prec emax.
Definition opp := SFopp.
Definition ltb := SFltb.
Definition leb := SFleb.

(** Integer to [float], rounded to nearest, ties to even. *)
Definition of_int (z : Z) : spec_float := binary_normalize prec emax z 0 false.

(** Nearest integer of [m * 2^e], halfway cases away from zero. *)
Definition round_half_away (m : positive) (e : Z) : Z :=
  match e with
  | Z0 => Zpos m
  | Zpos p => Zpos m * 2 ^ Zpos p
  | Zneg p => (2 * Zpos m + 2 ^ Zpos p) / (2 * 2 ^ Zpos p)
  end.

(** [round()]; the conversion of an infinity or of a NaN to [long] has no
    defined result in C++, the model delivers 0 there. *)
Definition round (x : spec_float) : Z :=
  match x with
  | S754_finite s m e => cond_Zopp s (round_half_away m e)
  | _ => 0
  end.

(** The well-formed single-precision values. *)
Definition valid (x : spec_float) : bool := valid_binary prec emax x.

Definition is_nan (x : spec_float) : bool :=
  match x with
  | S754_nan => true
  | _ => false
  end.

(** A number: neither an infinity nor a NaN. *)
Definition is_number (x : spec_float) : bool :=
  match x with
  | S754_zero _ | S754_finite _ _ _ => true
  | _ => false
  end.

(** [of_int z], for a positive [z], is a normal number of value [z]. *)
Definition of_int_normal (z : Z) : bool :=
  match of_int z with
  | S754_finite false m e =>
      (2 ^ 23 <=? Zpos m) && (Zpos m <? 2 ^ 24) && (-149 <=? e) && (e <=? 0)
      && (Zpos m =? z * 2 ^ (- e))
  | _ => false
  end.

(** [2^e] as a real number. *)
Definition pow2 (e : Z) : R := powerRZ 2 e.

(** The real number a finite value stands for (0 for the others). *)
Definition val (x : spec_float) : R :=
  match x with
  | S754_finite s m e => (IZR (cond_Zopp s (Zpos m)) * pow2 e)%R
  | _ => 0%R
  end.

(** [x], a number or an infinity, is at most the real number [q]. *)
Definition at_most (x : spec_float) (q : R) : Prop :=
  match x with
  | S754_nan => False
  | S754_infinity s => s = true
  | _ => (val x <= q)%R
  end.

(** A positive normal number. *)
Definition pnormal (x : spec_float) : Prop :=
  exists (m : positive) (e : Z),
    x = S754_finite false m e
    /\ 2 ^ 23 <= Zpos m < 2 ^ 24 /\ -149 <= e <= 104.

(** One unit in the last place, relative to the value. *)
Definition ulp_rel : R := (/ 8388608)%R.

(** [x] is a positive normal number within one unit in the last place
    of [v]. *)
Definition approx (x : spec_float) (v : R) : Prop :=
  pnormal x /\ (Rabs (val x - v) <= ulp_rel * v)%R.

(** [x] is a product of [k] factors, each within [ulp_rel] of 1. *)
Definition near (k : nat) (x : R) : Prop :=
  ((1 - ulp_rel) ^ k <= x <= (1 + ulp_rel) ^ k)%R.

(** A stand-in for [expf] of the C library, to run the filter on examples:
    the Taylor polynomial of degree 40 at [x / 2^8] in fixed point with
    [fix_bits] fractional bits, squared eight times, then rounded to
    single precision. *)
Definition fix_bits : Z := 400.

Fixpoint exp_taylor (n : nat) (k : Z) (t term acc : Z) : Z :=
  match n with
  | O => acc
  | S n' =>
      let term' := term * t / 2 ^ fix_bits / k in
      exp_taylor n' (k + 1) t term' (acc + term')
  end.

Fixpoint square_times (n : nat) (y : Z) : Z :=
  match n with
  | O => y
  | S n' => square_times n' (y * y / 2 ^ fix_bits)
  end.

Definition expf (x : spec_float) : spec_float :=
  match x with
  | S754_nan => S754_nan
  | S754_infinity false => x
  | S754_infinity true => S754_zero false
  | S754_zero _ => of_int 1
  | S754_finite s m e =>
      if 8 <=? Z.pos (digits2_pos m) + e then
        (if s then S754_zero false else S754_infinity false)
      else
        let t := cond_Zopp s (Z.shiftl (Zpos m) (e - 8 + fix_bits)) in
        let y := exp_taylor 40 1 t (2 ^ fix_bits) (2 ^ fix_bits) in
        binary_normalize prec emax (square_times 8 y) (- fix_bits) false
  end.

End B32.

#[export] Instance binary32 : FloatOps spec_float := {
  Fadd := B32.add;
  Fsub := B32.sub;
  Fmul := B32.mul;
  Fdiv := B32.div;
  Fneg := B32.opp;
  Fgt x y := B32.ltb y x;
  Fof_int := B32.of_int;
  NAN := S754_nan;
  Fround := B32.round
}.

#[export] Instance binary32_exp : FloatExp spec_float := B32.expf.

(** *** Exact arithmetic

    The same interface over the real numbers: no rounding, and [Nan] wherever
    single precision has no real value to deliver. *)

Module Exact.

Inductive xreal : Type :=
| Nan : xreal
| Real : R -> xreal.

Definition lift2 (f : R -> R -> R) (x y : xreal) : xreal :=
  match x, y with
  | Real a, Real b => Real (f a b)
  | _, _ => Nan
  end.

Definition div (x y : xreal) : xreal :=
  match x, y with
  | Real a, Real b => if Req_dec_T b 0 then Nan else Real (a / b)
  | _, _ => Nan
  end.

Definition opp (x : xreal) : xreal :=
  match x with
  | Real a => Real (- a)
  | Nan => Nan
  end.

Definition gt (x y : xreal) : bool :=
  match x, y with
  | Real a, Real b => if Rlt_dec b a then true else false
  | _, _ => false
  end.

(** Nearest integer, halfway cases away from zero. *)
Definition round_half_away (r : R) : Z :=
  if Rle_dec 0 r then Int_part (r + / 2) else (- Int_part (- r + / 2))%Z.

Definition round (x : xreal) : Z :=
  match x with
  | Real r => round_half_away r
  | Nan => 0
  end.

Definition exp_real (x : xreal) : xreal :=
  match x with
  | Real r => Real (exp r)
  | Nan => Nan
  end.

End Exact.

#[export] Instance exact : FloatOps Exact.xreal := {
  Fadd := Exact.lift2 Rplus;
  Fsub := Exact.lift2 Rminus;
  Fmul := Exact.lift2 Rmult;
  Fdiv := Exact.div;
  Fneg := Exact.opp;
  Fgt := Exact.gt;
  Fof_int z := Exact.Real (IZR z);
  NAN := Exact.Nan;
  Fround := Exact.round
}.

#[export] Instance exact_exp : FloatExp Exact.xreal := Exact.exp_real.

(** ** The world outside the driver *)

(** What the driver does to the board, in the order it does it. *)
Inductive event : Type :=
| SPI_begin_ev : event
| SPI_beginTransaction_ev (clock : Z) : event   (* MSBFIRST, SPI_MODE0 *)
| SPI_transfer_ev (tx rx : Z) : event
| SPI_endTransaction_ev : event
| digitalWrite_ev (pin : Z) (level : bool) : event
| pinMode_OUTPUT_ev (pin : Z) : event.

Definition LOW : bool := false.
Definition HIGH : bool := true.

Record World : Type := mkWorld {
  micros_now : Z;        (* free-running microsecond counter *)
  miso : nat -> Z;       (* what the slave answers on the n-th byte transfer *)
  transfers : nat;       (* byte transfers done so far *)
  trace : list event     (* board activity, oldest first *)
}.

Definition io (A : Type) : Type := World -> A * World.

Definition ret {A : Type} (a : A) : io A := fun w => (a, w).

Definition bind {A B : Type} (m : io A) (k : A -> io B) : io B :=
  fun w => let (a, w') := m w in k a w'.

Notation "x <- m ;; k" := (bind m (fun x => k))
  (at level 61, m at next level, right associativity).
Notation "m ;;; k" := (bind m (fun _ => k))
  (at level 61, right associativity).

Definition emit (e : event) : io unit :=
  fun w => (tt, mkWorld (micros_now w) (miso w) (transfers w) (trace w ++ [e])).

(** [micros()] returns a [uint32_t]. *)
Definition micros : io Z := fun w => (wrap32 (micros_now w), w).

Definition SPI_begin : io unit := emit SPI_begin_ev.
Definition SPI_beginTransaction (clock : Z) : io unit :=
  emit (SPI_beginTransaction_ev clock).
Definition SPI_endTransaction : io unit := emit SPI_endTransaction_ev.
Definition digitalWrite (pin : Z) (level : bool) : io unit :=
  emit (digitalWrite_ev pin level).
Definition pinMode_OUTPUT (pin : Z) : io unit := emit (pinMode_OUTPUT_ev pin).

(** [SPI.transfer(tx)]: one byte out, one byte in. *)
Definition SPI_transfer (tx : Z) : io Z :=
  fun w =>
    let rx := wrap8 (miso w (transfers w)) in
    (rx, mkWorld (micros_now w) (miso w) (S (transfers w))
                 (trace w ++ [SPI_transfer_ev (wrap8 tx) rx])).

(** ** The driver *)

Section Driver.

Context {F : Type} {ops : FloatOps F}.

Local Open Scope float_scope.

(** A decimal literal [m / d] of the source text ([3.8] is [38 / 10]): both
    integers are representable, so a correctly rounded division delivers
    the [float] nearest to the literal. *)
Definition Fliteral (m d : Z) : F := Fof_int m / Fof_int d.

Definition DEFAULT_RT_CLICK_SPI_CLOCK : Z := 1000000.

Definition R_CLICK_FAULT_mA : F := Fliteral 38 10.

(** *** RT_Click_Calibration *)

Record RT_Click_Calibration : Type := mkCalibration {
  p1_mA : F;
  p2_mA : F;
  p1_bitval : Z;   (* uint16_t *)
  p2_bitval : Z    (* uint16_t *)
}.

(** *** T_Click *)

Record T_Click : Type := mkT_Click {
  T_SPI_clock_ : Z;
  T_CS_pin_ : Z;
  T_calib_ : RT_Click_Calibration;
  bitval_ : Z      (* uint16_t, last set bit value *)
}.

(** The constructor leaves [bitval_] uninitialised; [junk] is whatever the
    member holds then. *)
Definition T_Click_new (junk : Z) (CS_pin : Z) (calib : RT_Click_Calibration)
  : T_Click :=
  mkT_Click DEFAULT_RT_CLICK_SPI_CLOCK (wrap8 CS_pin) calib (wrap16 junk).

Definition T_set_SPI_clock (clk_freq_Hz : Z) (self : T_Click) : T_Click :=
  mkT_Click (wrap32 clk_freq_Hz) (T_CS_pin_ self) (T_calib_ self) (bitval_ self).

(** The operands [p2_bitval] and [p1_bitval] are promoted to the 32-bit
    [int] before they are subtracted: the difference does not wrap. *)
Definition mA2bitval (self : T_Click) (mA : F) : Z :=
  let calib_ := T_calib_ self in
  wrap16 (Fround ((mA - p1_mA calib_) / (p2_mA calib_ - p1_mA calib_) *
                    Fof_int (p2_bitval calib_ - p1_bitval calib_) +
                  Fof_int (p1_bitval calib_))).

Definition set_mA (mA : F) (self : T_Click) : io T_Click :=
  let bitval := mA2bitval self mA in
  let self' := mkT_Click (T_SPI_clock_ self) (T_CS_pin_ self) (T_calib_ self)
                         bitval in
  let bitval_HI := wrap8 (Z.land (Z.shiftr bitval 8) 15) in
  let bitval_HI := wrap8 (Z.lor bitval_HI 48) in
  let bitval_LO := wrap8 bitval in
  SPI_beginTransaction (T_SPI_clock_ self) ;;;
  digitalWrite (T_CS_pin_ self) LOW ;;;
  _ <- SPI_transfer bitval_HI ;;
  _ <- SPI_transfer bitval_LO ;;
  digitalWrite (T_CS_pin_ self) HIGH ;;;
  SPI_endTransaction ;;;
  ret self'.

Definition T_begin (self : T_Click) : io T_Click :=
  SPI_begin ;;;
  digitalWrite (T_CS_pin_ self) HIGH ;;;
  pinMode_OUTPUT (T_CS_pin_ self) ;;;
  set_mA (Fof_int 4) self.

Definition get_last_set_bitval (self : T_Click) : Z := bitval_ self.

(** *** R_Click *)

Record R_Click : Type := mkR_Click {
  SPI_clock_ : Z;
  CS_pin_ : Z;
  calib_ : RT_Click_Calibration;
  EMA_interval_ : Z;            (* uint32_t, desired interval [us] *)
  EMA_LP_freq_ : F;             (* cut-off frequency [MHz] *)
  EMA_bitval_ : F;              (* EMA output value *)
  EMA_at_startup_ : bool;
  EMA_tick_ : Z;                (* uint32_t, time of last reading [us] *)
  EMA_obtained_interval_ : Z    (* uint32_t *)
}.

(** [R_Click(CS_pin, calib)]: the default member initialisers apply, among
    them [EMA_tick_ = micros()]; [EMA_obtained_interval_] has none and
    holds [junk]. *)
Definition R_Click_new (junk : Z) (CS_pin : Z) (calib : RT_Click_Calibration)
  : io R_Click :=
  tick <- micros ;;
  ret (mkR_Click DEFAULT_RT_CLICK_SPI_CLOCK (wrap8 CS_pin) calib
                 2000 (Fliteral 1 100000) NAN true tick (wrap32 junk)).

(** [R_Click(CS_pin, calib, EMA_interval, EMA_LP_freq)]. *)
Definition R_Click_new_EMA (junk : Z) (CS_pin : Z)
           (calib : RT_Click_Calibration) (EMA_interval : Z) (EMA_LP_freq : F)
  : io R_Click :=
  tick <- micros ;;
  ret (mkR_Click DEFAULT_RT_CLICK_SPI_CLOCK (wrap8 CS_pin) calib
                 (wrap32 EMA_interval) (EMA_LP_freq * Fliteral 1 1000000)
                 NAN true tick (wrap32 junk)).

Definition set_SPI_clock (clk_freq_Hz : Z) (self : R_Click) : R_Click :=
  mkR_Click (wrap32 clk_freq_Hz) (CS_pin_ self) (calib_ self)
            (EMA_interval_ self) (EMA_LP_freq_ self) (EMA_bitval_ self)
            (EMA_at_startup_ self) (EMA_tick_ self)
            (EMA_obtained_interval_ self).

Definition R_begin (self : R_Click) : io unit :=
  SPI_begin ;;;
  digitalWrite (CS_pin_ self) HIGH ;;;
  pinMode_OUTPUT (CS_pin_ self).

(** The value of the local [mA] of [bitval2mA], before the fault test. *)
Definition bitval2mA_current (self : R_Click) (bitval : F) : F :=
  let calib_ := calib_ self in
  p1_mA calib_ + (bitval - Fof_int (p1_bitval calib_)) /
                 Fof_int (p2_bitval calib_ - p1_bitval calib_) *
                 (p2_mA calib_ - p1_mA calib_).

Definition bitval2mA (self : R_Click) (bitval : F) : F :=
  let mA := bitval2mA_current self bitval in
  if mA >? R_CLICK_FAULT_mA then mA else NAN.

(** The reconstruction of the bit value from the two bytes read. *)
Definition reconstruct_bitval (data_HI data_LO : Z) : Z :=
  wrap16 (Z.shiftr (wrap16 (Z.lor (Z.shiftl data_HI 8) data_LO)) 1).

Definition read_bitval (self : R_Click) : io Z :=
  SPI_beginTransaction (SPI_clock_ self) ;;;
  digitalWrite (CS_pin_ self) LOW ;;;
  rx_HI <- SPI_transfer 255 ;;
  let data_HI := wrap8 (Z.land rx_HI 31) in
  data_LO <- SPI_transfer 255 ;;
  digitalWrite (CS_pin_ self) HIGH ;;;
  SPI_endTransaction ;;;
  ret (reconstruct_bitval data_HI data_LO).

Definition read_mA (self : R_Click) : io F :=
  bitval <- read_bitval self ;;
  ret (bitval2mA self (Fof_int bitval)).

Context {libm : FloatExp F}.

(** The smoothing factor [1.f - exp(-float(EMA_obtained_interval_) *
    EMA_LP_freq_)]. *)
Definition EMA_alpha (obtained_interval : Z) (LP_freq : F) : F :=
  Fof_int 1 - Fexp_libm (- Fof_int obtained_interval * LP_freq).

Definition with_EMA_obtained_interval (v : Z) (self : R_Click) : R_Click :=
  mkR_Click (SPI_clock_ self) (CS_pin_ self) (calib_ self)
            (EMA_interval_ self) (EMA_LP_freq_ self) (EMA_bitval_ self)
            (EMA_at_startup_ self) (EMA_tick_ self) v.

Definition with_EMA_at_startup (v : bool) (self : R_Click) : R_Click :=
  mkR_Click (SPI_clock_ self) (CS_pin_ self) (calib_ self)
            (EMA_interval_ self) (EMA_LP_freq_ self) (EMA_bitval_ self)
            v (EMA_tick_ self) (EMA_obtained_interval_ self).

Definition with_EMA_bitval (v : F) (self : R_Click) : R_Click :=
  mkR_Click (SPI_clock_ self) (CS_pin_ self) (calib_ self)
            (EMA_interval_ self) (EMA_LP_freq_ self) v
            (EMA_at_startup_ self) (EMA_tick_ self)
            (EMA_obtained_interval_ self).

Definition with_EMA_tick (v : Z) (self : R_Click) : R_Click :=
  mkR_Click (SPI_clock_ self) (CS_pin_ self) (calib_ self)
            (EMA_interval_ self) (EMA_LP_freq_ self) (EMA_bitval_ self)
            (EMA_at_startup_ self) v (EMA_obtained_interval_ self).

Definition poll_EMA (self : R_Click) : io (bool * R_Click) :=
  now <- micros ;;
  if wrap32 (now - EMA_tick_ self) >=? EMA_interval_ self then
    let self := with_EMA_obtained_interval (wrap32 (now - EMA_tick_ self)) self in
    let alpha := EMA_alpha (EMA_obtained_interval_ self) (EMA_LP_freq_ self) in
    self <- (if EMA_at_startup_ self then
               let self := with_EMA_at_startup false self in
               bitval <- read_bitval self ;;
               ret (with_EMA_bitval (Fof_int bitval) self)
             else
               bitval <- read_bitval self ;;
               ret (with_EMA_bitval
                      (EMA_bitval_ self +
                       alpha * (Fof_int bitval - EMA_bitval_ self)) self)) ;;
    ret (true, with_EMA_tick now self)
  else
    ret (false, self).

(** The sampling-due test of [poll_EMA] for a call made in world [w]. *)
Definition due (self : R_Click) (w : World) : bool :=
  wrap32 (wrap32 (micros_now w) - EMA_tick_ self) >=? EMA_interval_ self.

(** As long as the filter is at start-up, its running value is the [NAN] it
    was initialised with. *)
Definition seeding_inv (self : R_Click) : Prop :=
  EMA_at_startup_ self = true -> EMA_bitval_ self = NAN.

Definition get_EMA_bitval (self : R_Click) : F := EMA_bitval_ self.

Definition get_EMA_mA (self : R_Click) : F := bitval2mA self (EMA_bitval_ self).

Definition get_EMA_obtained_interval (self : R_Click) : Z :=
  EMA_obtained_interval_ self.

(** *** Any use of a receiver

    The public methods of [R_Click], and what each call hands back. *)

Inductive R_call : Type :=
| call_set_SPI_clock (clk_freq_Hz : Z)
| call_begin
| call_bitval2mA (bitval : F)
| call_read_bitval
| call_read_mA
| call_poll_EMA
| call_get_EMA_bitval
| call_get_EMA_mA
| call_get_EMA_obtained_interval.

Inductive R_result : Type :=
| res_void
| res_bool (b : bool)
| res_uint (z : Z)
| res_float (f : F).

Definition R_do (c : R_call) (self : R_Click) : io (R_result * R_Click) :=
  match c with
  | call_set_SPI_clock hz => ret (res_void, set_SPI_clock hz self)
  | call_begin => R_begin self ;;; ret (res_void, self)
  | call_bitval2mA b => ret (res_float (bitval2mA self b), self)
  | call_read_bitval => v <- read_bitval self ;; ret (res_uint v, self)
  | call_read_mA => v <- read_mA self ;; ret (res_float v, self)
  | call_poll_EMA => r <- poll_EMA self ;; ret (res_bool (fst r), snd r)
  | call_get_EMA_bitval => ret (res_float (get_EMA_bitval self), self)
  | call_get_EMA_mA => ret (res_float (get_EMA_mA self), self)
  | call_get_EMA_obtained_interval =>
      ret (res_uint (get_EMA_obtained_interval self), self)
  end.

(** The environment moves the microsecond counter to [t]. *)
Definition at_time (t : Z) : io unit :=
  fun w => (tt, mkWorld t (miso w) (transfers w) (trace w)).

(** A program using the receiver: calls, each made at its own time. *)
Fixpoint R_run (calls : list (Z * R_call)) (self : R_Click)
  : io (list R_result * R_Click) :=
  match calls with
  | [] => ret ([], self)
  | (t, c) :: rest =>
      at_time t ;;;
      r <- R_do c self ;;
      rs <- R_run rest (snd r) ;;
      ret (fst r :: fst rs, snd rs)
  end.

(** Did some [poll_EMA] call of the program take a sample? *)
Definition is_sample (r : R_result) : bool :=
  match r with
  | res_bool true => true
  | _ => false
  end.

Definition sampled (rs : list R_result) : bool := existsb is_sample rs.

End Driver.

Arguments RT_Click_Calibration F : clear implicits.
Arguments T_Click F : clear implicits.
Arguments R_Click F : clear implicits.
Arguments R_call F : clear implicits.
Arguments R_result F : clear implicits.

(** ** Reading a trace, and the receiver chip's framing *)

(** The bytes the master clocked out, oldest first. *)
Fixpoint sent_bytes (tr : list event) : list Z :=
  match tr with
  | [] => []
  | SPI_transfer_ev tx _ :: rest => tx :: sent_bytes rest
  | _ :: rest => sent_bytes rest
  end.

(** How the MCP3201 delivers the 12-bit conversion result [d] in two bytes
    (figure 6.1 of its data sheet, which the source refers to): three
    leading bits [lead] that carry no data (two undriven bits and the null
    bit), then bits 11 to 7 of [d] in the first byte; bits 6 to 0 of [d]
    followed by one more bit [tail] in the second byte. *)
Definition MCP3201_answer (lead d tail : Z) : Z * Z :=
  (lead * 32 + d / 128, (d mod 128) * 2 + tail).

(** ** What a receiver does on the bus *)

(** The board activity of receiver operations on the chip behind [pin],
    parsed block by block: a [begin()] block, or one exchange of two bytes,
    both [0xFF], between chip select low and chip select high inside one
    transaction.  The result is the number of exchanges; [None] for a trace
    that is not made of such blocks. *)
Fixpoint R_bus_exchanges (pin : Z) (tr : list event) : option nat :=
  match tr with
  | [] => Some O
  | SPI_begin_ev :: digitalWrite_ev p1 true :: pinMode_OUTPUT_ev p2 :: rest =>
      if (p1 =? pin) && (p2 =? pin) then R_bus_exchanges pin rest else None
  | SPI_beginTransaction_ev _ :: digitalWrite_ev p1 false
      :: SPI_transfer_ev tx1 _ :: SPI_transfer_ev tx2 _
      :: digitalWrite_ev p2 true :: SPI_endTransaction_ev :: rest =>
      if (p1 =? pin) && (p2 =? pin) && (tx1 =? 255) && (tx2 =? 255)
      then option_map S (R_bus_exchanges pin rest)
      else None
  | _ => None
  end.

Section Programs.

Context {F : Type} {ops : FloatOps F} {libm : FloatExp F}.

(** The number of SPI exchanges a call makes, given what it handed back. *)
Definition R_exchange_of (c : R_call F) (r : R_result F) : nat :=
  match c, r with
  | call_read_bitval, _ => 1
  | call_read_mA, _ => 1
  | call_poll_EMA, res_bool true => 1
  | _, _ => 0
  end.

Fixpoint R_exchanges (calls : list (Z * R_call F)) (rs : list (R_result F))
  : nat :=
  match calls, rs with
  | (_, c) :: calls', r :: rs' => (R_exchange_of c r + R_exchanges calls' rs')%nat
  | _, _ => O
  end.

(** The SPI clock a program leaves behind: the last one it set. *)
Fixpoint R_last_clock (calls : list (Z * R_call F)) (clock : Z) : Z :=
  match calls with
  | [] => clock
  | (_, call_set_SPI_clock hz) :: rest => R_last_clock rest (wrap32 hz)
  | _ :: rest => R_last_clock rest clock
  end.

End Programs.

(** ** The pressure logger ([main.cpp]) and the example sketch
    ([RT_Click.ino])

    What the sketches print and show is recorded as a list of [output]s;
    [millis()] and the command the serial listener delivers are inputs of
    each pass through [loop()]. *)

Inductive output {F : Type} : Type :=
| neo_begin
| neo_setPixelColor (n : Z) (r g b : Z)    (* neo.Color(r, g, b) *)
| neo_show
| Serial_begin (baud : Z)
| Serial_print_text (s : string)
| Serial_println_text (s : string)
| Serial_print_uint (v : Z)
| Serial_printf_uint (width : Z) (v : Z)   (* "%4u", "%2u" *)
| Serial_write (c : ascii)
| Serial_print_char (c : ascii)
| Serial_print_float (v : F) (digits : Z)
| Serial_println_float (v : F) (digits : Z).

Arguments output F : clear implicits.

Module Logger.

Section Sketch.

Context {F : Type} {ops : FloatOps F} {libm : FloatExp F}.

Local Open Scope float_scope.

Definition NEO_DIM : Z := 2.
Definition NEO_BRIGHT : Z := 6.
Definition FLASH_LENGTH : Z := 100.

Definition PIN_R_CLICK : Z := 5.

Definition R_CLICK_CALIB : RT_Click_Calibration F :=
  mkCalibration (Fliteral 411 100) (Fliteral 2002 100) 830 4002.

Definition EMA_DT : Z := 100.
Definition EMA_LP : F := Fof_int 1000.

(** The global [R_click]: an object of static storage is zero-initialised
    before its constructor runs, so the member without initialiser is 0. *)
Definition R_click_new : io (R_Click F) :=
  R_Click_new_EMA 0 PIN_R_CLICK R_CLICK_CALIB EMA_DT EMA_LP.

Record Pressure_Calibration : Type := mkPressure_Calibration {
  zero_mA : F;
  span_mA : F;
  full_range_bar : F
}.

Definition PRESSURE_CALIB : Pressure_Calibration :=
  mkPressure_Calibration (Fliteral 4 1) (Fof_int 16) (Fliteral 689 10000).

Definition mA2bar (mA : F) (calib : Pressure_Calibration) : F :=
  (mA - zero_mA calib) / span_mA calib * full_range_bar calib.

Record Readings : Type := mkReadings {
  pres_bitval : F;
  pres_mA : F;
  pres_bar : F
}.

(** The [static] locals of [loop()]. *)
Record Loop_statics : Type := mkLoop_statics {
  tick : Z;          (* uint32_t *)
  flash : bool;
  flash_tick : Z;    (* uint32_t *)
  report : bool
}.

(** The sketch's objects; [statics] is [None] until [loop()] ran once. *)
Record Sketch : Type := mkSketch {
  R_click : R_Click F;
  readings : Readings;
  statics : option Loop_statics
}.

Definition Sketch_new : io Sketch :=
  r <- R_click_new ;;
  ret (mkSketch r (mkReadings NAN NAN NAN) None).

(** [PIN_LED] comes from the board's variant file. *)
Definition setup (PIN_LED : Z) (st : Sketch) : io (list (output F)) :=
  pinMode_OUTPUT PIN_LED ;;;
  digitalWrite PIN_LED LOW ;;;
  R_begin (R_click st) ;;;
  ret [neo_begin; neo_setPixelColor 0 0 0 NEO_BRIGHT; neo_show;
       Serial_begin 9600;
       neo_setPixelColor 0 0 NEO_DIM 0; neo_show].

(** One pass through [loop()]: [millis_now] is what [millis()] counts,
    [command] what the serial listener has available, if anything. *)
Definition loop (millis_now : Z) (command : option string) (st : Sketch)
  : io (list (output F) * Sketch) :=
  let now := wrap32 millis_now in
  let s := match statics st with
           | Some s => s
           | None => mkLoop_statics now false now false
           end in
  polled <- poll_EMA (R_click st) ;;
  let R_click' := snd polled in
  let '(out_command, s) :=
    match command with
    | Some str_cmd =>
        let out := [neo_setPixelColor 0 0 NEO_BRIGHT 0; neo_show] in
        let s := mkLoop_statics (tick s) true now (report s) in
        if String.eqb str_cmd "id?" then
          (out ++ [Serial_println_text "Arduino, Trachea pressure logger"],
           mkLoop_statics (tick s) (flash s) (flash_tick s) false)
        else if String.eqb str_cmd "on" then
          (out, mkLoop_statics (tick s) (flash s) (flash_tick s) true)
        else if String.eqb str_cmd "off" then
          (out, mkLoop_statics (tick s) (flash s) (flash_tick s) false)
        else (out, s)
    | None => ([], s)
    end in
  let '(out_report, s, readings') :=
    if report s && (wrap32 (tick s - now) >=? 1) then
      let s := mkLoop_statics now (flash s) (flash_tick s) (report s) in
      let mA := get_EMA_mA R_click' in
      let bar := mA2bar mA PRESSURE_CALIB in
      ([Serial_print_uint now; Serial_write "009"%char;
        Serial_println_float (bar * Fof_int 1000) 2],
       s, mkReadings (pres_bitval (readings st)) mA bar)
    else ([], s, readings st) in
  let '(out_flash, s) :=
    if flash s && (wrap32 (now - flash_tick s) >=? FLASH_LENGTH) then
      ([neo_setPixelColor 0 0 NEO_DIM 0; neo_show],
       mkLoop_statics (tick s) false (flash_tick s) (report s))
    else ([], s) in
  ret (out_command ++ out_report ++ out_flash,
       mkSketch R_click' readings' (Some s)).

(** The command block of [loop()] on its own: what it prints and shows,
    and the statics it leaves. *)
Definition command_block (now : Z) (command : option string)
           (s : Loop_statics) : list (output F) * Loop_statics :=
  match command with
  | Some str_cmd =>
      let out := [neo_setPixelColor 0 0 NEO_BRIGHT 0; neo_show] in
      if String.eqb str_cmd "id?" then
        (out ++ [Serial_println_text "Arduino, Trachea pressure logger"],
         mkLoop_statics (tick s) true now false)
      else if String.eqb str_cmd "on" then
        (out, mkLoop_statics (tick s) true now true)
      else if String.eqb str_cmd "off" then
        (out, mkLoop_statics (tick s) true now false)
      else (out, mkLoop_statics (tick s) true now (report s))
  | None => ([], s)
  end.

(** A run of the sketch: one pass per element, each with the readings of
    [micros()] and [millis()] and the command available at that pass. *)
Fixpoint run (passes : list (Z * Z * option string)) (st : Sketch)
  : io (list (output F) * Sketch) :=
  match passes with
  | [] => ret ([], st)
  | (micros_now, millis_now, command) :: rest =>
      at_time micros_now ;;;
      r <- loop millis_now command st ;;
      rs <- run rest (snd r) ;;
      ret (fst r ++ fst rs, snd rs)
  end.

End Sketch.

(** The pressures a list of outputs reports. *)
Fixpoint reported {F : Type} (out : list (output F)) : list F :=
  match out with
  | [] => []
  | Serial_println_float v _ :: rest => v :: reported rest
  | _ :: rest => reported rest
  end.

(** The identity lines among a list of outputs, counted. *)
Fixpoint identity_lines {F : Type} (out : list (output F)) : nat :=
  match out with
  | [] => O
  | Serial_println_text _ :: rest => S (identity_lines rest)
  | _ :: rest => identity_lines rest
  end.

(** Is the command [id?]. *)
Definition asks_identity (command : option string) : bool :=
  match command with
  | Some c => String.eqb c "id?"
  | None => false
  end.

End Logger.

Arguments Logger.Pressure_Calibration F : clear implicits.
Arguments Logger.Readings F : clear implicits.
Arguments Logger.Sketch F : clear implicits.

Module Example.

Section Sketch.

Context {F : Type} {ops : FloatOps F} {libm : FloatExp F}.

Local Open Scope float_scope.

Definition PIN_R_CLICK : Z := 5.
Definition PIN_T_CLICK : Z := 6.

Definition EMA_INTERVAL : Z := 2000.
Definition EMA_LP_FREQ : F := Fof_int 10.

Definition R_click_new : io (R_Click F) :=
  R_Click_new_EMA 0 PIN_R_CLICK
    (mkCalibration (Fliteral 403 100) (Fliteral 1993 100) 832 3999)
    EMA_INTERVAL EMA_LP_FREQ.

Definition T_click_new : T_Click F :=
  T_Click_new 0 PIN_T_CLICK
    (mkCalibration (Fliteral 402 100) (Fliteral 1999 100) 800 3980).

(** The [static] locals of [loop()]. *)
Record Loop_statics : Type := mkLoop_statics {
  tick : Z;      (* uint32_t *)
  tock : Z;      (* uint32_t *)
  mA_out : Z     (* uint8_t *)
}.

Record Sketch : Type := mkSketch {
  R_click : R_Click F;
  T_click : T_Click F;
  statics : option Loop_statics
}.

Definition Sketch_new : io Sketch :=
  r <- R_click_new ;;
  ret (mkSketch r T_click_new None).

Definition setup (st : Sketch) : io (list (output F) * Sketch) :=
  R_begin (R_click st) ;;;
  t <- T_begin (T_click st) ;;
  ret ([Serial_begin 9600], mkSketch (R_click st) t (statics st)).

Definition loop (millis_now : Z) (st : Sketch)
  : io (list (output F) * Sketch) :=
  let now := wrap32 millis_now in
  let s := match statics st with
           | Some s => s
           | None => mkLoop_statics now now 4
           end in
  polled <- poll_EMA (R_click st) ;;
  let R_click' := snd polled in
  cycled <- (if (wrap32 (now - tock s) >? 10000)%Z then
               let mA_out' :=
                 if mA_out s =? 4 then 12
                 else if mA_out s =? 12 then 20
                 else 4 in
               t <- set_mA (Fof_int mA_out') (T_click st) ;;
               ret (mkLoop_statics (tick s) now mA_out', t)
             else ret (s, T_click st)) ;;
  let s := fst cycled in
  let T_click' := snd cycled in
  let '(out, s) :=
    if (wrap32 (now - tick s) >? 1000)%Z then
      ([Serial_print_text "T click: ";
        Serial_printf_uint 4 (get_last_set_bitval T_click');
        Serial_print_char "009"%char;
        Serial_printf_uint 2 (mA_out s);
        Serial_print_text "   |   R click: ";
        Serial_printf_uint 4 (wrap16 (Fround (get_EMA_bitval R_click')));
        Serial_print_char "009"%char;
        Serial_print_float (get_EMA_mA R_click') 2;
        Serial_print_char "010"%char],
       mkLoop_statics now (tock s) (mA_out s))
    else ([], s) in
  ret (out, mkSketch R_click' T_click' (Some s)).

(** A run of the sketch: one pass per element, each with the readings of
    [micros()] and [millis()]. *)
Fixpoint run (passes : list (Z * Z)) (st : Sketch)
  : io (list (output F) * Sketch) :=
  match passes with
  | [] => ret ([], st)
  | (micros_now, millis_now) :: rest =>
      at_time micros_now ;;;
      r <- loop millis_now st ;;
      rs <- run rest (snd r) ;;
      ret (fst r ++ fst rs, snd rs)
  end.

End Sketch.

End Example.

Arguments Example.Sketch F : clear implicits.

(** ** Any use of a transmitter

    The public methods of [T_Click], and what each call hands back. *)

Section TransmitterPrograms.

Context {F : Type} {ops : FloatOps F}.

Inductive T_call : Type :=
| call_T_set_SPI_clock (clk_freq_Hz : Z)
| call_T_begin
| call_mA2bitval (mA : F)
| call_set_mA (mA : F)
| call_get_last_set_bitval.

Inductive T_result : Type :=
| T_res_void
| T_res_uint (z : Z).

Definition T_do (c : T_call) (self : T_Click F) : io (T_result * T_Click F) :=
  match c with
  | call_T_set_SPI_clock hz => ret (T_res_void, T_set_SPI_clock hz self)
  | call_T_begin => t <- T_begin self ;; ret (T_res_void, t)
  | call_mA2bitval mA => ret (T_res_uint (mA2bitval self mA), self)
  | call_set_mA mA => t <- set_mA mA self ;; ret (T_res_void, t)
  | call_get_last_set_bitval =>
      ret (T_res_uint (get_last_set_bitval self), self)
  end.

(** A program using the transmitter: calls, each made at its own time. *)
Fixpoint T_run (calls : list (Z * T_call)) (self : T_Click F)
  : io (list T_result * T_Click F) :=
  match calls with
  | [] => ret ([], self)
  | (t, c) :: rest =>
      at_time t ;;;
      r <- T_do c self ;;
      rs <- T_run rest (snd r) ;;
      ret (fst r :: fst rs, snd rs)
  end.

(** The currents a program asks for, in order; [begin()] asks for 4 mA. *)
Fixpoint T_currents (calls : list (Z * T_call)) : list F :=
  match calls with
  | [] => []
  | (_, call_T_begin) :: rest => Fof_int 4 :: T_currents rest
  | (_, call_set_mA mA) :: rest => mA :: T_currents rest
  | _ :: rest => T_currents rest
  end.

End TransmitterPrograms.

Arguments T_call F : clear implicits.

(** The board activity of transmitter operations on the chip behind [pin],
    parsed block by block: a [begin()] block, or one command of two bytes
    between chip select low and chip select high inside one transaction, the
    first byte with the configuration bits [0011] on top.  The result is the
    list of 12-bit data words the converter received; [None] for a trace
    that is not made of such blocks. *)
Fixpoint T_bus_words (pin : Z) (tr : list event) : option (list Z) :=
  match tr with
  | [] => Some []
  | SPI_begin_ev :: digitalWrite_ev p1 true :: pinMode_OUTPUT_ev p2 :: rest =>
      if (p1 =? pin) && (p2 =? pin) then T_bus_words pin rest else None
  | SPI_beginTransaction_ev _ :: digitalWrite_ev p1 false
      :: SPI_transfer_ev hi _ :: SPI_transfer_ev lo _
      :: digitalWrite_ev p2 true :: SPI_endTransaction_ev :: rest =>
      if (p1 =? pin) && (p2 =? pin) && (hi / 16 =? 3)
         && (0 <=? lo) && (lo <? 256)
      then option_map (cons (hi mod 16 * 256 + lo)) (T_bus_words pin rest)
      else None
  | _ => None
  end.

(** ** Invariants, and the exact lines of the calibration *)

Section Invariants.

Context {F : Type} {ops : FloatOps F}.

(** Once a sample was taken, the obtained interval is at least the
    configured one. *)
Definition cadence_inv (self : R_Click F) : Prop :=
  EMA_at_startup_ self = false ->
  EMA_interval_ self <= EMA_obtained_interval_ self < 2 ^ 32.

(** The current the sketch shows as set: [mA_out], 4 before the first pass. *)
Definition shown_mA (st : Example.Sketch F) : Z :=
  match Example.statics st with
  | Some s => Example.mA_out s
  | None => 4
  end.

(** The next current of the cycle. *)
Definition next_mA (mA : Z) : Z :=
  if mA =? 4 then 12 else if mA =? 12 then 20 else 4.

(** The transmitter is set to the current the sketch shows. *)
Definition Example_inv (st : Example.Sketch F) : Prop :=
  (shown_mA st = 4 \/ shown_mA st = 12 \/ shown_mA st = 20)
  /\ get_last_set_bitval (Example.T_click st)
     = mA2bitval (Example.T_click st) (Fof_int (shown_mA st)).

End Invariants.


(** The exact line through the two calibration points, from bit value to
    current. *)
Definition exact_mA (c : RT_Click_Calibration spec_float) (x : R) : R :=
  (B32.val (p1_mA c)
   + (x - IZR (p1_bitval c)) / (IZR (p2_bitval c) - IZR (p1_bitval c))
     * (B32.val (p2_mA c) - B32.val (p1_mA c)))%R.

(** The exact line through the two calibration points, from current to bit
    value. *)
Definition exact_bitval (c : RT_Click_Calibration spec_float) (mA : R) : R :=
  (IZR (p1_bitval c)
   + (mA - B32.val (p1_mA c)) / (B32.val (p2_mA c) - B32.val (p1_mA c))
     * (IZR (p2_bitval c) - IZR (p1_bitval c)))%R.

(** ** Concrete set-ups used to run the driver *)

Module Demo.

Definition f32 (m d : Z) : spec_float := Fliteral (ops := binary32) m d.

(** The calibration of the specification's end-to-end scenarios. *)
Definition calib : RT_Click_Calibration spec_float :=
  mkCalibration (f32 4 1) (f32 20 1) 800 4000.

(** A slave that answers [0x0C], [0x80] on every exchange: reading 1600. *)
Definition slave_1600 (n : nat) : Z := if Nat.even n then 12 else 128.

Definition world (t : Z) : World := mkWorld t slave_1600 0 [].

(** [R_Click R_click(5, calib, 2000, 10.)], constructed at time 0. *)
Definition receiver : R_Click spec_float :=
  fst (R_Click_new_EMA 0 5 calib 2000 (f32 10 1) (world 0)).

Definition transmitter : T_Click spec_float := T_Click_new 0 6 calib.

(** The calibration of the pressure logger's [main.cpp]. *)
Definition logger_calib : RT_Click_Calibration spec_float :=
  mkCalibration (f32 411 100) (f32 2002 100) 830 4002.

(** [R_Click R_click(5, R_CLICK_CALIB, 100, 1000)] of the pressure logger,
    and a transmitter with the same calibration. *)
Definition logger : R_Click spec_float :=
  fst (R_Click_new_EMA 0 5 logger_calib 100 (f32 1000 1) (world 0)).

Definition logger_loopback : T_Click spec_float := T_Click_new 0 6 logger_calib.

(** A receiver whose last time stamp was taken 100 us before the counter
    wrapped around. *)
Definition late_receiver : R_Click spec_float :=
  fst (R_Click_new_EMA 0 5 calib 2000 (f32 10 1) (world (2 ^ 32 - 100))).

(** A program that polls twice before the first sample is due and then
    asks for the filtered current. *)
Definition early_calls : list (Z * R_call spec_float) :=
  [(500, call_poll_EMA); (1500, call_poll_EMA); (1600, call_get_EMA_mA)].

(** The same receiver and transmitter in exact arithmetic. *)
Definition exact_calib : RT_Click_Calibration Exact.xreal :=
  mkCalibration (Exact.Real 4) (Exact.Real 20) 800 4000.

Definition exact_receiver : R_Click Exact.xreal :=
  fst (R_Click_new 0 5 exact_calib (world 0)).

Definition exact_transmitter : T_Click Exact.xreal :=
  T_Click_new 0 6 exact_calib.

(** The cut-off constant of a 10 Hz filter, [10. * 1e-6f]. *)
Definition LP_10Hz : spec_float := (f32 10 1 * f32 1 1000000)%flt.

(** The receiver after its first sample, taken at 2000 us. *)
Definition seeded : R_Click spec_float :=
  snd (fst (poll_EMA receiver (world 2000))).

(** A receiver whose calibration has the same bit value twice. *)
Definition flat_receiver : R_Click spec_float :=
  fst (R_Click_new 0 5 (mkCalibration (f32 4 1) (f32 20 1) 800 800) (world 0)).

(** A filtering receiver in exact arithmetic, fresh and after its first
    sample. *)
Definition exact_filter : R_Click Exact.xreal :=
  fst (R_Click_new_EMA 0 5 exact_calib 2000 (Exact.Real 10) (world 0)).

Definition exact_seeded : R_Click Exact.xreal :=
  snd (fst (poll_EMA exact_filter (world 2000))).

(** The pressure logger, freshly started, and with reporting switched on. *)
Definition logger_sketch : Logger.Sketch spec_float :=
  fst (Logger.Sketch_new (world 0)).

Definition reporting_sketch : Logger.Sketch spec_float :=
  Logger.mkSketch (Logger.R_click logger_sketch)
    (Logger.readings logger_sketch)
    (Some (Logger.mkLoop_statics 0 false 0 true)).

(** Three passes of the logger: [id?], nothing, [off]. *)
Definition quiet_passes : list (Z * Z * option string) :=
  [(50, 0, Some "id?"%string); (150, 1, None); (250, 2, Some "off"%string)].


(** A filtering receiver with an oversampling interval of 0. *)
Definition eager_receiver : R_Click spec_float :=
  fst (R_Click_new_EMA 0 5 calib 0 (f32 10 1) (world 0)).

End Demo.

(** ** Facts that hold for every implementation of [float] *)

Section DriverFacts.

Context {F : Type} {ops : FloatOps F} {libm : FloatExp F}.

Lemma wrap32_range (z : Z) : 0 <= wrap32 z < 2 ^ 32.
Proof. unfold wrap32. apply Z.mod_pos_bound. lia. Qed.

Lemma wrap16_range (z : Z) : 0 <= wrap16 z < 2 ^ 16.
Proof. unfold wrap16. apply Z.mod_pos_bound. lia. Qed.

Lemma wrap8_range (z : Z) : 0 <= wrap8 z < 2 ^ 8.
Proof. unfold wrap8. apply Z.mod_pos_bound. lia. Qed.

Lemma wrap8_small (z : Z) : 0 <= z < 256 -> wrap8 z = z.
Proof. intros H. unfold wrap8. apply Z.mod_small. lia. Qed.

Lemma wrap16_small (z : Z) : 0 <= z < 65536 -> wrap16 z = z.
Proof. intros H. unfold wrap16. apply Z.mod_small. lia. Qed.

(** The elapsed time [poll_EMA] works with. *)
Lemma poll_EMA_due (self : R_Click F) (w : World) :
  fst (fst (poll_EMA self w))
  = (wrap32 (wrap32 (micros_now w) - EMA_tick_ self) >=? EMA_interval_ self).
Proof.
  unfold poll_EMA, bind, micros, ret.
  destruct (wrap32 (wrap32 (micros_now w) - EMA_tick_ self) >=? EMA_interval_ self);
    [ | reflexivity ].
  cbn -[wrap32 read_bitval].
  destruct (EMA_at_startup_ self);
    cbn -[wrap32 read_bitval];
    match goal with |- context [read_bitval ?s ?w] => destruct (read_bitval s w) end;
    reflexivity.
Qed.

(** A call that is not due changes nothing. *)
Lemma poll_EMA_idle (self : R_Click F) (w : World) :
  due self w = false -> poll_EMA self w = (false, self, w).
Proof.
  unfold due. intros Hdue.
  unfold poll_EMA, bind, micros, ret. rewrite Hdue. reflexivity.
Qed.

(** C3: when the elapsed time, computed by unsigned subtraction, is below
    the configured oversampling interval, [poll_EMA] returns [false] and
    hands back the very same filter state and the very same world: running
    value, time stamp, start-up flag and obtained interval are untouched and
    no SPI transfer took place. *)
Theorem poll_EMA_not_yet_due (self : R_Click F) (w : World) :
  wrap32 (wrap32 (micros_now w) - EMA_tick_ self) < EMA_interval_ self ->
  poll_EMA self w = (false, self, w).
Proof.
  intros Hlt.
  unfold poll_EMA, bind, micros, ret.
  replace (wrap32 (wrap32 (micros_now w) - EMA_tick_ self) >=? EMA_interval_ self)
    with false; [ reflexivity | ].
  symmetry. rewrite Z.geb_leb. apply Z.leb_gt. exact Hlt.
Qed.

(** *** Elapsed time *)

(** C9: the elapsed interval of [poll_EMA] is [(now - last) mod 2^32], for
    the sampling-due test as well as for the stored obtained interval; it is
    the true number of microseconds between the two reads of the counter
    whenever that number is below [2^32], whether or not the 32-bit counter
    wrapped around in between. *)
Theorem poll_EMA_elapsed_wraparound_safe (self : R_Click F) (w : World) :
  let now := wrap32 (micros_now w) in
  let last := EMA_tick_ self in
  let elapsed := (now - last) mod 2 ^ 32 in
  fst (fst (poll_EMA self w)) = (elapsed >=? EMA_interval_ self)
  /\ (fst (fst (poll_EMA self w)) = true ->
      EMA_obtained_interval_ (snd (fst (poll_EMA self w))) = elapsed)
  /\ (forall t_last t_now : Z,
        last = wrap32 t_last -> micros_now w = t_now ->
        0 <= t_now - t_last < 2 ^ 32 ->
        elapsed = t_now - t_last).
Proof.
  cbv zeta. split; [ | split ].
  - apply poll_EMA_due.
  - rewrite poll_EMA_due. intros Hdue.
    unfold poll_EMA, bind, micros, ret. rewrite Hdue.
    cbn -[wrap32 read_bitval].
    destruct (EMA_at_startup_ self);
      cbn -[wrap32 read_bitval];
      match goal with |- context [read_bitval ?s ?w] => destruct (read_bitval s w) end;
      reflexivity.
  - intros t_last t_now Hlast Hnow Hrange.
    rewrite Hlast, Hnow. unfold wrap32.
    rewrite <- Zminus_mod.
    apply Z.mod_small. exact Hrange.
Qed.

(** *** The SPI exchange of the receiver *)

Lemma lor_shiftl_8 (a b : Z) :
  0 <= b < 256 -> Z.lor (Z.shiftl a 8) b = a * 256 + b.
Proof.
  intros Hb.
  rewrite Z.shiftl_mul_pow2 by lia.
  change (2 ^ 8) with 256.
  rewrite <- (Z.add_lor_land (a * 256) b).
  assert (Hz : Z.land (a * 256) b = 0).
  { apply Z.bits_inj'. intros n Hn.
    rewrite Z.land_spec, Z.bits_0.
    destruct (Z.ltb_spec n 8) as [Hlow | Hhigh].
    - change 256 with (2 ^ 8). rewrite Z.mul_pow2_bits_low by lia. reflexivity.
    - rewrite <- (Z.mod_small b (2 ^ 8)) by (change (2 ^ 8) with 256; lia).
      rewrite Z.mod_pow2_bits_high by lia.
      apply Bool.andb_false_r. }
  rewrite Hz. lia.
Qed.

Lemma land_31 (a : Z) : Z.land a 31 = a mod 32.
Proof. change 31 with (Z.ones 5). rewrite Z.land_ones by lia. reflexivity. Qed.

Lemma reconstruct_bitval_value (rx_HI rx_LO : Z) :
  0 <= rx_HI < 256 -> 0 <= rx_LO < 256 ->
  reconstruct_bitval (wrap8 (Z.land rx_HI 31)) rx_LO
  = (rx_HI mod 32) * 128 + rx_LO / 2.
Proof.
  intros HH HL. unfold reconstruct_bitval.
  rewrite land_31.
  assert (H32 : 0 <= rx_HI mod 32 < 32) by (apply Z.mod_pos_bound; lia).
  rewrite wrap8_small by lia.
  rewrite lor_shiftl_8 by lia.
  rewrite (wrap16_small (rx_HI mod 32 * 256 + rx_LO)) by lia.
  rewrite Z.shiftr_div_pow2 by lia. change (2 ^ 1) with 2.
  replace (rx_HI mod 32 * 256 + rx_LO) with (rx_LO + (rx_HI mod 32 * 128) * 2) by lia.
  rewrite Z.div_add by lia.
  assert (0 <= rx_LO / 2 < 128).
  { split; [ apply Z.div_pos; lia | apply Z.div_lt_upper_bound; lia ]. }
  rewrite wrap16_small by lia. lia.
Qed.

Lemma read_bitval_run (self : R_Click F) (w : World) :
  let rx_HI := wrap8 (miso w (transfers w)) in
  let rx_LO := wrap8 (miso w (S (transfers w))) in
  read_bitval self w
  = (reconstruct_bitval (wrap8 (Z.land rx_HI 31)) rx_LO,
     mkWorld (micros_now w) (miso w) (S (S (transfers w)))
       (trace w ++ [SPI_beginTransaction_ev (SPI_clock_ self);
                    digitalWrite_ev (CS_pin_ self) LOW;
                    SPI_transfer_ev 255 rx_HI;
                    SPI_transfer_ev 255 rx_LO;
                    digitalWrite_ev (CS_pin_ self) HIGH;
                    SPI_endTransaction_ev])).
Proof.
  cbv zeta.
  unfold read_bitval, bind, ret, SPI_beginTransaction, SPI_endTransaction,
    digitalWrite, SPI_transfer, emit.
  cbn -[wrap8 wrap16 reconstruct_bitval Z.land].
  repeat rewrite <- app_assoc. cbn -[wrap8 wrap16 reconstruct_bitval Z.land].
  reflexivity.
Qed.

(** C5: [read_bitval] performs one SPI exchange of two bytes; of the first
    byte received it keeps the five low bits (mask [0x1F]), puts them in
    front of the second byte (a quantity below [2^13]) and shifts the whole
    right by one bit.  For every pair of received bytes the result lies in
    [0, 4095], and it is the conversion result [d] whenever the two bytes are
    the chip's framing of [d]. *)
Theorem read_bitval_reconstructs_reading (self : R_Click F) (w : World) :
  let rx_HI := wrap8 (miso w (transfers w)) in
  let rx_LO := wrap8 (miso w (S (transfers w))) in
  let combined := Z.lor (Z.shiftl (Z.land rx_HI 31) 8) rx_LO in
  let bitval := fst (read_bitval self w) in
  bitval = Z.shiftr combined 1
  /\ 0 <= combined < 2 ^ 13
  /\ 0 <= bitval <= 4095
  /\ transfers (snd (read_bitval self w)) = S (S (transfers w))
  /\ (forall lead d tail : Z,
        0 <= lead < 8 -> 0 <= d < 4096 -> 0 <= tail < 2 ->
        (rx_HI, rx_LO) = MCP3201_answer lead d tail ->
        bitval = d).
Proof.
  cbv zeta. rewrite read_bitval_run. cbn [fst snd transfers].
  pose proof (wrap8_range (miso w (transfers w))) as HH.
  pose proof (wrap8_range (miso w (S (transfers w)))) as HL.
  change (2 ^ 8) with 256 in HH, HL.
  set (rx_HI := wrap8 (miso w (transfers w))) in *.
  set (rx_LO := wrap8 (miso w (S (transfers w)))) in *.
  rewrite reconstruct_bitval_value by assumption.
  assert (H32 : 0 <= rx_HI mod 32 < 32) by (apply Z.mod_pos_bound; lia).
  assert (HL2 : 0 <= rx_LO / 2 < 128).
  { split; [ apply Z.div_pos; lia | apply Z.div_lt_upper_bound; lia ]. }
  assert (Hcombined : Z.lor (Z.shiftl (Z.land rx_HI 31) 8) rx_LO
                      = rx_HI mod 32 * 256 + rx_LO).
  { rewrite land_31. apply lor_shiftl_8. lia. }
  rewrite Hcombined.
  repeat split; try lia.
  - rewrite Z.shiftr_div_pow2 by lia. change (2 ^ 1) with 2.
    replace (rx_HI mod 32 * 256 + rx_LO)
      with (rx_LO + (rx_HI mod 32 * 128) * 2) by lia.
    rewrite Z.div_add by lia. lia.
  - intros lead d tail Hlead Hd Htail Hframe.
    unfold MCP3201_answer in Hframe.
    injection Hframe as HeqH HeqL.
    rewrite HeqH, HeqL.
    assert (Hd128 : 0 <= d / 128 < 32).
    { split; [ apply Z.div_pos; lia | apply Z.div_lt_upper_bound; lia ]. }
    replace (lead * 32 + d / 128) with (d / 128 + lead * 32) by lia.
    rewrite Z.mod_add by lia.
    rewrite (Z.mod_small (d / 128) 32) by lia.
    assert (Hm : 0 <= d mod 128 < 128) by (apply Z.mod_pos_bound; lia).
    replace (d mod 128 * 2 + tail) with (tail + (d mod 128) * 2) by lia.
    rewrite Z.div_add by lia.
    rewrite (Z.div_small tail 2) by lia.
    pose proof (Z.div_mod d 128 ltac:(lia)). lia.
Qed.

(** *** The SPI exchange of the transmitter *)

Lemma sent_bytes_app (tr1 tr2 : list event) :
  sent_bytes (tr1 ++ tr2) = sent_bytes tr1 ++ sent_bytes tr2.
Proof.
  induction tr1 as [ | e tr1 IH ]; [ reflexivity | ].
  destruct e; cbn [app sent_bytes]; rewrite IH; reflexivity.
Qed.

Lemma lor_low_bits (a b k : Z) :
  0 <= k -> 0 <= b < 2 ^ k -> Z.lor b (a * 2 ^ k) = a * 2 ^ k + b.
Proof.
  intros Hk Hb.
  rewrite <- (Z.add_lor_land (a * 2 ^ k) b).
  assert (Hz : Z.land (a * 2 ^ k) b = 0).
  { apply Z.bits_inj'. intros n Hn.
    rewrite Z.land_spec, Z.bits_0.
    destruct (Z.ltb_spec n k) as [Hlow | Hhigh].
    - rewrite Z.mul_pow2_bits_low by lia. reflexivity.
    - rewrite <- (Z.mod_small b (2 ^ k)) by lia.
      rewrite Z.mod_pow2_bits_high by lia.
      apply Bool.andb_false_r. }
  rewrite Hz, Z.lor_comm. lia.
Qed.

(** The high byte [set_mA] builds from a bit value. *)
Lemma high_byte_value (bitval : Z) :
  wrap8 (Z.lor (wrap8 (Z.land (Z.shiftr bitval 8) 15)) 48)
  = 48 + (bitval / 256) mod 16.
Proof.
  change 15 with (Z.ones 4). rewrite Z.land_ones by lia.
  rewrite Z.shiftr_div_pow2 by lia.
  change (2 ^ 8) with 256. change (2 ^ 4) with 16.
  assert (H16 : 0 <= (bitval / 256) mod 16 < 16) by (apply Z.mod_pos_bound; lia).
  rewrite (wrap8_small ((bitval / 256) mod 16)) by lia.
  change 48 with (3 * 2 ^ 4) at 1.
  rewrite lor_low_bits by (change (2 ^ 4) with 16; lia).
  change (3 * 2 ^ 4) with 48.
  apply wrap8_small. lia.
Qed.

Lemma set_mA_run (mA : F) (self : T_Click F) (w : World) :
  let bitval := mA2bitval self mA in
  set_mA mA self w
  = (mkT_Click (T_SPI_clock_ self) (T_CS_pin_ self) (T_calib_ self) bitval,
     mkWorld (micros_now w) (miso w) (S (S (transfers w)))
       (trace w ++ [SPI_beginTransaction_ev (T_SPI_clock_ self);
                    digitalWrite_ev (T_CS_pin_ self) LOW;
                    SPI_transfer_ev (48 + (bitval / 256) mod 16)
                                    (wrap8 (miso w (transfers w)));
                    SPI_transfer_ev (bitval mod 256)
                                    (wrap8 (miso w (S (transfers w))));
                    digitalWrite_ev (T_CS_pin_ self) HIGH;
                    SPI_endTransaction_ev])).
Proof.
  cbv zeta.
  unfold set_mA, bind, ret, SPI_beginTransaction, SPI_endTransaction,
    digitalWrite, SPI_transfer, emit.
  cbn -[wrap8 wrap16 mA2bitval Z.land Z.lor Z.shiftr Z.div Z.modulo].
  repeat rewrite <- app_assoc.
  cbn -[wrap8 wrap16 mA2bitval Z.land Z.lor Z.shiftr Z.div Z.modulo].
  rewrite high_byte_value.
  assert (Hhi : 0 <= 48 + (mA2bitval self mA / 256) mod 16 < 256).
  { pose proof (Z.mod_pos_bound (mA2bitval self mA / 256) 16). lia. }
  rewrite (wrap8_small (48 + _)) by exact Hhi.
  assert (Hlo : wrap8 (wrap8 (mA2bitval self mA)) = mA2bitval self mA mod 256).
  { unfold wrap8. change (2 ^ 8) with 256. apply Z.mod_mod. lia. }
  rewrite Hlo. reflexivity.
Qed.

(** C10: whatever current is asked for, and whatever 16-bit value
    [mA2bitval] computes from it (values above 4095 included), the first
    byte [set_mA] clocks out has [0011] as its upper four bits and bits 11 to
    8 of the computed bit value as its lower four bits: bits 12 to 15 of the
    bit value never reach the configuration bits. *)
Theorem set_mA_high_byte_keeps_config_bits (mA : F) (self : T_Click F) (w : World) :
  let bitval := mA2bitval self mA in
  exists hi lo : Z,
    sent_bytes (trace (snd (set_mA mA self w)))
    = sent_bytes (trace w) ++ [hi; lo]
    /\ hi = Z.lor (Z.land (Z.shiftr bitval 8) 15) 48
    /\ 0 <= hi < 256
    /\ Z.shiftr hi 4 = 3
    /\ Z.land hi 15 = Z.land (Z.shiftr bitval 8) 15
    /\ (forall i : Z, 0 <= i < 4 -> Z.testbit hi i = Z.testbit bitval (i + 8))
    /\ (forall i : Z, 4 <= i -> Z.testbit hi i = Z.testbit 3 (i - 4)).
Proof.
  cbv zeta. rewrite set_mA_run. cbn [snd trace].
  set (bitval := mA2bitval self mA).
  exists (48 + (bitval / 256) mod 16), (bitval mod 256).
  assert (H16 : 0 <= (bitval / 256) mod 16 < 16) by (apply Z.mod_pos_bound; lia).
  assert (Hland : Z.land (Z.shiftr bitval 8) 15 = (bitval / 256) mod 16).
  { change 15 with (Z.ones 4). rewrite Z.land_ones by lia.
    rewrite Z.shiftr_div_pow2 by lia. reflexivity. }
  assert (Hlor : Z.lor (Z.land (Z.shiftr bitval 8) 15) 48
                 = 48 + (bitval / 256) mod 16).
  { rewrite Hland. change 48 with (3 * 2 ^ 4) at 1.
    rewrite lor_low_bits by (change (2 ^ 4) with 16; lia). reflexivity. }
  assert (Hshift : Z.shiftr (48 + (bitval / 256) mod 16) 4 = 3).
  { rewrite Z.shiftr_div_pow2 by lia. change (2 ^ 4) with 16.
    replace (48 + (bitval / 256) mod 16) with ((bitval / 256) mod 16 + 3 * 16) by lia.
    rewrite Z.div_add by lia. rewrite Z.div_small by lia. reflexivity. }
  assert (Hlow : Z.land (48 + (bitval / 256) mod 16) 15 = (bitval / 256) mod 16).
  { change 15 with (Z.ones 4). rewrite Z.land_ones by lia. change (2 ^ 4) with 16.
    replace (48 + (bitval / 256) mod 16) with ((bitval / 256) mod 16 + 3 * 16) by lia.
    rewrite Z.mod_add by lia. apply Z.mod_small. lia. }
  split; [ | split; [ | split; [ | split; [ | split; [ | split ] ] ] ] ].
  - rewrite sent_bytes_app. reflexivity.
  - symmetry. exact Hlor.
  - lia.
  - exact Hshift.
  - rewrite Hlow. symmetry. exact Hland.
  - intros i Hi.
    rewrite <- (Z.mod_pow2_bits_low (48 + (bitval / 256) mod 16) 4 i) by lia.
    change (2 ^ 4) with 16.
    replace (48 + (bitval / 256) mod 16) with ((bitval / 256) mod 16 + 3 * 16) by lia.
    rewrite Z.mod_add by lia. rewrite Z.mod_mod by lia.
    change 16 with (2 ^ 4). rewrite Z.mod_pow2_bits_low by lia.
    change 256 with (2 ^ 8). rewrite Z.div_pow2_bits by lia. reflexivity.
  - intros i Hi.
    rewrite <- Hshift. rewrite Z.shiftr_spec by lia.
    f_equal. lia.
Qed.

(** *** The moving average *)

(** What a sampling call does, in one equation. *)
Lemma poll_EMA_sample (self : R_Click F) (w : World) :
  due self w = true ->
  let obtained := wrap32 (wrap32 (micros_now w) - EMA_tick_ self) in
  let alpha := EMA_alpha obtained (EMA_LP_freq_ self) in
  let bitval := fst (read_bitval self w) in
  poll_EMA self w
  = (true,
     mkR_Click (SPI_clock_ self) (CS_pin_ self) (calib_ self)
       (EMA_interval_ self) (EMA_LP_freq_ self)
       (if EMA_at_startup_ self then Fof_int bitval
        else (EMA_bitval_ self + alpha * (Fof_int bitval - EMA_bitval_ self))%flt)
       false (wrap32 (micros_now w)) obtained,
     snd (read_bitval self w)).
Proof.
  unfold due. intros Hdue. cbv zeta.
  unfold poll_EMA, bind, micros, ret. rewrite Hdue.
  destruct self as [clk cs cal itv lp ema startup tick obt].
  destruct startup; cbn -[read_bitval wrap32 EMA_alpha];
    rewrite !read_bitval_run; reflexivity.
Qed.

Lemma R_do_startup (c : R_call F) (self : R_Click F) (w : World) :
  EMA_at_startup_ (snd (fst (R_do c self w)))
  = EMA_at_startup_ self && negb (is_sample (fst (fst (R_do c self w)))).
Proof.
  destruct c; cbn -[read_bitval poll_EMA bitval2mA];
    unfold bind, ret, read_mA, bind, ret;
    try rewrite !read_bitval_run; cbn -[poll_EMA bitval2mA reconstruct_bitval wrap8];
    try (symmetry; apply Bool.andb_true_r).
  destruct (due self w) eqn:Hdue.
  - rewrite (poll_EMA_sample self w Hdue). cbn [fst snd EMA_at_startup_ is_sample negb].
    symmetry. apply Bool.andb_false_r.
  - rewrite (poll_EMA_idle self w Hdue).
    cbn [fst snd is_sample negb]. symmetry. apply Bool.andb_true_r.
Qed.

Lemma R_run_cons (t : Z) (c : R_call F) (rest : list (Z * R_call F))
      (self : R_Click F) (w : World) :
  let w0 := snd (at_time t w) in
  let step := R_do c self w0 in
  let tail := R_run rest (snd (fst step)) (snd step) in
  R_run ((t, c) :: rest) self w
  = (fst (fst step) :: fst (fst tail), snd (fst tail), snd tail).
Proof.
  cbv zeta. cbn [R_run]. unfold bind at 1 2 3. cbn [at_time snd fst].
  unfold at_time.
  destruct (R_do c self _) as [[r self1] w1]. cbn [fst snd].
  destruct (R_run rest self1 w1) as [[rs self2] w2]. reflexivity.
Qed.

Lemma R_run_startup (calls : list (Z * R_call F)) :
  forall (self : R_Click F) (w : World),
    EMA_at_startup_ (snd (fst (R_run calls self w)))
    = EMA_at_startup_ self && negb (sampled (fst (fst (R_run calls self w)))).
Proof.
  induction calls as [ | [t c] rest IH ]; intros self w.
  - cbn. symmetry. apply Bool.andb_true_r.
  - rewrite R_run_cons. cbn [fst snd sampled existsb].
    rewrite IH, R_do_startup.
    fold (sampled (fst (fst (R_run rest
           (snd (fst (R_do c self (snd (at_time t w)))))
           (snd (R_do c self (snd (at_time t w)))))))).
    rewrite Bool.negb_orb. symmetry. apply Bool.andb_assoc.
Qed.

Lemma R_do_seeding_inv (c : R_call F) (self : R_Click F) (w : World) :
  seeding_inv self -> seeding_inv (snd (fst (R_do c self w))).
Proof.
  intros Hinv.
  destruct c; cbn -[read_bitval poll_EMA bitval2mA];
    unfold bind, ret, read_mA, bind, ret;
    try rewrite !read_bitval_run; cbn -[poll_EMA bitval2mA reconstruct_bitval wrap8];
    try exact Hinv.
  destruct (due self w) eqn:Hdue.
  - rewrite (poll_EMA_sample self w Hdue). cbn [fst snd].
    unfold seeding_inv. cbn [EMA_at_startup_]. discriminate.
  - rewrite (poll_EMA_idle self w Hdue). exact Hinv.
Qed.

Lemma R_run_seeding_inv (calls : list (Z * R_call F)) :
  forall (self : R_Click F) (w : World),
    seeding_inv self -> seeding_inv (snd (fst (R_run calls self w))).
Proof.
  induction calls as [ | [t c] rest IH ]; intros self w Hinv.
  - exact Hinv.
  - rewrite R_run_cons. cbn [fst snd].
    apply IH. apply R_do_seeding_inv. exact Hinv.
Qed.

Lemma constructors_seed (junk CS_pin : Z) (calib : RT_Click_Calibration F)
      (EMA_interval : Z) (EMA_LP_freq : F) (w : World) :
  let plain := fst (R_Click_new junk CS_pin calib w) in
  let filtering :=
    fst (R_Click_new_EMA junk CS_pin calib EMA_interval EMA_LP_freq w) in
  (EMA_at_startup_ plain = true /\ EMA_bitval_ plain = NAN)
  /\ (EMA_at_startup_ filtering = true /\ EMA_bitval_ filtering = NAN).
Proof. cbv zeta. repeat split. Qed.

(** No method changes the cut-off constant. *)
Lemma R_do_LP_freq (c : R_call F) (self : R_Click F) (w : World) :
  EMA_LP_freq_ (snd (fst (R_do c self w))) = EMA_LP_freq_ self.
Proof.
  destruct c; cbn -[read_bitval poll_EMA bitval2mA];
    unfold bind, ret, read_mA, bind, ret;
    try rewrite !read_bitval_run; cbn -[poll_EMA bitval2mA reconstruct_bitval wrap8];
    try reflexivity.
  destruct (due self w) eqn:Hdue.
  - rewrite (poll_EMA_sample self w Hdue). reflexivity.
  - rewrite (poll_EMA_idle self w Hdue). reflexivity.
Qed.

Lemma R_run_LP_freq (calls : list (Z * R_call F)) :
  forall (self : R_Click F) (w : World),
    EMA_LP_freq_ (snd (fst (R_run calls self w))) = EMA_LP_freq_ self.
Proof.
  induction calls as [ | [t c] rest IH ]; intros self w.
  - reflexivity.
  - rewrite R_run_cons. cbn [fst snd]. rewrite IH. apply R_do_LP_freq.
Qed.

End DriverFacts.

Lemma poll_EMA_not_yet_due_witness :
  wrap32 (wrap32 (micros_now (Demo.world 1999)) - EMA_tick_ Demo.receiver)
  < EMA_interval_ Demo.receiver
  /\ poll_EMA Demo.receiver (Demo.world 1999)
     = (false, Demo.receiver, Demo.world 1999).
Proof.
  split.
  - vm_compute. reflexivity.
  - apply poll_EMA_not_yet_due. vm_compute. reflexivity.
Defined.

(** ** Facts about single precision *)

Lemma all_from_spec (n : nat) (P : Z -> bool) :
  forall z0 : Z,
    all_from z0 n P = true ->
    forall z : Z, z0 <= z < z0 + Z.of_nat n -> P z = true.
Proof.
  induction n as [ | n IH ]; intros z0 Hall z Hz; [ lia | ].
  cbn [all_from] in Hall. apply Bool.andb_true_iff in Hall as [Hz0 Hrest].
  destruct (Z.eq_dec z z0) as [-> | Hne]; [ exact Hz0 | ].
  apply (IH (z0 + 1) Hrest). lia.
Qed.

Lemma R_CLICK_FAULT_mA_binary32 :
  R_CLICK_FAULT_mA (ops := binary32) = S754_finite false 15938355 (-22).
Proof. vm_compute. reflexivity. Qed.

Lemma SFcompare_antisym (x y : spec_float) (c : comparison) :
  SFcompare x y = Some c -> SFcompare y x = Some (CompOpp c).
Proof.
  destruct x as [ sx | sx | | sx mx ex ], y as [ sy | sy | | sy my ey ];
    cbn [SFcompare]; try discriminate; intros [= <-];
    repeat match goal with s : bool |- _ => destruct s end;
    try reflexivity; f_equal;
    rewrite (Z.compare_antisym ex ey);
    destruct (ex ?= ey); cbn [CompOpp]; try reflexivity;
    rewrite (Pos.compare_cont_antisym mx my Eq); reflexivity.
Qed.

Lemma SFcompare_not_nan (x y : spec_float) :
  B32.is_nan x = false -> B32.is_nan y = false ->
  exists c, SFcompare x y = Some c.
Proof.
  destruct x, y; cbn [B32.is_nan SFcompare]; try discriminate; intros _ _;
    eexists; reflexivity.
Qed.

(** For numbers and infinities, [x > y] is the negation of [x <= y]. *)
Lemma Fgt_is_not_leb (x y : spec_float) :
  B32.is_nan x = false -> B32.is_nan y = false ->
  (x >? y)%flt = negb (B32.leb x y).
Proof.
  intros Hx Hy. cbn [Fgt binary32]. unfold B32.ltb, B32.leb, SFltb, SFleb.
  destruct (SFcompare_not_nan x y Hx Hy) as [c Hc].
  rewrite (SFcompare_antisym x y c Hc), Hc.
  destruct c; reflexivity.
Qed.

Lemma Fgt_nan_l (y : spec_float) : (S754_nan >? y)%flt = false.
Proof. cbn [Fgt binary32]. unfold B32.ltb, SFltb. destruct y; reflexivity. Qed.

Lemma digits2_pos_bounds (m : positive) :
  2 ^ (Zpos (digits2_pos m) - 1) <= Zpos m < 2 ^ Zpos (digits2_pos m).
Proof.
  induction m as [ m IH | m IH | ]; cbn [digits2_pos].
  - rewrite Pos2Z.inj_succ, Z.pow_succ_r by lia.
    replace (Z.succ (Zpos (digits2_pos m)) - 1)
      with (Z.succ (Zpos (digits2_pos m) - 1)) by lia.
    rewrite Z.pow_succ_r by lia. lia.
  - rewrite Pos2Z.inj_succ, Z.pow_succ_r by lia.
    replace (Z.succ (Zpos (digits2_pos m)) - 1)
      with (Z.succ (Zpos (digits2_pos m) - 1)) by lia.
    rewrite Z.pow_succ_r by lia. lia.
  - cbn. lia.
Qed.

(** What well-formedness says about a finite value. *)
Lemma valid_finite (s : bool) (m : positive) (e : Z) :
  B32.valid (S754_finite s m e) = true ->
  Z.max (Zpos (digits2_pos m) + e - 24) (-149) = e /\ e <= 104.
Proof.
  unfold B32.valid, valid_binary, bounded, canonical_mantissa, fexp, emin,
    B32.prec, B32.emax.
  intros H. apply Bool.andb_true_iff in H as [Hc He].
  apply Z.eqb_eq in Hc. apply Z.leb_le in He.
  change (3 - 128 - 24) with (-149) in Hc. change (128 - 24) with 104 in He.
  split; assumption.
Qed.

(** ** Rounding in single precision

    What [SpecFloat]'s operations deliver on positive normal numbers, as
    long as the exact result stays in the normal range: a positive normal
    number within one unit in the last place of the exact result. *)

Section Rounding.

(** The number of binary digits is determined by the binade. *)
Lemma digits2_pos_unique (m : positive) (d : Z) :
  2 ^ (d - 1) <= Zpos m < 2 ^ d -> Zpos (digits2_pos m) = d.
Proof.
  intros [Hlow Hhigh].
  pose proof (digits2_pos_bounds m) as [Hl Hh].
  set (d' := Zpos (digits2_pos m)) in *.
  assert (Hd' : 0 < d') by (subst d'; lia).
  destruct (Z.lt_trichotomy d' d) as [Hlt | [Heq | Hgt]]; [ | exact Heq | ].
  - exfalso.
    assert (2 ^ d' <= 2 ^ (d - 1)) by (apply Z.pow_le_mono_r; lia). lia.
  - exfalso.
    destruct (Z.le_gt_cases 0 d) as [Hd | Hd].
    + assert (2 ^ d <= 2 ^ (d' - 1)) by (apply Z.pow_le_mono_r; lia). lia.
    + rewrite (Z.pow_neg_r 2 d) in Hhigh by lia. lia.
Qed.

Lemma shr_1_m (mrs : shr_record) :
  0 <= shr_m mrs -> shr_m (shr_1 mrs) = shr_m mrs / 2.
Proof.
  destruct mrs as [m r s]. cbn [shr_m]. intros Hm.
  destruct m as [ | p | p ]; [ reflexivity | | lia ].
  destruct p as [ p | p | ]; cbn [shr_1 shr_m].
  - rewrite Pos2Z.inj_xI. apply Z.div_unique with (r := 1); lia.
  - rewrite Pos2Z.inj_xO. apply Z.div_unique with (r := 0); lia.
  - reflexivity.
Qed.

Lemma pow2_pos (n : Z) : 0 <= n -> 0 < 2 ^ n.
Proof. intros Hn. apply Z.pow_pos_nonneg; lia. Qed.

Ltac pow2_side :=
  solve [ lia
        | apply pow2_pos; lia
        | apply Z.pow_nonzero; lia
        | apply Z.lt_le_incl, pow2_pos; lia ].

Lemma pow2_xO (n : positive) : 2 ^ Zpos n~0 = 2 ^ Zpos n * 2 ^ Zpos n.
Proof. rewrite <- Z.pow_add_r by lia. f_equal. lia. Qed.

Lemma pow2_xI (n : positive) : 2 ^ Zpos n~1 = 2 * (2 ^ Zpos n * 2 ^ Zpos n).
Proof.
  rewrite <- Z.pow_add_r by lia. rewrite <- Z.pow_succ_r by lia. f_equal. lia.
Qed.

Lemma iter_pos_shr_1_m (n : positive) :
  forall mrs : shr_record,
    0 <= shr_m mrs ->
    shr_m (SpecFloat.iter_pos shr_1 n mrs) = shr_m mrs / 2 ^ Zpos n.
Proof.
  induction n as [ n IH | n IH | ]; intros mrs Hm; cbn [SpecFloat.iter_pos].
  - assert (H1 : 0 <= shr_m (shr_1 mrs))
      by (rewrite shr_1_m by exact Hm; apply Z.div_pos; lia).
    assert (H2 : 0 <= shr_m (SpecFloat.iter_pos shr_1 n (shr_1 mrs)))
      by (rewrite IH by exact H1; apply Z.div_pos; [ exact H1 | apply Z.pow_pos_nonneg; lia ]).
    rewrite IH by exact H2. rewrite IH by exact H1. rewrite shr_1_m by exact Hm.
    rewrite !Z.div_div by pow2_side.
    f_equal. symmetry. apply pow2_xI.
  - assert (H2 : 0 <= shr_m (SpecFloat.iter_pos shr_1 n mrs))
      by (rewrite IH by exact Hm; apply Z.div_pos; [ exact Hm | apply Z.pow_pos_nonneg; lia ]).
    rewrite IH by exact H2. rewrite IH by exact Hm.
    rewrite Z.div_div by pow2_side.
    f_equal. symmetry. apply pow2_xO.
  - rewrite shr_1_m by exact Hm. reflexivity.
Qed.

Lemma shr_m_of_loc (m : Z) (l : location) : shr_m (shr_record_of_loc m l) = m.
Proof. destruct l as [ | [ | | ] ]; reflexivity. Qed.

Lemma round_nearest_even_cases (m : Z) (l : location) :
  round_nearest_even m l = m \/ round_nearest_even m l = m + 1.
Proof.
  destruct l as [ | [ | | ] ]; cbn [round_nearest_even]; auto.
  destruct (Z.even m); auto.
Qed.

(** The first truncation of [binary_round_aux] in the normal range: the
    mantissa loses its [d - 24] low digits. *)
Lemma shr_fexp_normal (m : positive) (e : Z) (l : location) :
  let d := Zpos (digits2_pos m) in
  24 <= d -> -149 <= d + e - 24 ->
  exists mrs : shr_record,
    shr_fexp 24 128 (Zpos m) e l = (mrs, d + e - 24)
    /\ shr_m mrs = Zpos m / 2 ^ (d - 24).
Proof.
  intros d Hd Hrange.
  unfold shr_fexp, fexp, emin. cbn [Zdigits2]. fold d.
  change (3 - 128 - 24) with (-149).
  rewrite Z.max_l by lia.
  replace (d + e - 24 - e) with (d - 24) by lia.
  destruct (d - 24) as [ | p | p ] eqn:Hk; [ | | lia ].
  - exists (shr_record_of_loc (Zpos m) l). cbn [shr].
    split; [ f_equal; lia | ].
    rewrite shr_m_of_loc. cbn. rewrite Z.div_1_r. reflexivity.
  - exists (SpecFloat.iter_pos shr_1 p (shr_record_of_loc (Zpos m) l)).
    cbn [shr]. split; [ f_equal; lia | ].
    rewrite iter_pos_shr_1_m by (rewrite shr_m_of_loc; lia).
    rewrite shr_m_of_loc. reflexivity.
Qed.

Lemma truncated_mantissa_range (m : positive) :
  let d := Zpos (digits2_pos m) in
  24 <= d ->
  2 ^ 23 <= Zpos m / 2 ^ (d - 24) < 2 ^ 24.
Proof.
  intros d Hd.
  pose proof (digits2_pos_bounds m) as [Hlow Hhigh]. fold d in Hlow, Hhigh.
  assert (Hk : 0 < 2 ^ (d - 24)) by pow2_side.
  split.
  - apply Z.div_le_lower_bound; [ exact Hk | ].
    rewrite <- Z.pow_add_r by lia.
    replace (d - 24 + 23) with (d - 1) by lia. exact Hlow.
  - apply Z.div_lt_upper_bound; [ exact Hk | ].
    rewrite <- Z.pow_add_r by lia.
    replace (d - 24 + 24) with d by lia. exact Hhigh.
Qed.

(** [binary_round_aux] in the normal range and without overflow: the result
    is a normal number whose mantissa is the truncated one or its
    successor. *)
Lemma binary_round_aux_normal (sx : bool) (mx : positive) (ex : Z) (lx : location) :
  let d := Zpos (digits2_pos mx) in
  let q := Zpos mx / 2 ^ (d - 24) in
  24 <= d -> -149 <= d + ex - 24 <= 103 ->
  exists (m : positive) (e j : Z),
    binary_round_aux 24 128 sx (Zpos mx) ex lx = S754_finite sx m e
    /\ 2 ^ 23 <= Zpos m < 2 ^ 24
    /\ 0 <= j <= 1
    /\ e = d + ex - 24 + j
    /\ (Zpos m * 2 ^ j = q \/ Zpos m * 2 ^ j = q + 1).
Proof.
  intros d q Hd Hrange.
  unfold binary_round_aux.
  destruct (shr_fexp_normal mx ex lx Hd ltac:(lia)) as (mrs & Hshr & Hm).
  fold d in Hshr, Hm. fold q in Hm. rewrite Hshr.
  pose proof (truncated_mantissa_range mx Hd) as Hq. fold d in Hq. fold q in Hq.
  change (2 ^ 23) with 8388608 in *. change (2 ^ 24) with 16777216 in *.
  rewrite Hm.
  set (m1 := round_nearest_even q (loc_of_shr_record mrs)).
  assert (Hm1 : m1 = q \/ m1 = q + 1) by apply round_nearest_even_cases.
  destruct (Z.eq_dec m1 16777216) as [Hcarry | Hfit].
  - (* the successor has one digit more *)
    rewrite Hcarry.
    exists 8388608%positive, (d + ex - 24 + 1), 1.
    split; [ | split; [ lia | split; [ lia | split; [ reflexivity | ] ] ] ].
    + unfold shr_fexp, fexp, emin. cbn [Zdigits2 digits2_pos Pos.succ].
      change (3 - 128 - 24) with (-149).
      rewrite Z.max_l by lia.
      replace (25 + (d + ex - 24) - 24 - (d + ex - 24)) with 1 by lia.
      cbn [shr shr_record_of_loc SpecFloat.iter_pos shr_1 shr_m].
      replace (d + ex - 24 + 1 <=? 128 - 24) with true
        by (symmetry; apply Z.leb_le; lia).
      reflexivity.
    + right. change (2 ^ 1) with 2. lia.
  - destruct m1 as [ | p1 | p1 ] eqn:Hp1; [ lia | | lia ].
    assert (Hdigits : Zpos (digits2_pos p1) = 24).
    { apply digits2_pos_unique.
      change (2 ^ (24 - 1)) with 8388608. change (2 ^ 24) with 16777216. lia. }
    exists p1, (d + ex - 24), 0.
    split; [ | split; [ lia | split; [ lia | split; [ lia | ] ] ] ].
    + unfold shr_fexp, fexp, emin. cbn [Zdigits2]. rewrite Hdigits.
      change (3 - 128 - 24) with (-149).
      rewrite Z.max_l by lia.
      replace (24 + (d + ex - 24) - 24 - (d + ex - 24)) with 0 by lia.
      cbn [shr shr_record_of_loc shr_m].
      replace (d + ex - 24 <=? 128 - 24) with true
        by (symmetry; apply Z.leb_le; lia).
      reflexivity.
    + change (2 ^ 0) with 1. lia.
Qed.

(** *** Values *)

Local Open Scope R_scope.

Lemma pow2_gt_0 (e : Z) : 0 < B32.pow2 e.
Proof. unfold B32.pow2. apply powerRZ_lt. lra. Qed.

Lemma pow2_add (a b : Z) : B32.pow2 (a + b) = B32.pow2 a * B32.pow2 b.
Proof. unfold B32.pow2. apply powerRZ_add. lra. Qed.

Lemma pow2_IZR (n : Z) : (0 <= n)%Z -> B32.pow2 n = IZR (2 ^ n).
Proof.
  intros Hn. unfold B32.pow2.
  destruct n as [ | p | p ]; [ reflexivity | | lia ].
  symmetry. apply (Zpower_pos_powerRZ 2 p).
Qed.

Lemma pow2_ge_1 (n : Z) : (0 <= n)%Z -> 1 <= B32.pow2 n.
Proof.
  intros Hn. rewrite pow2_IZR by exact Hn.
  apply IZR_le. assert (0 < 2 ^ n)%Z by (apply Z.pow_pos_nonneg; lia). lia.
Qed.

Lemma pow2_le_mono (a b : Z) : (a <= b)%Z -> B32.pow2 a <= B32.pow2 b.
Proof.
  intros Hab. replace b with (a + (b - a))%Z by lia.
  rewrite pow2_add.
  pose proof (pow2_gt_0 a). pose proof (pow2_ge_1 (b - a) ltac:(lia)).
  nra.
Qed.

Lemma pow2_lt_inv (a b : Z) : B32.pow2 a < B32.pow2 b -> (a < b)%Z.
Proof.
  intros Hlt. destruct (Z.lt_ge_cases a b) as [H | H]; [ exact H | ].
  pose proof (pow2_le_mono b a H). lra.
Qed.

(** [binary_round_aux] on a positive value [v] of the normal range that the
    mantissa [mx] and the exponent [ex] bracket. *)
Lemma binary_round_aux_value (mx : positive) (ex : Z) (lx : location) (v : R) :
  (24 <= Zpos (digits2_pos mx))%Z ->
  IZR (Zpos mx) * B32.pow2 ex <= v < (IZR (Zpos mx) + 1) * B32.pow2 ex ->
  B32.pow2 (-125) <= v < B32.pow2 127 ->
  B32.approx (binary_round_aux 24 128 false (Zpos mx) ex lx) v.
Proof.
  intros Hd [Hlow Hhigh] [Hmin Hmax].
  pose proof (digits2_pos_bounds mx) as [Hdl Hdh].
  set (d := Zpos (digits2_pos mx)) in *.
  assert (Hpl : B32.pow2 (d - 1 + ex) <= v).
  { rewrite pow2_add. rewrite (pow2_IZR (d - 1)) by lia.
    apply IZR_le in Hdl. pose proof (pow2_gt_0 ex). nra. }
  assert (Hph : v < B32.pow2 (d + ex)).
  { rewrite pow2_add. rewrite (pow2_IZR d) by lia.
    assert (IZR (Zpos mx) + 1 <= IZR (2 ^ d)).
    { rewrite <- plus_IZR. apply IZR_le. lia. }
    pose proof (pow2_gt_0 ex). nra. }
  assert (Hrange : (-149 <= d + ex - 24 <= 103)%Z).
  { assert (-125 < d + ex)%Z by (apply pow2_lt_inv; lra).
    assert (d - 1 + ex < 127)%Z by (apply pow2_lt_inv; lra).
    lia. }
  destruct (binary_round_aux_normal false mx ex lx Hd Hrange)
    as (m & e & j & Hres & Hm & Hj & He & Hq).
  fold d in He, Hq.
  set (q := (Zpos mx / 2 ^ (d - 24))%Z) in *.
  set (P := B32.pow2 (d + ex - 24)).
  assert (HP : 0 < P) by apply pow2_gt_0.
  (* the truncated mantissa brackets the value *)
  assert (Hk : (0 < 2 ^ (d - 24))%Z) by (apply Z.pow_pos_nonneg; lia).
  assert (Hdiv : (q * 2 ^ (d - 24) <= Zpos mx < (q + 1) * 2 ^ (d - 24))%Z).
  { pose proof (Z.div_mod (Zpos mx) (2 ^ (d - 24)) ltac:(lia)) as Hdm.
    pose proof (Z.mod_pos_bound (Zpos mx) (2 ^ (d - 24)) Hk) as Hmod.
    fold q in Hdm. lia. }
  assert (Hex : B32.pow2 ex * IZR (2 ^ (d - 24)) = P).
  { unfold P. rewrite <- pow2_IZR by lia. rewrite <- pow2_add.
    f_equal. lia. }
  assert (Hq23 : (2 ^ 23 <= q)%Z).
  { pose proof (truncated_mantissa_range mx Hd) as Hq'. fold d in Hq'.
    fold q in Hq'. lia. }
  assert (Hvl : IZR q * P <= v).
  { rewrite <- Hex. destruct Hdiv as [Hdiv _]. apply IZR_le in Hdiv.
    rewrite mult_IZR in Hdiv. pose proof (pow2_gt_0 ex).
    apply Rle_trans with (r2 := IZR (Zpos mx) * B32.pow2 ex); [ | exact Hlow ].
    replace (IZR q * (B32.pow2 ex * IZR (2 ^ (d - 24))))
      with (IZR q * IZR (2 ^ (d - 24)) * B32.pow2 ex) by ring.
    apply Rmult_le_compat_r; lra. }
  assert (Hvh : v < (IZR q + 1) * P).
  { rewrite <- Hex. destruct Hdiv as [_ Hdiv].
    assert (Hle : IZR (Zpos mx) + 1 <= (IZR q + 1) * IZR (2 ^ (d - 24))).
    { rewrite <- !plus_IZR, <- mult_IZR. apply IZR_le. lia. }
    pose proof (pow2_gt_0 ex).
    apply Rlt_le_trans with (r2 := (IZR (Zpos mx) + 1) * B32.pow2 ex);
      [ exact Hhigh | ].
    replace ((IZR q + 1) * (B32.pow2 ex * IZR (2 ^ (d - 24))))
      with ((IZR q + 1) * IZR (2 ^ (d - 24)) * B32.pow2 ex) by ring.
    apply Rmult_le_compat_r; lra. }
  assert (Hval : IZR (Zpos m) * B32.pow2 e = IZR (Zpos m * 2 ^ j) * P).
  { rewrite He, pow2_add, mult_IZR. unfold P.
    rewrite (pow2_IZR j) by lia. rewrite (Rmult_comm (B32.pow2 _)). ring. }
  split.
  - exists m, e. split; [ exact Hres | split; [ exact Hm | lia ] ].
  - rewrite Hres. cbn [B32.val cond_Zopp]. rewrite Hval.
    assert (HPv : P <= B32.ulp_rel * v).
    { unfold B32.ulp_rel. apply IZR_le in Hq23.
      change (2 ^ 23)%Z with 8388608%Z in Hq23.
      assert (8388608 * P <= IZR q * P)
        by (apply Rmult_le_compat_r; lra).
      lra. }
    apply Rle_trans with (r2 := P); [ | exact HPv ].
    apply Rabs_le.
    destruct Hq as [Hq | Hq]; rewrite Hq; [ | rewrite plus_IZR ]; lra.
Qed.

Local Open Scope Z_scope.

Lemma iter_xO_value (m k : positive) :
  Zpos (Pos.iter xO m k) = Zpos m * 2 ^ Zpos k.
Proof.
  induction k as [ | k IH ] using Pos.peano_ind.
  - cbn [Pos.iter]. rewrite Pos2Z.inj_xO. change (2 ^ 1) with 2. lia.
  - rewrite Pos.iter_succ, Pos2Z.inj_xO, IH, Pos2Z.inj_succ.
    rewrite Z.pow_succ_r by lia. lia.
Qed.

Lemma pnormal_digits (m : positive) :
  2 ^ 23 <= Zpos m < 2 ^ 24 -> Zpos (digits2_pos m) = 24.
Proof. intros H. apply digits2_pos_unique. exact H. Qed.

Lemma digits_ge_24 (m : positive) : 2 ^ 23 <= Zpos m -> 24 <= Zpos (digits2_pos m).
Proof.
  intros Hm. pose proof (digits2_pos_bounds m) as [_ Hh].
  destruct (Z.le_gt_cases 24 (Zpos (digits2_pos m))) as [H | H]; [ exact H | ].
  assert (2 ^ Zpos (digits2_pos m) <= 2 ^ 23) by (apply Z.pow_le_mono_r; lia).
  lia.
Qed.

Local Open Scope R_scope.

(** [binary_round] of a positive value of the normal range. *)
Lemma binary_round_value (m : positive) (e : Z) (v : R) :
  v = IZR (Zpos m) * B32.pow2 e ->
  B32.pow2 (-125) <= v < B32.pow2 127 ->
  B32.approx (binary_round 24 128 false m e) v.
Proof.
  intros Hv [Hmin Hmax].
  pose proof (digits2_pos_bounds m) as [Hdl Hdh].
  set (d := Zpos (digits2_pos m)) in *.
  assert (Hd0 : (0 < d)%Z) by (subst d; lia).
  assert (Hph : v < B32.pow2 (d + e)).
  { rewrite Hv, pow2_add, (pow2_IZR d) by lia.
    apply IZR_lt in Hdh. pose proof (pow2_gt_0 e).
    apply Rmult_lt_compat_r; assumption. }
  assert (Hlow : (-149 <= d + e - 24)%Z).
  { assert (-125 < d + e)%Z by (apply pow2_lt_inv; lra). lia. }
  unfold binary_round, fexp, emin. fold d.
  change (3 - 128 - 24)%Z with (-149)%Z.
  rewrite Z.max_l by lia.
  unfold shl_align.
  replace (d + e - 24 - e)%Z with (d - 24)%Z by lia.
  destruct (d - 24)%Z as [ | k | k ] eqn:Hk.
  - apply binary_round_aux_value; [ fold d; lia | | split; assumption ].
    rewrite <- Hv. pose proof (pow2_gt_0 e). lra.
  - apply binary_round_aux_value; [ fold d; lia | | split; assumption ].
    rewrite <- Hv. pose proof (pow2_gt_0 e). lra.
  - (* fewer than 24 digits: the mantissa is shifted to the left *)
    assert (Hshift : Zpos (Pos.iter xO m k) = (Zpos m * 2 ^ Zpos k)%Z)
      by apply iter_xO_value.
    assert (Hkd : (Zpos k = 24 - d)%Z) by lia.
    assert (Hnorm : (2 ^ 23 <= Zpos (Pos.iter xO m k) < 2 ^ 24)%Z).
    { assert (H23 : (2 ^ 23 = 2 ^ (d - 1) * 2 ^ (24 - d))%Z)
        by (rewrite <- Z.pow_add_r by lia; f_equal; lia).
      assert (H24 : (2 ^ 24 = 2 ^ d * 2 ^ (24 - d))%Z)
        by (rewrite <- Z.pow_add_r by lia; f_equal; lia).
      assert (0 < 2 ^ (24 - d))%Z by (apply Z.pow_pos_nonneg; lia).
      rewrite Hshift, Hkd. split.
      - rewrite H23. apply Z.mul_le_mono_nonneg_r; lia.
      - rewrite H24. apply Z.mul_lt_mono_pos_r; lia. }
    assert (Hsame : IZR (Zpos (Pos.iter xO m k)) * B32.pow2 (d + e - 24) = v).
    { rewrite Hv, Hshift, mult_IZR, <- (pow2_IZR (Zpos k)) by lia.
      rewrite Rmult_assoc, <- pow2_add. do 2 f_equal. lia. }
    apply binary_round_aux_value; [ | | split; assumption ].
    + rewrite (pnormal_digits _ Hnorm). lia.
    + rewrite Hsame. pose proof (pow2_gt_0 (d + e - 24)). lra.
Qed.

(** *** Multiplication *)

Lemma mul_approx (x y : spec_float) :
  B32.pnormal x -> B32.pnormal y ->
  B32.pow2 (-125) <= B32.val x * B32.val y < B32.pow2 127 ->
  B32.approx (SFmul 24 128 x y) (B32.val x * B32.val y).
Proof.
  intros (mx & ex & -> & Hmx & Hex) (my & ey & -> & Hmy & Hey) Hrange.
  cbn [SFmul xorb B32.val cond_Zopp] in *.
  apply binary_round_aux_value; [ | | exact Hrange ].
  - apply digits_ge_24. rewrite Pos2Z.inj_mul.
    change (2 ^ 23)%Z with 8388608%Z in *. nia.
  - rewrite Pos2Z.inj_mul, mult_IZR, pow2_add.
    pose proof (pow2_gt_0 ex). pose proof (pow2_gt_0 ey).
    assert (0 < B32.pow2 ex * B32.pow2 ey) by (apply Rmult_lt_0_compat; assumption).
    split; [ right; ring | ].
    replace (IZR (Zpos mx) * B32.pow2 ex * (IZR (Zpos my) * B32.pow2 ey))
      with (IZR (Zpos mx) * IZR (Zpos my) * (B32.pow2 ex * B32.pow2 ey)) by ring.
    nra.
Qed.

(** *** Addition and subtraction *)

Lemma shl_align_fst (m : positive) (e e' : Z) :
  (e' <= e)%Z -> Zpos (fst (shl_align m e e')) = (Zpos m * 2 ^ (e - e'))%Z.
Proof.
  intros Hle. unfold shl_align.
  destruct (e' - e)%Z as [ | k | k ] eqn:Hk; cbn [fst].
  - replace (e - e')%Z with 0%Z by lia. cbn. lia.
  - lia.
  - rewrite iter_xO_value. do 2 f_equal. lia.
Qed.

Lemma aligned_value (m : positive) (e ez : Z) :
  (ez <= e)%Z ->
  IZR (Zpos (fst (shl_align m e ez))) * B32.pow2 ez = IZR (Zpos m) * B32.pow2 e.
Proof.
  intros Hle. rewrite shl_align_fst by exact Hle.
  rewrite mult_IZR, <- pow2_IZR by lia.
  rewrite Rmult_assoc, <- pow2_add. do 2 f_equal. lia.
Qed.

Lemma pnormal_val_lower (m : positive) (e : Z) :
  (2 ^ 23 <= Zpos m)%Z -> (-149 <= e)%Z ->
  B32.pow2 (-126) <= IZR (Zpos m) * B32.pow2 e.
Proof.
  intros Hm He.
  replace (-126)%Z with (23 + -149)%Z by lia.
  rewrite pow2_add, (pow2_IZR 23) by lia.
  apply IZR_le in Hm.
  pose proof (pow2_le_mono (-149) e He).
  pose proof (pow2_gt_0 (-149)).
  apply Rmult_le_compat; lra.
Qed.

Lemma pow2_double (e : Z) : B32.pow2 (e + 1) = 2 * B32.pow2 e.
Proof. rewrite pow2_add. change (B32.pow2 1) with (2 * 1). ring. Qed.

Lemma add_approx (x y : spec_float) :
  B32.pnormal x -> B32.pnormal y ->
  B32.val x + B32.val y < B32.pow2 127 ->
  B32.approx (SFadd 24 128 x y) (B32.val x + B32.val y).
Proof.
  intros (mx & ex & -> & Hmx & Hex) (my & ey & -> & Hmy & Hey) Hmax.
  cbn [SFadd B32.val cond_Zopp] in *.
  set (ez := Z.min ex ey).
  rewrite <- Pos2Z.inj_add. cbn [binary_normalize].
  apply binary_round_value.
  - rewrite Pos2Z.inj_add, plus_IZR, Rmult_plus_distr_r.
    rewrite !aligned_value by (subst ez; lia). reflexivity.
  - split; [ | exact Hmax ].
    pose proof (pnormal_val_lower mx ex ltac:(lia) ltac:(lia)).
    pose proof (pnormal_val_lower my ey ltac:(lia) ltac:(lia)).
    replace (-125)%Z with (-126 + 1)%Z by lia. rewrite pow2_double. lra.
Qed.

Lemma sub_approx (x y : spec_float) :
  B32.pnormal x -> B32.pnormal y ->
  B32.pow2 (-125) <= B32.val x - B32.val y < B32.pow2 127 ->
  B32.approx (SFsub 24 128 x y) (B32.val x - B32.val y).
Proof.
  intros (mx & ex & -> & Hmx & Hex) (my & ey & -> & Hmy & Hey) Hrange.
  cbn [SFsub B32.val cond_Zopp] in *.
  set (ez := Z.min ex ey).
  set (a := fst (shl_align mx ex ez)).
  set (b := fst (shl_align my ey ez)).
  assert (Hv : IZR (Zpos a - Zpos b) * B32.pow2 ez
               = IZR (Zpos mx) * B32.pow2 ex - IZR (Zpos my) * B32.pow2 ey).
  { rewrite minus_IZR, Rmult_minus_distr_r. unfold a, b.
    rewrite !aligned_value by (subst ez; lia). reflexivity. }
  assert (Hpos : (0 < Zpos a - Zpos b)%Z).
  { apply lt_IZR. pose proof (pow2_gt_0 ez). pose proof (pow2_gt_0 (-125)).
    destruct (Rlt_le_dec 0 (IZR (Zpos a - Zpos b))) as [H1 | H1];
      [ exact H1 | exfalso ].
    assert (IZR (Zpos a - Zpos b) * B32.pow2 ez <= 0) by nra. lra. }
  destruct (Zpos a - Zpos b)%Z as [ | p | p ] eqn:Hp; [ lia | | lia ].
  cbn [binary_normalize].
  apply binary_round_value; [ symmetry; exact Hv | exact Hrange ].
Qed.

(** *** Division *)

Lemma div_approx (x y : spec_float) :
  B32.pnormal x -> B32.pnormal y ->
  B32.pow2 (-124) <= B32.val x / B32.val y < B32.pow2 127 ->
  B32.approx (SFdiv 24 128 x y) (B32.val x / B32.val y).
Proof.
  intros (mx & ex & -> & Hmx & Hex) (my & ey & -> & Hmy & Hey) [Hmin Hmax].
  cbn [SFdiv B32.val cond_Zopp xorb] in *.
  pose proof (pow2_gt_0 ex) as Hpex. pose proof (pow2_gt_0 ey) as Hpey.
  assert (Hmx' : 8388608 <= IZR (Zpos mx) < 16777216).
  { change (2 ^ 23)%Z with 8388608%Z in Hmx.
    change (2 ^ 24)%Z with 16777216%Z in Hmx.
    split; [ apply IZR_le | apply IZR_lt ]; lia. }
  assert (Hmy' : 8388608 <= IZR (Zpos my) < 16777216).
  { change (2 ^ 23)%Z with 8388608%Z in Hmy.
    change (2 ^ 24)%Z with 16777216%Z in Hmy.
    split; [ apply IZR_le | apply IZR_lt ]; lia. }
  (* the value as a quotient of mantissas *)
  set (e' := (ex - ey - 24)%Z).
  assert (Hpe : B32.pow2 ex = B32.pow2 e' * 16777216 * B32.pow2 ey).
  { replace ex with (e' + 24 + ey)%Z at 1 by (subst e'; lia).
    rewrite !pow2_add, (pow2_IZR 24) by lia. reflexivity. }
  set (v := IZR (Zpos mx) * B32.pow2 ex / (IZR (Zpos my) * B32.pow2 ey)) in *.
  assert (Hv : v = IZR (Zpos mx) * 16777216 / IZR (Zpos my) * B32.pow2 e').
  { unfold v. rewrite Hpe. field. lra. }
  pose proof (pow2_gt_0 e') as Hpe'.
  assert (Hratio : IZR (Zpos mx) * 16777216 / IZR (Zpos my) < 33554432).
  { apply Rmult_lt_reg_r with (r := IZR (Zpos my)); [ lra | ].
    unfold Rdiv. rewrite Rmult_assoc, Rinv_l by lra. lra. }
  assert (He' : (-149 <= e')%Z).
  { assert (Hlt : B32.pow2 (-124) < B32.pow2 (25 + e')).
    { rewrite pow2_add, (pow2_IZR 25) by lia.
      change (2 ^ 25)%Z with 33554432%Z.
      apply Rle_lt_trans with (r2 := v); [ exact Hmin | ].
      rewrite Hv. apply Rmult_lt_compat_r; assumption. }
    apply pow2_lt_inv in Hlt. lia. }
  unfold SFdiv_core_binary, fexp, emin. cbn [Zdigits2].
  rewrite (pnormal_digits mx Hmx), (pnormal_digits my Hmy).
  change (3 - 128 - 24)%Z with (-149)%Z.
  replace (24 + ex - (24 + ey) - 24)%Z with e' by (subst e'; lia).
  rewrite Z.max_l by lia.
  rewrite Z.min_l by (subst e'; lia).
  replace (ex - ey - e')%Z with 24%Z by (subst e'; lia).
  rewrite Z.shiftl_mul_pow2 by lia.
  change (2 ^ 24)%Z with 16777216%Z.
  pose proof (Z_div_mod (Zpos mx * 16777216) (Zpos my) ltac:(lia)) as Hdm.
  destruct (Z.div_eucl (Zpos mx * 16777216) (Zpos my)) as [q r].
  destruct Hdm as [Hdm Hr].
  assert (Hq : (2 ^ 23 <= q)%Z).
  { change (2 ^ 23)%Z with 8388608%Z in *.
    change (2 ^ 24)%Z with 16777216%Z in *. nia. }
  destruct q as [ | q | q ]; [ lia | | lia ].
  apply binary_round_aux_value; [ apply digits_ge_24; exact Hq | | ].
  - fold v. rewrite Hv.
    assert (Hreal : IZR (Zpos mx) * 16777216
                    = IZR (Zpos my) * IZR (Zpos q) + IZR r).
    { replace (IZR (Zpos mx) * 16777216) with (IZR (Zpos mx * 16777216))
        by (rewrite mult_IZR; reflexivity).
      rewrite Hdm, plus_IZR, mult_IZR. reflexivity. }
    assert (Hr' : 0 <= IZR r < IZR (Zpos my)).
    { split; [ apply IZR_le | apply IZR_lt ]; lia. }
    assert (Hquot : IZR (Zpos q) <= IZR (Zpos mx) * 16777216 / IZR (Zpos my)
                    < IZR (Zpos q) + 1).
    { rewrite Hreal. split.
      - apply Rmult_le_reg_r with (r := IZR (Zpos my)); [ lra | ].
        unfold Rdiv. rewrite Rmult_assoc, Rinv_l by lra. lra.
      - apply Rmult_lt_reg_r with (r := IZR (Zpos my)); [ lra | ].
        unfold Rdiv. rewrite Rmult_assoc, Rinv_l by lra. lra. }
    split.
    + apply Rmult_le_compat_r; lra.
    + apply Rmult_lt_compat_r; lra.
  - fold v. split; [ | exact Hmax ].
    apply Rle_trans with (r2 := B32.pow2 (-124)); [ | exact Hmin ].
    apply pow2_le_mono. lia.
Qed.

(** *** Conversions *)

Lemma of_int_normal_uint16 (z : Z) :
  (1 <= z <= 65535)%Z -> B32.of_int_normal z = true.
Proof.
  intros Hz.
  apply (all_from_spec (Z.to_nat 65535) B32.of_int_normal 1); [ | lia ].
  vm_compute. reflexivity.
Qed.

Lemma of_int_value (z : Z) :
  (1 <= z <= 65535)%Z ->
  B32.pnormal (B32.of_int z) /\ B32.val (B32.of_int z) = IZR z.
Proof.
  intros Hz. pose proof (of_int_normal_uint16 z Hz) as Hgood.
  unfold B32.of_int_normal in Hgood.
  destruct (B32.of_int z) as [ | | | s m e ]; try discriminate.
  destruct s; [ discriminate | ].
  repeat (apply Bool.andb_true_iff in Hgood as [Hgood ?]).
  apply Z.leb_le in Hgood.
  repeat match goal with
         | H : (_ <=? _)%Z = true |- _ => apply Z.leb_le in H
         | H : (_ <? _)%Z = true |- _ => apply Z.ltb_lt in H
         | H : (_ =? _)%Z = true |- _ => apply Z.eqb_eq in H
         end.
  split.
  - exists m, e. split; [ reflexivity | split; lia ].
  - cbn [B32.val cond_Zopp].
    match goal with H : Zpos m = _ |- _ => rewrite H end.
    rewrite mult_IZR, <- pow2_IZR by lia.
    rewrite Rmult_assoc, <- pow2_add.
    replace (- e + e)%Z with 0%Z by lia. change (B32.pow2 0) with 1. ring.
Qed.

(** [round] of a positive number that is less than one half away from the
    integer [n]. *)
Lemma round_near (x : spec_float) (n : Z) :
  B32.pnormal x -> Rabs (B32.val x - IZR n) < / 2 -> B32.round x = n.
Proof.
  intros (m & e & -> & Hm & He) Hnear.
  cbn [B32.round B32.val cond_Zopp] in *.
  apply Rabs_def2 in Hnear as [Hhigh Hlow].
  unfold B32.round_half_away.
  destruct e as [ | p | p ].
  - change (B32.pow2 0) with 1 in *.
    assert (Hlt : IZR (Zpos m - n) < 1) by (rewrite minus_IZR; lra).
    assert (Hgt : IZR (-1) < IZR (Zpos m - n)) by (rewrite minus_IZR; lra).
    apply lt_IZR in Hlt, Hgt. lia.
  - rewrite (pow2_IZR (Zpos p)) in * by lia.
    rewrite <- mult_IZR in *.
    assert (Hlt : IZR (Zpos m * 2 ^ Zpos p - n) < 1) by (rewrite minus_IZR; lra).
    assert (Hgt : IZR (-1) < IZR (Zpos m * 2 ^ Zpos p - n))
      by (rewrite minus_IZR; lra).
    apply lt_IZR in Hlt, Hgt. lia.
  - set (D := (2 ^ Zpos p)%Z).
    assert (HD : (0 < D)%Z) by (apply Z.pow_pos_nonneg; lia).
    assert (Hscale : B32.pow2 (Zneg p) * IZR D = 1).
    { unfold D. rewrite <- pow2_IZR by lia. rewrite <- pow2_add.
      replace (Zneg p + Zpos p)%Z with 0%Z by lia. reflexivity. }
    assert (HDr : 0 < IZR D) by (apply IZR_lt; exact HD).
    assert (Hm_eq : IZR (Zpos m) = IZR (Zpos m) * B32.pow2 (Zneg p) * IZR D).
    { rewrite Rmult_assoc, Hscale. ring. }
    (* 2 n D - D < 2 m < 2 n D + D *)
    assert (H1 : IZR (2 * n * D - D) < IZR (2 * Zpos m)).
    { rewrite minus_IZR, !mult_IZR. rewrite Hm_eq. nra. }
    assert (H2 : IZR (2 * Zpos m) < IZR (2 * n * D + D)).
    { rewrite plus_IZR, !mult_IZR. rewrite Hm_eq. nra. }
    apply lt_IZR in H1, H2.
    symmetry. apply Z.div_unique with (r := (2 * Zpos m + D - 2 * D * n)%Z); lia.
Qed.

(** *** Accumulated errors *)

Lemma ulp_rel_small : 0 < B32.ulp_rel < / 1000000.
Proof. unfold B32.ulp_rel. lra. Qed.

Lemma near_pos (k : nat) (x : R) : B32.near k x -> 0 < x.
Proof.
  intros [Hlow _]. apply Rlt_le_trans with (r2 := (1 - B32.ulp_rel) ^ k); [ | exact Hlow ].
  apply pow_lt. pose proof ulp_rel_small. lra.
Qed.

Lemma near_mul (j k : nat) (a b : R) :
  B32.near j a -> B32.near k b -> B32.near (j + k) (a * b).
Proof.
  intros Ha Hb.
  pose proof (near_pos j a Ha) as Ha0. pose proof (near_pos k b Hb) as Hb0.
  destruct Ha as [Hal Hah], Hb as [Hbl Hbh].
  assert (H0 : 0 < (1 - B32.ulp_rel) ^ j) by (apply pow_lt; pose proof ulp_rel_small; lra).
  assert (H1 : 0 < (1 - B32.ulp_rel) ^ k) by (apply pow_lt; pose proof ulp_rel_small; lra).
  unfold B32.near. rewrite !pow_add. split.
  - apply Rmult_le_compat; lra.
  - apply Rmult_le_compat; lra.
Qed.

Lemma near_8 (x : R) : B32.near 8 x -> 1 - / 1000000 <= x <= 1 + / 1000000.
Proof.
  unfold B32.near, B32.ulp_rel. simpl pow. intros H. lra.
Qed.

Lemma near_1 (x : R) : 1 - B32.ulp_rel <= x <= 1 + B32.ulp_rel -> B32.near 1 x.
Proof. unfold B32.near. simpl pow. intros H. lra. Qed.

Lemma near_4 (x : R) : B32.near 4 x -> 1 - / 1000000 <= x <= 1 + / 1000000.
Proof. unfold B32.near, B32.ulp_rel. simpl pow. intros H. lra. Qed.

(** The accumulated rounding error of the round trip. *)
Lemma roundtrip_real_error (X S B P W r1 r2 r3 r4 r5 r6 r7 r8 r9 : R) :
  1 <= X <= S -> S <= 65535 -> 0 <= B -> B + X <= 65535 ->
  2 <= P <= 6 -> 12 <= W <= 20 ->
  B32.near 1 r1 -> B32.near 1 r2 -> B32.near 1 r3 -> B32.near 1 r4 -> B32.near 1 r5 ->
  B32.near 1 r6 -> B32.near 1 r7 -> B32.near 1 r8 -> B32.near 1 r9 ->
  let vq := X * r1 / S * r2 in
  let vw := W * r3 in
  let vt := vq * vw * r4 in
  let vm := (P + vt) * r5 in
  let va := (vm - P) * r6 in
  let vr := va / vw * r7 in
  let vs := vr * S * r8 in
  let vv := (vs + B) * r9 in
  Rabs (vv - (X + B)) < / 2.
Proof.
  intros HX HS HB HBX HP HW H1 H2 H3 H4 H5 H6 H7 H8 H9. cbv zeta.
  pose proof (near_pos _ _ H3) as H3pos.
  set (Psi := r1 * r2 * r4 * r5 * r6 * r7 * r8 * r9).
  set (K := S * (r6 * r7 * r8 * r9) / (W * r3)).
  match goal with
  | |- Rabs ?e < _ =>
      replace e with (P * (r5 - 1) * K + X * (Psi - 1) + B * (r9 - 1))
        by (unfold K, Psi; field; lra)
  end.
  assert (HPsi : 1 - / 1000000 <= Psi <= 1 + / 1000000).
  { apply near_8. unfold Psi.
    change 8%nat with (1 + 1 + 1 + 1 + 1 + 1 + 1 + 1)%nat.
    repeat apply near_mul; assumption. }
  assert (Hr4 : 1 - / 1000000 <= r6 * r7 * r8 * r9 <= 1 + / 1000000).
  { apply near_4. change 4%nat with (1 + 1 + 1 + 1)%nat.
    repeat apply near_mul; assumption. }
  assert (Hr5 : 1 - / 1000000 <= r5 <= 1 + / 1000000).
  { destruct H5 as [Hl Hh]. unfold B32.ulp_rel in *. simpl pow in *. lra. }
  assert (Hr5' : - B32.ulp_rel <= r5 - 1 <= B32.ulp_rel).
  { destruct H5 as [Hl Hh]. simpl pow in *. lra. }
  assert (Hr9 : - / 1000000 <= r9 - 1 <= / 1000000).
  { destruct H9 as [Hl Hh]. unfold B32.ulp_rel in *. simpl pow in *. lra. }
  assert (Hr3 : 1 - / 1000000 <= r3).
  { destruct H3 as [Hl Hh]. unfold B32.ulp_rel in *. simpl pow in *. lra. }
  assert (Hden : 11 <= W * r3) by nra.
  assert (HK : 0 <= K <= 6000).
  { unfold K. split.
    - apply Rmult_le_pos; [ nra | left; apply Rinv_0_lt_compat; lra ].
    - apply Rmult_le_reg_r with (r := W * r3); [ lra | ].
      unfold Rdiv. rewrite Rmult_assoc, Rinv_l by lra. nra. }
  assert (HPK : 0 <= P * K <= 36000) by nra.
  assert (HE : - (36000 * B32.ulp_rel) <= P * (r5 - 1) * K <= 36000 * B32.ulp_rel).
  { replace (P * (r5 - 1) * K) with (P * K * (r5 - 1)) by ring.
    pose proof ulp_rel_small. nra. }
  assert (HXe : - (X * / 1000000) <= X * (Psi - 1) <= X * / 1000000) by nra.
  assert (HBe : - (B * / 1000000) <= B * (r9 - 1) <= B * / 1000000) by nra.
  unfold B32.ulp_rel in HE.
  apply Rabs_def1; lra.
Qed.

(** *** From a rounded result to its ratio *)

Lemma approx_elim (x : spec_float) (v l h : R) :
  B32.approx x v -> 0 < l -> l <= v <= h ->
  B32.pnormal x
  /\ (exists r : R, B32.near 1 r /\ B32.val x = v * r)
  /\ l * (1 - B32.ulp_rel) <= B32.val x <= h * (1 + B32.ulp_rel).
Proof.
  intros [Hnormal Herr] Hl [Hlv Hvh].
  pose proof ulp_rel_small as Hu.
  assert (Herr' : - (B32.ulp_rel * v) <= B32.val x - v <= B32.ulp_rel * v).
  { unfold Rabs in Herr. destruct (Rcase_abs (B32.val x - v)); lra. }
  clear Herr.
  assert (Hv : 0 < v) by lra.
  split; [ exact Hnormal | split ].
  - exists (B32.val x / v). split.
    + apply near_1. split.
      * apply Rmult_le_reg_r with (r := v); [ exact Hv | ].
        unfold Rdiv. rewrite Rmult_assoc, Rinv_l by lra. lra.
      * apply Rmult_le_reg_r with (r := v); [ exact Hv | ].
        unfold Rdiv. rewrite Rmult_assoc, Rinv_l by lra. lra.
    + field. lra.
  - split.
    + apply Rle_trans with (r2 := v * (1 - B32.ulp_rel)); [ | lra ].
      apply Rmult_le_compat_r; lra.
    + apply Rle_trans with (r2 := v * (1 + B32.ulp_rel)); [ lra | ].
      apply Rmult_le_compat_r; lra.
Qed.

Lemma div_bounds (a b la ha lb hb : R) :
  0 <= la -> 0 < lb -> la <= a <= ha -> lb <= b <= hb ->
  la / hb <= a / b <= ha / lb.
Proof.
  intros Hla Hlb [Ha1 Ha2] [Hb1 Hb2].
  assert (Hinv1 : / hb <= / b) by (apply Rinv_le_contravar; lra).
  assert (Hinv2 : / b <= / lb) by (apply Rinv_le_contravar; lra).
  assert (Hinv0 : 0 < / hb) by (apply Rinv_0_lt_compat; lra).
  unfold Rdiv. split.
  - apply Rmult_le_compat; lra.
  - apply Rmult_le_compat; lra.
Qed.

Lemma mul_bounds (a b la ha lb hb : R) :
  0 <= la -> 0 <= lb -> la <= a <= ha -> lb <= b <= hb ->
  la * lb <= a * b <= ha * hb.
Proof.
  intros Hla Hlb [Ha1 Ha2] [Hb1 Hb2]. split; apply Rmult_le_compat; lra.
Qed.

(** A window well inside the normal range. *)
Lemma window (v : R) :
  / 1099511627776 <= v <= 1099511627776 ->
  B32.pow2 (-124) <= v < B32.pow2 127 /\ B32.pow2 (-125) <= v < B32.pow2 127.
Proof.
  intros [Hlow Hhigh].
  assert (H20 : B32.pow2 (-40) = / 1099511627776).
  { apply Rmult_eq_reg_r with (r := B32.pow2 40); [ | pose proof (pow2_gt_0 40); lra ].
    rewrite <- pow2_add. rewrite (pow2_IZR 40) by lia.
    change (2 ^ 40)%Z with 1099511627776%Z. change (B32.pow2 (-40 + 40)) with 1.
    field. }
  assert (H40 : B32.pow2 40 = 1099511627776) by (rewrite pow2_IZR by lia; reflexivity).
  pose proof (pow2_le_mono (-124) (-40) ltac:(lia)).
  pose proof (pow2_le_mono (-125) (-124) ltac:(lia)).
  pose proof (pow2_le_mono 40 126 ltac:(lia)).
  assert (B32.pow2 126 < B32.pow2 127).
  { replace 127%Z with (126 + 1)%Z by lia. rewrite pow2_double.
    pose proof (pow2_gt_0 126). lra. }
  lra.
Qed.

Lemma pnormal_val_pos (x : spec_float) : B32.pnormal x -> 0 < B32.val x.
Proof.
  intros (m & e & -> & Hm & He). cbn [B32.val cond_Zopp].
  apply Rmult_lt_0_compat; [ apply IZR_lt; lia | apply pow2_gt_0 ].
Qed.

Lemma approx_self (x : spec_float) : B32.pnormal x -> B32.approx x (B32.val x).
Proof.
  intros Hx. split; [ exact Hx | ].
  pose proof (pnormal_val_pos x Hx). pose proof ulp_rel_small.
  replace (B32.val x - B32.val x) with 0 by ring. rewrite Rabs_R0.
  apply Rmult_le_pos; lra.
Qed.

(** Subtracting, or adding, a converted [uint16_t], zero included. *)
Lemma sub_int_approx (x : spec_float) (b : Z) :
  B32.pnormal x -> (0 <= b <= 65535)%Z ->
  / 1099511627776 <= B32.val x - IZR b <= 1099511627776 ->
  B32.approx (SFsub 24 128 x (B32.of_int b)) (B32.val x - IZR b).
Proof.
  intros Hx Hb Hrange.
  destruct (Z.eq_dec b 0) as [-> | Hnz].
  - change (B32.of_int 0) with (S754_zero false).
    replace (B32.val x - 0) with (B32.val x) by ring.
    pose proof (approx_self x Hx) as Hself.
    destruct Hx as (m & e & -> & _). exact Hself.
  - destruct (of_int_value b ltac:(lia)) as [Hbn Hbv].
    rewrite <- Hbv. apply sub_approx; [ exact Hx | exact Hbn | ].
    rewrite Hbv. apply window. exact Hrange.
Qed.

Lemma add_int_approx (x : spec_float) (b : Z) :
  B32.pnormal x -> (0 <= b <= 65535)%Z ->
  B32.val x + IZR b <= 1099511627776 ->
  B32.approx (SFadd 24 128 x (B32.of_int b)) (B32.val x + IZR b).
Proof.
  intros Hx Hb Hrange.
  destruct (Z.eq_dec b 0) as [-> | Hnz].
  - change (B32.of_int 0) with (S754_zero false).
    replace (B32.val x + 0) with (B32.val x) by ring.
    pose proof (approx_self x Hx) as Hself.
    destruct Hx as (m & e & -> & _). exact Hself.
  - destruct (of_int_value b ltac:(lia)) as [Hbn Hbv].
    rewrite <- Hbv. apply add_approx; [ exact Hx | exact Hbn | ].
    rewrite Hbv.
    assert (H40 : B32.pow2 40 = 1099511627776) by (rewrite pow2_IZR by lia; reflexivity).
    pose proof (pow2_le_mono 40 126 ltac:(lia)).
    assert (B32.pow2 126 < B32.pow2 127).
    { replace 127%Z with (126 + 1)%Z by lia. rewrite pow2_double.
      pose proof (pow2_gt_0 126). lra. }
    lra.
Qed.

End Rounding.

(** ** The fault sentinel *)

Section Threshold.

Local Open Scope R_scope.

Lemma pow2_neg (e : Z) : B32.pow2 (- e) * B32.pow2 e = 1.
Proof. rewrite <- pow2_add. replace (- e + e)%Z with 0%Z by lia. reflexivity. Qed.

(** The threshold constant is the largest [float] not above 3.8: comparing a
    well-formed value with the constant is comparing it with 3.8 itself. *)
Lemma fault_threshold_is_3_8 (x : spec_float) :
  B32.valid x = true -> B32.is_nan x = false ->
  B32.leb x (R_CLICK_FAULT_mA (ops := binary32)) = true
  <-> B32.at_most x (38 / 10).
Proof.
  rewrite R_CLICK_FAULT_mA_binary32.
  intros Hvalid Hnan.
  destruct x as [ s | s | | s m e ]; try discriminate.
  - cbn. split; [ intros _; lra | reflexivity ].
  - destruct s; cbn; split; intros H; try reflexivity; try discriminate.
  - destruct (valid_finite s m e Hvalid) as [Hcanon Hmax].
    pose proof (digits2_pos_bounds m) as Hdigits.
    set (d := Zpos (digits2_pos m)) in *.
    pose proof (pow2_gt_0 e) as Hpe.
    cbn [B32.at_most B32.val].
    destruct s.
    + (* negative numbers *)
      split; [ intros _ | reflexivity ].
      cbn [cond_Zopp].
      assert (IZR (- Zpos m) < 0) by (apply IZR_lt; lia).
      assert (IZR (- Zpos m) * B32.pow2 e < 0) by nra. lra.
    + cbn [cond_Zopp]. unfold B32.leb, SFleb. cbn [SFcompare].
      destruct (Z.compare_spec e (-22)) as [Heq | Hlt | Hgt].
      * (* same exponent as the constant *)
        subst e. rewrite Pos.compare_cont_spec. unfold Pos.switch_Eq.
        pose proof (pow2_neg 22) as H22.
        rewrite (pow2_IZR 22) in H22 by lia.
        change (2 ^ 22)%Z with 4194304%Z in H22.
        change (- (22))%Z with (-22)%Z in H22.
        destruct (Pos.compare_spec m 15938355) as [H | H | H]; split; intros H'.
        -- subst m. lra.
        -- reflexivity.
        -- apply Pos2Z.pos_lt_pos in H. apply IZR_lt in H. nra.
        -- reflexivity.
        -- discriminate H'.
        -- exfalso. apply Pos2Z.pos_lt_pos in H.
           assert (Hm : (15938356 <= Zpos m)%Z) by lia.
           apply IZR_le in Hm. nra.
      * (* below the binade of the constant *)
        split; [ intros _ | reflexivity ].
        assert (Hd : (d <= 24)%Z) by lia.
        assert (Hm : (Zpos m < 2 ^ 24)%Z).
        { apply Z.lt_le_trans with (m := (2 ^ d)%Z); [ lia | ].
          apply Z.pow_le_mono_r; lia. }
        apply IZR_lt in Hm. rewrite <- pow2_IZR in Hm by lia.
        assert (Hlt' : IZR (Zpos m) * B32.pow2 e < B32.pow2 24 * B32.pow2 e)
          by (apply Rmult_lt_compat_r; assumption).
        rewrite <- pow2_add in Hlt'.
        pose proof (pow2_le_mono (24 + e) 1 ltac:(lia)) as Hle.
        change (B32.pow2 1) with (2 * 1) in Hle. lra.
      * (* above the binade of the constant *)
        split; [ discriminate | intros H; exfalso ].
        assert (Hd : d = 24%Z) by lia.
        rewrite Hd in Hdigits. change (24 - 1)%Z with 23%Z in Hdigits.
        destruct Hdigits as [Hm _].
        apply IZR_le in Hm. rewrite <- pow2_IZR in Hm by lia.
        assert (Hge : B32.pow2 23 * B32.pow2 e <= IZR (Zpos m) * B32.pow2 e)
          by (apply Rmult_le_compat_r; lra).
        rewrite <- pow2_add in Hge.
        pose proof (pow2_le_mono 2 (23 + e) ltac:(lia)) as Hle.
        rewrite (pow2_IZR 2) in Hle by lia. change (2 ^ 2)%Z with 4%Z in Hle.
        lra.
Qed.

End Threshold.


Lemma fault_threshold_not_nan :
  B32.is_nan (R_CLICK_FAULT_mA (ops := binary32)) = false.
Proof. rewrite R_CLICK_FAULT_mA_binary32. reflexivity. Qed.

(** Whatever [bitval2mA] returns is the sentinel or a current above the
    threshold. *)
Lemma bitval2mA_cases (self : R_Click spec_float) (bitval : spec_float) :
  let mA := bitval2mA_current self bitval in
  bitval2mA self bitval = NAN
  \/ (bitval2mA self bitval = mA /\ B32.is_nan mA = false
      /\ B32.leb mA R_CLICK_FAULT_mA = false).
Proof.
  cbv zeta. unfold bitval2mA.
  destruct (bitval2mA_current self bitval >? R_CLICK_FAULT_mA)%flt eqn:Hgt;
    [ right | left; reflexivity ].
  assert (Hnan : B32.is_nan (bitval2mA_current self bitval) = false).
  { destruct (bitval2mA_current self bitval); try reflexivity.
    rewrite Fgt_nan_l in Hgt. discriminate. }
  split; [ reflexivity | split; [ exact Hnan | ] ].
  rewrite (Fgt_is_not_leb _ _ Hnan fault_threshold_not_nan) in Hgt.
  apply Bool.negb_true_iff. exact Hgt.
Qed.

Lemma bitval2mA_result (self : R_Click spec_float) (bitval : spec_float) :
  B32.is_nan (bitval2mA self bitval) = false ->
  B32.leb (bitval2mA self bitval) R_CLICK_FAULT_mA = false
  /\ (B32.valid (bitval2mA self bitval) = true ->
      ~ B32.at_most (bitval2mA self bitval) (38 / 10)%R).
Proof.
  intros Hnan.
  destruct (bitval2mA_cases self bitval) as [Hfault | (Heq & _ & Hleb)].
  - rewrite Hfault in Hnan. discriminate.
  - rewrite Heq in *. split; [ exact Hleb | ].
    intros Hvalid Hmost.
    apply (fault_threshold_is_3_8 _ Hvalid Hnan) in Hmost.
    rewrite Hleb in Hmost. discriminate.
Qed.

(** C4: with [mA] the current [bitval2mA] converted the bit value to, and
    [mA] not a NaN: if [mA <= 3.8] the function returns the sentinel [NAN],
    otherwise it returns [mA] itself.  The test is made against the [float]
    constant 3.8f, which for every well-formed [float] is the same as a test
    against the real number 3.8.  So neither [read_mA] nor [get_EMA_mA] ever
    hands a number at or below 3.8 to its caller. *)
Theorem bitval2mA_fault_classification (self : R_Click spec_float) :
  (forall bitval : spec_float,
     let mA := bitval2mA_current self bitval in
     B32.is_nan mA = false ->
     (B32.leb mA R_CLICK_FAULT_mA = true -> bitval2mA self bitval = NAN)
     /\ (B32.leb mA R_CLICK_FAULT_mA = false -> bitval2mA self bitval = mA)
     /\ (B32.valid mA = true ->
         (B32.leb mA R_CLICK_FAULT_mA = true <-> B32.at_most mA (38 / 10)%R)))
  /\ (forall w : World,
        let r := fst (read_mA self w) in
        B32.is_nan r = false ->
        B32.leb r R_CLICK_FAULT_mA = false
        /\ (B32.valid r = true -> ~ B32.at_most r (38 / 10)%R))
  /\ (let r := get_EMA_mA self in
      B32.is_nan r = false ->
      B32.leb r R_CLICK_FAULT_mA = false
      /\ (B32.valid r = true -> ~ B32.at_most r (38 / 10)%R)).
Proof.
  split; [ | split ].
  - intros bitval mA Hnan. subst mA.
    split; [ | split ].
    + intros Hleb.
      destruct (bitval2mA_cases self bitval) as [Hfault | (_ & _ & Hleb')];
        [ exact Hfault | ].
      rewrite Hleb in Hleb'. discriminate.
    + intros Hleb. unfold bitval2mA.
      rewrite (Fgt_is_not_leb _ _ Hnan fault_threshold_not_nan), Hleb.
      reflexivity.
    + intros Hvalid. apply fault_threshold_is_3_8; assumption.
  - intros w r. subst r.
    unfold read_mA, bind, ret.
    destruct (read_bitval self w) as [bitval w']. cbn [fst].
    apply bitval2mA_result.
  - cbv zeta. unfold get_EMA_mA. apply bitval2mA_result.
Qed.

(** ** The transmitter, end to end *)

Lemma mA2bitval_12mA (self : T_Click spec_float) :
  T_calib_ self = Demo.calib -> mA2bitval self (Demo.f32 12 1) = 2400.
Proof.
  intros Hcalib. unfold mA2bitval. rewrite Hcalib.
  vm_compute. reflexivity.
Qed.

(** C6: with the calibration [{4.0, 20.0, 800, 4000}], [set_mA(12.0)]
    computes the bit value 2400, clocks out [0x30 | (2400 >> 8)] and then
    [2400 & 0xFF] (that is [0x39], [0x60]) within one transaction, and stores
    2400 in the object, from where [get_last_set_bitval] returns it without
    touching the bus. *)
Theorem set_mA_12mA_scenario (self : T_Click spec_float) (w : World) :
  T_calib_ self = Demo.calib ->
  let result := set_mA (Demo.f32 12 1) self w in
  mA2bitval self (Demo.f32 12 1) = 2400
  /\ trace (snd result)
     = trace w ++ [SPI_beginTransaction_ev (T_SPI_clock_ self);
                   digitalWrite_ev (T_CS_pin_ self) LOW;
                   SPI_transfer_ev (Z.lor 48 (Z.shiftr 2400 8))
                                   (wrap8 (miso w (transfers w)));
                   SPI_transfer_ev (Z.land 2400 255)
                                   (wrap8 (miso w (S (transfers w))));
                   digitalWrite_ev (T_CS_pin_ self) HIGH;
                   SPI_endTransaction_ev]
  /\ sent_bytes (trace (snd result)) = sent_bytes (trace w) ++ [57; 96]
  /\ get_last_set_bitval (fst result) = 2400.
Proof.
  intros Hcalib. cbv zeta.
  rewrite set_mA_run. rewrite (mA2bitval_12mA self Hcalib).
  cbn [fst snd trace get_last_set_bitval bitval_].
  split; [ reflexivity | split; [ reflexivity | split; [ | reflexivity ] ] ].
  rewrite sent_bytes_app. reflexivity.
Qed.

Lemma set_mA_12mA_scenario_witness :
  T_calib_ Demo.transmitter = Demo.calib
  /\ mA2bitval Demo.transmitter (Demo.f32 12 1) = 2400
  /\ sent_bytes (trace (snd (set_mA (Demo.f32 12 1) Demo.transmitter (Demo.world 0))))
     = [57; 96]
  /\ get_last_set_bitval (fst (set_mA (Demo.f32 12 1) Demo.transmitter (Demo.world 0)))
     = 2400.
Proof.
  split; [ reflexivity | ].
  destruct (set_mA_12mA_scenario Demo.transmitter (Demo.world 0) eq_refl)
    as (Hbitval & _ & Hsent & Hlast).
  split; [ exact Hbitval | split; [ exact Hsent | exact Hlast ] ].
Defined.

(** ** Seeding and steady state *)

(** The conversion of a reading to [float] rounds nothing away. *)
Lemma of_int_reading_exact (bitval : Z) :
  0 <= bitval <= 4095 ->
  B32.val (Fof_int (FloatOps := binary32) bitval) = IZR bitval.
Proof.
  intros Hrange.
  destruct (Z.eq_dec bitval 0) as [-> | Hnz]; [ reflexivity | ].
  apply of_int_value. lia.
Qed.

(** C2: a sampling call made at start-up stores the raw sample itself as the
    running value (in single precision the conversion of a 12-bit reading
    rounds nothing away) and clears the start-up flag; a sampling call made
    later replaces the running value [v] by [v + alpha * (raw - v)].  Over any
    program using the filter the flag is true exactly until the first call
    of [poll_EMA] that takes a sample and false ever after: no method sets it
    again. *)
Theorem poll_EMA_seeds_once_then_blends :
  (forall (F : Type) (ops : FloatOps F) (libm : FloatExp F)
          (self : R_Click F) (w : World),
      due self w = true ->
      let bitval := fst (read_bitval self w) in
      let obtained := wrap32 (wrap32 (micros_now w) - EMA_tick_ self) in
      let alpha := EMA_alpha obtained (EMA_LP_freq_ self) in
      let self' := snd (fst (poll_EMA self w)) in
      fst (fst (poll_EMA self w)) = true
      /\ EMA_at_startup_ self' = false
      /\ (EMA_at_startup_ self = true -> EMA_bitval_ self' = Fof_int bitval)
      /\ (EMA_at_startup_ self = false ->
          EMA_bitval_ self'
          = (EMA_bitval_ self + alpha * (Fof_int bitval - EMA_bitval_ self))%flt))
  /\ (forall (F : Type) (ops : FloatOps F) (libm : FloatExp F)
             (calls : list (Z * R_call F)) (self : R_Click F) (w : World),
         EMA_at_startup_ (snd (fst (R_run calls self w)))
         = EMA_at_startup_ self && negb (sampled (fst (fst (R_run calls self w)))))
  /\ (forall bitval : Z,
         0 <= bitval <= 4095 ->
         B32.val (Fof_int (FloatOps := binary32) bitval) = IZR bitval).
Proof.
  split; [ | split ].
  - intros F ops libm self w Hdue. cbv zeta.
    rewrite (poll_EMA_sample self w Hdue). cbn [fst snd EMA_at_startup_ EMA_bitval_].
    split; [ reflexivity | split; [ reflexivity | split ] ];
      intros Hstartup; rewrite Hstartup; reflexivity.
  - intros F ops libm calls self w. apply R_run_startup.
  - intros bitval Hrange. apply of_int_reading_exact. exact Hrange.
Qed.

(** ** Reading the filter before the first sample *)

Lemma bitval2mA_nan (self : R_Click spec_float) : bitval2mA self NAN = NAN.
Proof.
  unfold bitval2mA, bitval2mA_current. cbn [NAN Fsub Fdiv Fmul Fadd binary32].
  cbn [B32.sub SFsub B32.div SFdiv B32.mul SFmul].
  assert (Hadd : forall x, B32.add x S754_nan = S754_nan)
    by (intros x; destruct x; reflexivity).
  rewrite Hadd. rewrite Fgt_nan_l. reflexivity.
Qed.

(** C8: a receiver that came out of either constructor, after any program in
    which no call of [poll_EMA] returned [true], still answers
    [get_EMA_bitval] with the [NAN] its running value was initialised with,
    and answers [get_EMA_mA] with [NAN] as well, the value [bitval2mA] gives
    for a current in the fault range. *)
Theorem seeding_filter_reads_as_fault
        (libm : FloatExp spec_float) (junk CS_pin : Z)
        (calib : RT_Click_Calibration spec_float)
        (EMA_interval : Z) (EMA_LP_freq : spec_float) (w0 : World)
        (self0 : R_Click spec_float)
        (calls : list (Z * R_call spec_float)) (w : World) :
  self0 = fst (R_Click_new junk CS_pin calib w0)
  \/ self0 = fst (R_Click_new_EMA junk CS_pin calib EMA_interval EMA_LP_freq w0) ->
  sampled (fst (fst (R_run calls self0 w))) = false ->
  let self := snd (fst (R_run calls self0 w)) in
  get_EMA_bitval self = NAN
  /\ get_EMA_mA self = NAN
  /\ (forall bitval : spec_float,
        B32.is_nan (bitval2mA_current self bitval) = false ->
        B32.leb (bitval2mA_current self bitval) R_CLICK_FAULT_mA = true ->
        bitval2mA self bitval = get_EMA_mA self).
Proof.
  intros Hnew Hquiet. cbv zeta.
  assert (Hfresh : EMA_at_startup_ self0 = true /\ EMA_bitval_ self0 = NAN).
  { pose proof (constructors_seed junk CS_pin calib EMA_interval EMA_LP_freq w0)
      as [Hplain Hfilter].
    destruct Hnew as [-> | ->]; assumption. }
  destruct Hfresh as [Hstart Hvalue].
  assert (Hinv : seeding_inv (snd (fst (R_run calls self0 w)))).
  { apply R_run_seeding_inv. intros _. exact Hvalue. }
  assert (Hstill : EMA_at_startup_ (snd (fst (R_run calls self0 w))) = true).
  { rewrite R_run_startup, Hstart, Hquiet. reflexivity. }
  assert (Hnan : get_EMA_bitval (snd (fst (R_run calls self0 w))) = NAN).
  { unfold get_EMA_bitval. apply Hinv. exact Hstill. }
  assert (HmA : get_EMA_mA (snd (fst (R_run calls self0 w))) = NAN).
  { unfold get_EMA_mA. unfold get_EMA_bitval in Hnan. rewrite Hnan.
    apply bitval2mA_nan. }
  split; [ exact Hnan | split; [ exact HmA | ] ].
  intros bitval Hnum Hlow. rewrite HmA.
  destruct (bitval2mA_cases (snd (fst (R_run calls self0 w))) bitval)
    as [Hfault | (_ & _ & Hleb)]; [ exact Hfault | ].
  rewrite Hlow in Hleb. discriminate.
Qed.

(** ** The smoothing factor *)

Lemma Fgt_irrefl (x : spec_float) : (x >? x)%flt = false.
Proof.
  cbn [Fgt binary32]. unfold B32.ltb, SFltb.
  destruct (SFcompare x x) as [c | ] eqn:Hc; [ | reflexivity ].
  pose proof (SFcompare_antisym x x c Hc) as Hc'.
  rewrite Hc in Hc'. destruct c; try discriminate; reflexivity.
Qed.


(** *** Exact arithmetic *)

Section SmoothingFactor.

Local Open Scope R_scope.

Lemma exact_micro : Fliteral (ops := exact) 1 1000000 = Exact.Real (1 / 1000000).
Proof.
  unfold Fliteral. cbn [Fdiv Fof_int exact]. unfold Exact.div.
  destruct (Req_dec_T 1000000 0) as [Hzero | _]; [ lra | reflexivity ].
Qed.

Lemma EMA_alpha_exact (i : Z) (k : R) :
  EMA_alpha (ops := exact) i (Exact.Real k)
  = Exact.Real (1 - exp (- IZR i * k)).
Proof. reflexivity. Qed.

Lemma EMA_alpha_exact_increasing (k : R) (i1 i2 : Z) :
  0 < k -> (i1 < i2)%Z ->
  (EMA_alpha (ops := exact) i2 (Exact.Real k)
   >? EMA_alpha (ops := exact) i1 (Exact.Real k))%flt = true.
Proof.
  intros Hk Hlt. rewrite !EMA_alpha_exact.
  cbn [Fgt exact]. unfold Exact.gt.
  destruct (Rlt_dec (1 - exp (- IZR i1 * k)) (1 - exp (- IZR i2 * k)))
    as [_ | Hnot]; [ reflexivity | exfalso; apply Hnot ].
  apply IZR_lt in Hlt.
  assert (Hexp : exp (- IZR i2 * k) < exp (- IZR i1 * k)).
  { apply exp_increasing. nra. }
  lra.
Qed.

(** The smoothing factor is not always larger for twice the interval: in
    single precision that of a 10 Hz filter is 1 for an obtained interval of
    2 s, and 1 again for 4 s ([expf] taken from the stand-in); whatever [exp]
    is, the interval 0 is twice itself; and with a cut-off frequency of 0 the
    factor is 0 for every interval, in exact arithmetic too. *)
Lemma EMA_alpha_not_always_larger :
  EMA_alpha (libm := B32.expf) 2000000 Demo.LP_10Hz = Fof_int 1
  /\ EMA_alpha (libm := B32.expf) 4000000 Demo.LP_10Hz = Fof_int 1
  /\ (EMA_alpha (libm := B32.expf) 4000000 Demo.LP_10Hz
       >? EMA_alpha (libm := B32.expf) 2000000 Demo.LP_10Hz)%flt = false
  /\ ~ (forall (libm : FloatExp spec_float) (LP_freq : spec_float) (i : Z),
          (0 <= i < 2 ^ 31)%Z ->
          (EMA_alpha (2 * i) LP_freq >? EMA_alpha i LP_freq)%flt = true)
  /\ (EMA_alpha (ops := exact) 4000 (Exact.Real 0 * Fliteral 1 1000000)%flt
       >? EMA_alpha (ops := exact) 2000 (Exact.Real 0 * Fliteral 1 1000000)%flt)%flt
      = false.
Proof.
  split; [ vm_compute; reflexivity | ].
  split; [ vm_compute; reflexivity | ].
  split; [ vm_compute; reflexivity | ].
  split.
  - intros Hall.
    specialize (Hall B32.expf Demo.LP_10Hz 0%Z ltac:(lia)).
    change (2 * 0)%Z with 0%Z in Hall.
    rewrite Fgt_irrefl in Hall. discriminate.
  - rewrite exact_micro. cbn [Fmul exact Exact.lift2].
    rewrite !EMA_alpha_exact. cbn [Fgt exact]. unfold Exact.gt.
    assert (Hzero : forall a : R, a * (0 * (1 / 1000000)) = 0)
      by (intros a; lra).
    rewrite !Hzero.
    destruct (Rlt_dec (1 - exp 0) (1 - exp 0)) as [Hlt | _];
      [ lra | reflexivity ].
Qed.

(** C1 (amended): every sampling call stores the interval actually obtained
    and, once the filter is seeded, blends with [EMA_alpha] of that very
    interval, [1 - exp(-interval * constant)]; the constant is the cut-off
    frequency times [1e-6f], set by the constructor and changed by no
    method.  In exact arithmetic and for a positive cut-off frequency the
    factor is strictly increasing in the interval, so it is larger for twice
    a non-zero interval. *)
Theorem EMA_alpha_recomputed_from_obtained_interval :
  (forall (F : Type) (ops : FloatOps F) (libm : FloatExp F)
          (self : R_Click F) (w : World),
      due self w = true ->
      let bitval := fst (read_bitval self w) in
      let obtained := ((wrap32 (micros_now w) - EMA_tick_ self) mod 2 ^ 32)%Z in
      let alpha :=
        (Fof_int 1 - Fexp_libm (- Fof_int obtained * EMA_LP_freq_ self))%flt in
      let self' := snd (fst (poll_EMA self w)) in
      EMA_obtained_interval_ self' = obtained
      /\ EMA_LP_freq_ self' = EMA_LP_freq_ self
      /\ (EMA_at_startup_ self = false ->
          EMA_bitval_ self'
          = (EMA_bitval_ self + alpha * (Fof_int bitval - EMA_bitval_ self))%flt))
  /\ (forall (F : Type) (ops : FloatOps F) (libm : FloatExp F)
             (junk CS_pin : Z) (calib : RT_Click_Calibration F)
             (EMA_interval : Z) (EMA_LP_freq : F) (w0 : World)
             (calls : list (Z * R_call F)) (w : World),
         let self0 :=
           fst (R_Click_new_EMA junk CS_pin calib EMA_interval EMA_LP_freq w0) in
         EMA_LP_freq_ (snd (fst (R_run calls self0 w)))
         = (EMA_LP_freq * Fliteral 1 1000000)%flt)
  /\ (forall (cutoff_Hz : R) (i1 i2 : Z),
         0 < cutoff_Hz -> (i1 < i2)%Z ->
         let constant := (Exact.Real cutoff_Hz * Fliteral 1 1000000)%flt in
         (EMA_alpha (ops := exact) i2 constant
          >? EMA_alpha (ops := exact) i1 constant)%flt = true)
  /\ (forall (cutoff_Hz : R) (i : Z),
         0 < cutoff_Hz -> (0 < i)%Z ->
         let constant := (Exact.Real cutoff_Hz * Fliteral 1 1000000)%flt in
         (EMA_alpha (ops := exact) (2 * i) constant
          >? EMA_alpha (ops := exact) i constant)%flt = true).
Proof.
  split; [ | split; [ | split ] ].
  - intros F ops libm self w Hdue. cbv zeta.
    rewrite (poll_EMA_sample self w Hdue).
    cbn [fst snd EMA_obtained_interval_ EMA_LP_freq_ EMA_bitval_].
    split; [ reflexivity | split; [ reflexivity | ] ].
    intros Hsteady. rewrite Hsteady. reflexivity.
  - intros F ops libm junk CS_pin calib EMA_interval EMA_LP_freq w0 calls w.
    cbv zeta. rewrite R_run_LP_freq. reflexivity.
  - intros cutoff_Hz i1 i2 Hpos Hlt. cbv zeta.
    rewrite exact_micro. cbn [Fmul exact Exact.lift2].
    apply EMA_alpha_exact_increasing; [ lra | exact Hlt ].
  - intros cutoff_Hz i Hpos Hi. cbv zeta.
    rewrite exact_micro. cbn [Fmul exact Exact.lift2].
    apply EMA_alpha_exact_increasing; [ lra | lia ].
Qed.

End SmoothingFactor.

(** ** From bit value to current and back *)

Section RoundTrip.

Local Open Scope R_scope.

(** *** The round trip in exact arithmetic *)

Lemma round_half_away_near (x : R) (b1 b2 : Z) :
  (0 <= b1)%Z -> IZR b1 <= x <= IZR b2 ->
  (b1 <= Exact.round_half_away x <= b2)%Z
  /\ Rabs (IZR (Exact.round_half_away x) - x) <= / 2.
Proof.
  intros Hb1 [Hlow Hhigh].
  assert (Hx : 0 <= x) by (apply IZR_le in Hb1; lra).
  unfold Exact.round_half_away.
  destruct (Rle_dec 0 x) as [_ | Hneg]; [ | contradiction ].
  destruct (base_Int_part (x + / 2)) as [Hfloor Hfrac].
  set (n := Int_part (x + / 2)) in *.
  split; [ split | ].
  - assert (H : IZR (b1 - 1) < IZR n) by (rewrite minus_IZR; lra).
    apply lt_IZR in H. lia.
  - assert (H : IZR n < IZR (b2 + 1)) by (rewrite plus_IZR; lra).
    apply lt_IZR in H. lia.
  - apply Rabs_le. lra.
Qed.

Lemma exact_fault_threshold :
  R_CLICK_FAULT_mA (ops := exact) = Exact.Real (38 / 10).
Proof.
  unfold R_CLICK_FAULT_mA, Fliteral. cbn [Fdiv Fof_int exact]. unfold Exact.div.
  destruct (Req_dec_T 10 0) as [Hzero | _]; [ lra | reflexivity ].
Qed.

(** The round trip in exact arithmetic: the nearest integer of [x]. *)
Lemma roundtrip_exact (p1 p2 : R) (b1 b2 : Z)
      (Rself : R_Click Exact.xreal) (Tself : T_Click Exact.xreal) (x : R) :
  calib_ Rself = mkCalibration (Exact.Real p1) (Exact.Real p2) b1 b2 ->
  T_calib_ Tself = calib_ Rself ->
  p1 < p2 -> (0 <= b1 < b2)%Z -> (b2 <= 65535)%Z -> IZR b1 <= x <= IZR b2 ->
  bitval2mA Rself (Exact.Real x) <> NAN ->
  exists mA : R,
    bitval2mA Rself (Exact.Real x) = Exact.Real mA
    /\ 38 / 10 < mA
    /\ mA2bitval Tself (Exact.Real mA) = Exact.round_half_away x
    /\ Rabs (IZR (mA2bitval Tself (Exact.Real mA)) - x) <= / 2.
Proof.
  intros HR HT Hp Hb Hb2 Hx Hnum.
  assert (Hspan : IZR (b2 - b1) <> 0).
  { intros H. apply eq_IZR_R0 in H. lia. }
  unfold bitval2mA, bitval2mA_current in *. rewrite HR in *.
  rewrite exact_fault_threshold in *.
  cbn [p1_mA p2_mA p1_bitval p2_bitval Fadd Fsub Fmul Fdiv Fof_int Fgt exact
       Exact.lift2] in *.
  unfold Exact.div in *.
  destruct (Req_dec_T (IZR (b2 - b1)) 0) as [Hzero | _]; [ contradiction | ].
  cbn [Exact.lift2 Exact.gt] in *.
  set (mA := p1 + (x - IZR b1) / IZR (b2 - b1) * (p2 - p1)) in *.
  destruct (Rlt_dec (38 / 10) mA) as [Hgt | Hle];
    [ | exfalso; apply Hnum; reflexivity ].
  exists mA. split; [ reflexivity | split; [ exact Hgt | ] ].
  assert (Hback : mA2bitval Tself (Exact.Real mA) = Exact.round_half_away x).
  { unfold mA2bitval. rewrite HT.
    cbn [p1_mA p2_mA p1_bitval p2_bitval Fadd Fsub Fmul Fdiv Fof_int Fround
         exact Exact.lift2].
    unfold Exact.div.
    destruct (Req_dec_T (p2 - p1) 0) as [Hzero | _]; [ lra | ].
    cbn [Exact.lift2 Exact.round].
    replace ((mA - p1) / (p2 - p1) * IZR (b2 - b1) + IZR b1) with x.
    - apply wrap16_small.
      pose proof (round_half_away_near x b1 b2 ltac:(lia) Hx) as [Hrange _]. lia.
    - subst mA. field. split; [ exact Hspan | lra ]. }
  split; [ exact Hback | ].
  rewrite Hback.
  apply (round_half_away_near x b1 b2 ltac:(lia) Hx).
Qed.

(** *** The round trip in single precision *)

(** A well-formed [float] whose value is at least [2^-125] is a positive
    normal number. *)
Lemma valid_pnormal (x : spec_float) :
  B32.valid x = true -> B32.pow2 (-125) <= B32.val x -> B32.pnormal x.
Proof.
  intros Hvalid Hval.
  pose proof (pow2_gt_0 (-125)) as Hpos.
  destruct x as [ s | s | | s m e ]; cbn [B32.val] in Hval; try lra.
  destruct (valid_finite s m e Hvalid) as [Hcanon Hmax].
  pose proof (digits2_pos_bounds m) as [Hdl Hdh].
  set (d := Zpos (digits2_pos m)) in *.
  pose proof (pow2_gt_0 e) as Hpe.
  destruct s.
  - exfalso. cbn [cond_Zopp] in Hval.
    assert (IZR (- Zpos m) < 0) by (apply IZR_lt; lia).
    assert (IZR (- Zpos m) * B32.pow2 e < 0) by nra. lra.
  - cbn [cond_Zopp] in Hval.
    destruct (Z.le_gt_cases (-149) (d + e - 24)) as [Hnormal | Hsub].
    + assert (Hd : d = 24%Z) by lia.
      exists m, e. split; [ reflexivity | ].
      rewrite Hd in Hdl, Hdh. change (24 - 1)%Z with 23%Z in Hdl.
      split; [ split; assumption | lia ].
    + exfalso.
      assert (He : e = (-149)%Z) by lia.
      assert (Hd : (d <= 23)%Z) by lia.
      assert (Hm : (Zpos m < 2 ^ 23)%Z).
      { apply Z.lt_le_trans with (m := (2 ^ d)%Z); [ exact Hdh | ].
        apply Z.pow_le_mono_r; lia. }
      apply IZR_lt in Hm. rewrite <- pow2_IZR in Hm by lia.
      assert (Hlt : IZR (Zpos m) * B32.pow2 e < B32.pow2 23 * B32.pow2 e)
        by (apply Rmult_lt_compat_r; assumption).
      rewrite <- pow2_add in Hlt. rewrite He in Hlt.
      pose proof (pow2_le_mono (23 + -149) (-125) ltac:(lia)).
      rewrite He in Hval. lra.
Qed.

(** The round trip of a bit value above the first calibration point: the
    rounding errors of the nine operations add up to less than half a bit. *)
Lemma roundtrip_binary32_inside
      (Rself : R_Click spec_float) (Tself : T_Click spec_float) (n : Z) :
  T_calib_ Tself = calib_ Rself ->
  B32.pnormal (p1_mA (calib_ Rself)) -> B32.pnormal (p2_mA (calib_ Rself)) ->
  2 <= B32.val (p1_mA (calib_ Rself)) <= 6 ->
  18 <= B32.val (p2_mA (calib_ Rself)) <= 22 ->
  (0 <= p1_bitval (calib_ Rself) < n)%Z ->
  (n <= p2_bitval (calib_ Rself))%Z ->
  (p2_bitval (calib_ Rself) <= 65535)%Z ->
  mA2bitval Tself (bitval2mA_current Rself (Fof_int n)) = n.
Proof.
  intros HT. unfold mA2bitval, bitval2mA_current. rewrite HT.
  destruct (calib_ Rself) as [p1 p2 b1 b2].
  cbn [p1_mA p2_mA p1_bitval p2_bitval Fadd Fsub Fmul Fdiv Fof_int Fround
       binary32].
  intros Hp1 Hp2 HP1 HP2 Hb1 Hn Hb2.
  unfold B32.add, B32.sub, B32.mul, B32.div, B32.prec, B32.emax.
  pose proof ulp_rel_small as Hu. unfold B32.ulp_rel in Hu.
  (* the exact quantities *)
  set (X := IZR n - IZR b1). set (S := IZR (b2 - b1)). set (B := IZR b1).
  set (P := B32.val p1) in *. set (W := B32.val p2 - P).
  assert (HX : 1 <= X <= S).
  { unfold X, S. rewrite <- minus_IZR. split; apply IZR_le; lia. }
  assert (HS : S <= 65535) by (unfold S; apply IZR_le; lia).
  assert (HB : 0 <= B) by (unfold B; apply IZR_le; lia).
  assert (HBX : B + X <= 65535).
  { unfold B, X. replace (IZR b1 + (IZR n - IZR b1)) with (IZR n) by ring.
    apply IZR_le. lia. }
  assert (HW : 12 <= W <= 20) by (unfold W; lra).
  destruct (of_int_value n ltac:(lia)) as [Hxn Hxv].
  destruct (of_int_value (b2 - b1) ltac:(lia)) as [HSn HSv]. fold S in HSv.
  (* d = x - b1 *)
  set (fd := SFsub 24 128 (B32.of_int n) (B32.of_int b1)).
  assert (Hd : B32.approx fd X).
  { unfold fd, X. rewrite <- Hxv. apply sub_int_approx; [ exact Hxn | lia | ].
    rewrite Hxv. fold X. lra. }
  destruct (approx_elim fd X 1 65535 Hd ltac:(lra) ltac:(lra))
    as (Hdn & (r1 & Hr1 & Hdv) & Hdb).
  unfold B32.ulp_rel in Hdb.
  (* q = d / span *)
  set (fS := B32.of_int (b2 - b1)) in *.
  set (fq := SFdiv 24 128 fd fS).
  assert (Hqe : / 100000 <= B32.val fd / S <= 65536).
  { pose proof (div_bounds (B32.val fd) S (99 / 100) 65536 1 65535
                  ltac:(lra) ltac:(lra) ltac:(lra) ltac:(lra)). lra. }
  assert (Hq : B32.approx fq (B32.val fd / S)).
  { unfold fq. rewrite <- HSv. apply div_approx; [ exact Hdn | exact HSn | ].
    rewrite HSv. apply window. lra. }
  destruct (approx_elim fq _ (/ 100000) 65536 Hq ltac:(lra) Hqe)
    as (Hqn & (r2 & Hr2 & Hqv) & Hqb).
  unfold B32.ulp_rel in Hqb.
  (* w = p2 - p1 *)
  set (fw := SFsub 24 128 p2 p1).
  assert (Hw : B32.approx fw W).
  { unfold fw, W. apply sub_approx; [ exact Hp2 | exact Hp1 | ].
    apply window. fold P. lra. }
  destruct (approx_elim fw W 12 20 Hw ltac:(lra) HW)
    as (Hwn & (r3 & Hr3 & Hwv) & Hwb).
  unfold B32.ulp_rel in Hwb.
  (* t = q * w *)
  set (ft := SFmul 24 128 fq fw).
  assert (Hte : / 100000 <= B32.val fq * B32.val fw <= 1400000).
  { pose proof (mul_bounds (B32.val fq) (B32.val fw) (9 / 1000000) 65537 (119 / 10) 21
                  ltac:(lra) ltac:(lra) ltac:(lra) ltac:(lra)). lra. }
  assert (Ht : B32.approx ft (B32.val fq * B32.val fw)).
  { unfold ft. apply mul_approx; [ exact Hqn | exact Hwn | ].
    apply window. lra. }
  destruct (approx_elim ft _ (/ 100000) 1400000 Ht ltac:(lra) Hte)
    as (Htn & (r4 & Hr4 & Htv) & Htb).
  unfold B32.ulp_rel in Htb.
  (* mA = p1 + t *)
  set (fm := SFadd 24 128 p1 ft).
  assert (Hm : B32.approx fm (P + B32.val ft)).
  { unfold fm, P. apply add_approx; [ exact Hp1 | exact Htn | ].
    fold P. apply window. lra. }
  destruct (approx_elim fm _ 2 1500000 Hm ltac:(lra) ltac:(lra))
    as (Hmn & (r5 & Hr5 & Hmv) & Hmb).
  unfold B32.ulp_rel in Hmb.
  (* a = mA - p1 *)
  set (fa := SFsub 24 128 fm p1).
  assert (Hae : / 1000000 <= B32.val fm - P <= 1600000).
  { rewrite Hmv. destruct Hr5 as [Hr5l Hr5h].
    unfold B32.ulp_rel in Hr5l, Hr5h. simpl pow in Hr5l, Hr5h.
    assert ((P + B32.val ft) * (1 - / 8388608) <= (P + B32.val ft) * r5)
      by (apply Rmult_le_compat_l; lra).
    assert ((P + B32.val ft) * r5 <= (P + B32.val ft) * (1 + / 8388608))
      by (apply Rmult_le_compat_l; lra).
    lra. }
  assert (Ha : B32.approx fa (B32.val fm - P)).
  { unfold fa, P. apply sub_approx; [ exact Hmn | exact Hp1 | ].
    fold P. apply window. lra. }
  destruct (approx_elim fa _ (/ 1000000) 1600000 Ha ltac:(lra) Hae)
    as (Han & (r6 & Hr6 & Hav) & Hab).
  unfold B32.ulp_rel in Hab.
  (* r = a / w *)
  set (fr := SFdiv 24 128 fa fw).
  assert (Hre : / 100000000 <= B32.val fa / B32.val fw <= 1600000).
  { pose proof (div_bounds (B32.val fa) (B32.val fw) (9 / 10000000) 1600001 (119 / 10) 21
                  ltac:(lra) ltac:(lra) ltac:(lra) ltac:(lra)). lra. }
  assert (Hr : B32.approx fr (B32.val fa / B32.val fw)).
  { unfold fr. apply div_approx; [ exact Han | exact Hwn | ].
    apply window. lra. }
  destruct (approx_elim fr _ (/ 100000000) 1600000 Hr ltac:(lra) Hre)
    as (Hrn & (r7 & Hr7 & Hrv) & Hrb).
  unfold B32.ulp_rel in Hrb.
  (* s = r * span *)
  set (fs := SFmul 24 128 fr fS).
  assert (Hse : / 1000000000 <= B32.val fr * S <= 110000000000).
  { pose proof (mul_bounds (B32.val fr) S (9 / 1000000000) 1600001 1 65535
                  ltac:(lra) ltac:(lra) ltac:(lra) ltac:(lra)). lra. }
  assert (Hs : B32.approx fs (B32.val fr * S)).
  { unfold fs. rewrite <- HSv. apply mul_approx; [ exact Hrn | exact HSn | ].
    rewrite HSv. apply window. lra. }
  destruct (approx_elim fs _ (/ 1000000000) 110000000000 Hs ltac:(lra) Hse)
    as (Hsn & (r8 & Hr8 & Hsv) & Hsb).
  unfold B32.ulp_rel in Hsb.
  (* v = s + b1 *)
  set (fv := SFadd 24 128 fs (B32.of_int b1)).
  assert (Hv : B32.approx fv (B32.val fs + B)).
  { unfold fv, B. apply add_int_approx; [ exact Hsn | lia | ]. fold B. lra. }
  destruct (approx_elim fv _ (/ 10000000000) 120000000000 Hv ltac:(lra) ltac:(lra))
    as (Hvn & (r9 & Hr9 & Hvv) & _).
  (* the integer nearest to v *)
  rewrite (round_near fv n).
  - apply wrap16_small. lia.
  - exact Hvn.
  - replace (IZR n) with (X + B) by (unfold X, B; ring).
    rewrite Hvv, Hsv, Hrv, Hav, Hmv, Htv, Hqv, Hdv, Hwv.
    apply (roundtrip_real_error X S B P W r1 r2 r3 r4 r5 r6 r7 r8 r9);
      assumption.
Qed.

(** At the first calibration point the subtraction gives zero. *)
Lemma SFsub_diag (x : spec_float) :
  B32.pnormal x -> SFsub 24 128 x x = S754_zero false.
Proof.
  intros (m & e & -> & _). cbn [SFsub cond_Zopp].
  rewrite Z.sub_diag. reflexivity.
Qed.

(** The round trip of the first calibration point itself: every
    intermediate result is exact. *)
Lemma roundtrip_binary32_at_p1
      (Rself : R_Click spec_float) (Tself : T_Click spec_float) :
  T_calib_ Tself = calib_ Rself ->
  B32.pnormal (p1_mA (calib_ Rself)) -> B32.pnormal (p2_mA (calib_ Rself)) ->
  2 <= B32.val (p1_mA (calib_ Rself)) <= 6 ->
  18 <= B32.val (p2_mA (calib_ Rself)) <= 22 ->
  (0 <= p1_bitval (calib_ Rself) < p2_bitval (calib_ Rself))%Z ->
  (p2_bitval (calib_ Rself) <= 65535)%Z ->
  mA2bitval Tself (bitval2mA_current Rself (Fof_int (p1_bitval (calib_ Rself))))
  = p1_bitval (calib_ Rself).
Proof.
  intros HT. unfold mA2bitval, bitval2mA_current. rewrite HT.
  destruct (calib_ Rself) as [p1 p2 b1 b2].
  cbn [p1_mA p2_mA p1_bitval p2_bitval Fadd Fsub Fmul Fdiv Fof_int Fround
       binary32].
  intros Hp1 Hp2 HP1 HP2 Hb1 Hb2.
  unfold B32.add, B32.sub, B32.mul, B32.div, B32.prec, B32.emax.
  assert (Hw : B32.pnormal (SFsub 24 128 p2 p1)).
  { apply (sub_approx p2 p1 Hp2 Hp1). apply window. lra. }
  destruct Hw as (mw & ew & Hw & _). rewrite Hw.
  destruct (of_int_value (b2 - b1) ltac:(lia)) as [(mS & eS & HS & _) _].
  rewrite HS.
  assert (Hd : SFsub 24 128 (B32.of_int b1) (B32.of_int b1) = S754_zero false).
  { destruct (Z.eq_dec b1 0) as [-> | Hnz]; [ reflexivity | ].
    apply SFsub_diag. apply of_int_value. lia. }
  rewrite Hd. cbn [SFdiv SFmul xorb].
  assert (Hm : SFadd 24 128 p1 (S754_zero false) = p1)
    by (destruct Hp1 as (m1 & e1 & -> & _); reflexivity).
  rewrite Hm, (SFsub_diag p1 Hp1). cbn [SFdiv SFmul xorb].
  assert (Hv : B32.round (SFadd 24 128 (S754_zero false) (B32.of_int b1)) = b1).
  { destruct (Z.eq_dec b1 0) as [-> | Hnz]; [ reflexivity | ].
    destruct (of_int_value b1 ltac:(lia)) as [Hbn Hbv].
    assert (Hadd : SFadd 24 128 (S754_zero false) (B32.of_int b1) = B32.of_int b1)
      by (destruct Hbn as (mb & eb & -> & _); reflexivity).
    rewrite Hadd. apply round_near; [ exact Hbn | ].
    rewrite Hbv. replace (IZR b1 - IZR b1) with 0 by ring.
    rewrite Rabs_R0. lra. }
  rewrite Hv. apply wrap16_small. lia.
Qed.

End RoundTrip.

(** C7: in single precision, for a calibration whose first point lies
    between 2 and 6 mA, whose second point lies between 18 and 22 mA and whose
    bit values are strictly ordered, every raw value [x] of the calibrated
    span whose current is not in the fault range comes back from
    [mA2bitval (bitval2mA x)] as [x] itself, hence within one bit of [x]: the
    rounding errors of all operations add up to less than half a bit.  In
    exact arithmetic, for every ordered calibration and every (also
    fractional) value [x] of the span, the round trip is the integer nearest
    to [x]. *)
Theorem roundtrip_within_one_bit :
  (forall (Rself : R_Click spec_float) (Tself : T_Click spec_float) (x : Z),
      T_calib_ Tself = calib_ Rself ->
      B32.valid (p1_mA (calib_ Rself)) = true ->
      B32.valid (p2_mA (calib_ Rself)) = true ->
      (2 <= B32.val (p1_mA (calib_ Rself)) <= 6)%R ->
      (18 <= B32.val (p2_mA (calib_ Rself)) <= 22)%R ->
      0 <= p1_bitval (calib_ Rself) < p2_bitval (calib_ Rself) ->
      p2_bitval (calib_ Rself) <= 65535 ->
      p1_bitval (calib_ Rself) <= x <= p2_bitval (calib_ Rself) ->
      B32.is_nan (bitval2mA Rself (Fof_int x)) = false ->
      mA2bitval Tself (bitval2mA Rself (Fof_int x)) = x
      /\ x - 1 <= mA2bitval Tself (bitval2mA Rself (Fof_int x)) <= x + 1)
  /\ (forall (p1 p2 : R) (b1 b2 : Z)
             (Rself : R_Click Exact.xreal) (Tself : T_Click Exact.xreal) (x : R),
         calib_ Rself = mkCalibration (Exact.Real p1) (Exact.Real p2) b1 b2 ->
         T_calib_ Tself = calib_ Rself ->
         (p1 < p2)%R -> 0 <= b1 < b2 -> b2 <= 65535 ->
         (IZR b1 <= x <= IZR b2)%R ->
         bitval2mA Rself (Exact.Real x) <> NAN ->
         exists mA : R,
           bitval2mA Rself (Exact.Real x) = Exact.Real mA
           /\ (38 / 10 < mA)%R
           /\ (Rabs (IZR (mA2bitval Tself (Exact.Real mA)) - x) <= 1)%R).
Proof.
  split.
  - intros Rself Tself x HT Hv1 Hv2 HP1 HP2 Hb Hb2 Hx Hnum.
    assert (Hlow : (B32.pow2 (-125) <= 2)%R).
    { pose proof (pow2_le_mono (-125) 1 ltac:(lia)) as H.
      change (B32.pow2 1) with (2 * 1)%R in H. lra. }
    assert (Hp1 : B32.pnormal (p1_mA (calib_ Rself)))
      by (apply valid_pnormal; [ exact Hv1 | lra ]).
    assert (Hp2 : B32.pnormal (p2_mA (calib_ Rself)))
      by (apply valid_pnormal; [ exact Hv2 | lra ]).
    assert (Hsame : bitval2mA Rself (Fof_int x)
                    = bitval2mA_current Rself (Fof_int x)).
    { destruct (bitval2mA_cases Rself (Fof_int x)) as [Hfault | (Heq & _)];
        [ | exact Heq ].
      rewrite Hfault in Hnum. discriminate. }
    rewrite Hsame.
    assert (Hback : mA2bitval Tself (bitval2mA_current Rself (Fof_int x)) = x).
    { destruct (Z.eq_dec x (p1_bitval (calib_ Rself))) as [-> | Hne].
      - apply roundtrip_binary32_at_p1; assumption.
      - apply roundtrip_binary32_inside; try assumption; lia. }
    rewrite Hback. split; [ reflexivity | lia ].
  - intros p1 p2 b1 b2 Rself Tself x HR HT Hp Hb Hb2 Hx Hnum.
    destruct (roundtrip_exact p1 p2 b1 b2 Rself Tself x HR HT Hp Hb Hb2 Hx Hnum)
      as (mA & HmA & Hgt & _ & Hnear).
    exists mA. split; [ exact HmA | split; [ exact Hgt | lra ] ].
Qed.

(** ** The theorems at work on concrete set-ups *)

(** A poll 2000 us after construction seeds the filter with the reading. *)
Lemma poll_EMA_seeds_once_then_blends_witness :
  due Demo.receiver (Demo.world 2000) = true
  /\ fst (fst (poll_EMA Demo.receiver (Demo.world 2000))) = true
  /\ EMA_at_startup_ (snd (fst (poll_EMA Demo.receiver (Demo.world 2000)))) = false
  /\ EMA_bitval_ (snd (fst (poll_EMA Demo.receiver (Demo.world 2000))))
     = Fof_int (fst (read_bitval Demo.receiver (Demo.world 2000))).
Proof.
  destruct poll_EMA_seeds_once_then_blends as [Hsample _].
  assert (Hdue : due Demo.receiver (Demo.world 2000) = true)
    by (vm_compute; reflexivity).
  destruct (Hsample _ _ _ Demo.receiver (Demo.world 2000) Hdue)
    as (Htrue & Hflag & Hseed & _).
  split; [ exact Hdue | split; [ exact Htrue | split; [ exact Hflag | ] ] ].
  apply Hseed. reflexivity.
Defined.

(** The counter wrapped between the time stamp and the poll: 500 us. *)
Lemma poll_EMA_elapsed_wraparound_safe_witness :
  EMA_tick_ Demo.late_receiver = wrap32 (2 ^ 32 - 100)
  /\ 0 <= (2 ^ 32 + 400) - (2 ^ 32 - 100) < 2 ^ 32
  /\ (wrap32 (micros_now (Demo.world (2 ^ 32 + 400)))
      - EMA_tick_ Demo.late_receiver) mod 2 ^ 32 = 500.
Proof.
  split; [ reflexivity | split; [ lia | ] ].
  destruct (poll_EMA_elapsed_wraparound_safe
              Demo.late_receiver (Demo.world (2 ^ 32 + 400)))
    as (_ & _ & Htrue).
  rewrite (Htrue (2 ^ 32 - 100) (2 ^ 32 + 400)); [ reflexivity | | | lia ];
    reflexivity.
Defined.

(** The slave answers [0x0C], [0x80], the framing of 1600. *)
Lemma read_bitval_reconstructs_reading_witness :
  0 <= 0 < 8 /\ 0 <= 1600 < 4096 /\ 0 <= 0 < 2
  /\ (wrap8 (miso (Demo.world 0) (transfers (Demo.world 0))),
      wrap8 (miso (Demo.world 0) (S (transfers (Demo.world 0)))))
     = MCP3201_answer 0 1600 0
  /\ fst (read_bitval Demo.receiver (Demo.world 0)) = 1600.
Proof.
  destruct (read_bitval_reconstructs_reading Demo.receiver (Demo.world 0))
    as (_ & _ & _ & _ & Hframe).
  split; [ lia | split; [ lia | split; [ lia | split; [ reflexivity | ] ] ] ].
  apply (Hframe 0 1600 0); [ lia | lia | lia | reflexivity ].
Defined.

(** 30 mA asks for the bit value 6000, which does not fit in 12 bits. *)
Lemma set_mA_high_byte_keeps_config_bits_witness :
  mA2bitval Demo.transmitter (Demo.f32 30 1) = 6000
  /\ exists hi lo : Z,
       sent_bytes (trace (snd (set_mA (Demo.f32 30 1) Demo.transmitter
                                      (Demo.world 0))))
       = [hi; lo]
       /\ Z.shiftr hi 4 = 3
       /\ Z.testbit hi 0 = Z.testbit 6000 8.
Proof.
  split; [ vm_compute; reflexivity | ].
  destruct (set_mA_high_byte_keeps_config_bits
              (Demo.f32 30 1) Demo.transmitter (Demo.world 0))
    as (hi & lo & Hsent & _ & _ & Hconfig & _ & Hdata & _).
  exists hi, lo.
  split; [ exact Hsent | split; [ exact Hconfig | ] ].
  rewrite (Hdata 0) by lia.
  replace (mA2bitval Demo.transmitter (Demo.f32 30 1)) with 6000
    by (vm_compute; reflexivity).
  reflexivity.
Defined.

(** The scenarios of the specification: a reading of 1600 is 8 mA; a reading
    of 0 is a current below the threshold and comes out as the sentinel. *)
Lemma bitval2mA_fault_classification_witness :
  B32.is_nan (bitval2mA_current Demo.receiver (Fof_int 1600)) = false
  /\ B32.leb (bitval2mA_current Demo.receiver (Fof_int 1600)) R_CLICK_FAULT_mA
     = false
  /\ bitval2mA Demo.receiver (Fof_int 1600) = Fof_int 8
  /\ B32.is_nan (bitval2mA_current Demo.receiver (Fof_int 0)) = false
  /\ B32.leb (bitval2mA_current Demo.receiver (Fof_int 0)) R_CLICK_FAULT_mA
     = true
  /\ bitval2mA Demo.receiver (Fof_int 0) = NAN.
Proof.
  destruct (bitval2mA_fault_classification Demo.receiver) as [Hclass _].
  assert (H1 : B32.is_nan (bitval2mA_current Demo.receiver (Fof_int 1600)) = false)
    by (vm_compute; reflexivity).
  assert (H2 : B32.leb (bitval2mA_current Demo.receiver (Fof_int 1600))
                       R_CLICK_FAULT_mA = false)
    by (vm_compute; reflexivity).
  assert (H3 : B32.is_nan (bitval2mA_current Demo.receiver (Fof_int 0)) = false)
    by (vm_compute; reflexivity).
  assert (H4 : B32.leb (bitval2mA_current Demo.receiver (Fof_int 0))
                       R_CLICK_FAULT_mA = true)
    by (vm_compute; reflexivity).
  destruct (Hclass (Fof_int 1600) H1) as (_ & Hkeep & _).
  destruct (Hclass (Fof_int 0) H3) as (Hfault & _ & _).
  split; [ exact H1 | split; [ exact H2 | split ] ].
  - rewrite (Hkeep H2). vm_compute. reflexivity.
  - split; [ exact H3 | split; [ exact H4 | exact (Hfault H4) ] ].
Defined.

(** Two polls that come too early leave the filter seeding. *)
Lemma seeding_filter_reads_as_fault_witness :
  sampled (fst (fst (R_run Demo.early_calls Demo.receiver (Demo.world 0))))
  = false
  /\ get_EMA_bitval (snd (fst (R_run Demo.early_calls Demo.receiver (Demo.world 0))))
     = NAN
  /\ get_EMA_mA (snd (fst (R_run Demo.early_calls Demo.receiver (Demo.world 0))))
     = NAN.
Proof.
  assert (Hquiet : sampled (fst (fst (R_run Demo.early_calls Demo.receiver
                                            (Demo.world 0)))) = false)
    by (vm_compute; reflexivity).
  destruct (seeding_filter_reads_as_fault
              binary32_exp 0 5 Demo.calib 2000 (Demo.f32 10 1) (Demo.world 0)
              Demo.receiver Demo.early_calls (Demo.world 0)
              (or_intror eq_refl) Hquiet)
    as (Hbitval & HmA & _).
  split; [ exact Hquiet | split; [ exact Hbitval | exact HmA ] ].
Defined.

(** A 10 Hz filter sampled every 2000 us, and once after 4000 us. *)
Lemma EMA_alpha_recomputed_from_obtained_interval_witness :
  (0 < 10)%R /\ 0 < 2000
  /\ (EMA_alpha (ops := exact) (2 * 2000)
                (Exact.Real 10 * Fliteral 1 1000000)%flt
      >? EMA_alpha (ops := exact) 2000
                   (Exact.Real 10 * Fliteral 1 1000000)%flt)%flt = true.
Proof.
  destruct EMA_alpha_recomputed_from_obtained_interval as (_ & _ & _ & Htwice).
  assert (Hcutoff : (0 < 10)%R) by lra.
  split; [ exact Hcutoff | split; [ lia | ] ].
  apply (Htwice 10%R 2000 Hcutoff). lia.
Defined.

(** The reading 1600 under the pressure logger's calibration
    [{4.11, 20.02, 830, 4002}] in single precision, and under
    [{4.0, 20.0, 800, 4000}] in exact arithmetic. *)
Lemma roundtrip_within_one_bit_witness :
  (T_calib_ Demo.logger_loopback = calib_ Demo.logger
   /\ B32.is_nan (bitval2mA Demo.logger (Fof_int 1600)) = false
   /\ mA2bitval Demo.logger_loopback (bitval2mA Demo.logger (Fof_int 1600))
      = 1600)
  /\ (bitval2mA Demo.exact_receiver (Exact.Real 1600) <> NAN
      /\ exists mA : R,
           bitval2mA Demo.exact_receiver (Exact.Real 1600) = Exact.Real mA
           /\ (38 / 10 < mA)%R
           /\ (Rabs (IZR (mA2bitval Demo.exact_transmitter (Exact.Real mA))
                     - 1600) <= 1)%R).
Proof.
  pose proof roundtrip_within_one_bit as [Hsingle Hexact].
  split.
  - assert (H1 : B32.val (p1_mA (calib_ Demo.logger))
                 = (8619295 / 2097152)%R).
    { change (p1_mA (calib_ Demo.logger))
        with (S754_finite false 8619295 (-21)).
      unfold B32.val, B32.pow2. cbn [cond_Zopp]. simpl powerRZ. lra. }
    assert (H2 : B32.val (p2_mA (calib_ Demo.logger))
                 = (10496246 / 524288)%R).
    { change (p2_mA (calib_ Demo.logger))
        with (S754_finite false 10496246 (-19)).
      unfold B32.val, B32.pow2. cbn [cond_Zopp]. simpl powerRZ. lra. }
    assert (Hnum : B32.is_nan (bitval2mA Demo.logger (Fof_int 1600)) = false)
      by (vm_compute; reflexivity).
    split; [ reflexivity | split; [ exact Hnum | ] ].
    apply (Hsingle Demo.logger Demo.logger_loopback 1600).
    + reflexivity.
    + vm_compute. reflexivity.
    + vm_compute. reflexivity.
    + rewrite H1. lra.
    + rewrite H2. lra.
    + vm_compute. split; [ discriminate | reflexivity ].
    + vm_compute. discriminate.
    + vm_compute. split; discriminate.
    + exact Hnum.
  - assert (Hnum : bitval2mA Demo.exact_receiver (Exact.Real 1600) <> NAN).
    { unfold bitval2mA, bitval2mA_current. rewrite exact_fault_threshold.
      change (calib_ Demo.exact_receiver) with Demo.exact_calib.
      unfold Demo.exact_calib.
      cbn [p1_mA p2_mA p1_bitval p2_bitval Fadd Fsub Fmul Fdiv Fof_int Fgt
           exact Exact.lift2].
      unfold Exact.div.
      change (4000 - 800) with 3200.
      destruct (Req_dec_T 3200 0) as [Hzero | _]; [ lra | ].
      cbn [Exact.lift2 Exact.gt].
      destruct (Rlt_dec (38 / 10) (4 + (1600 - 800) / 3200 * (20 - 4)))
        as [_ | Hnot];
        [ cbn [NAN exact]; intros Habs; discriminate Habs
        | exfalso; apply Hnot; lra ]. }
    split; [ exact Hnum | ].
    apply (Hexact 4%R 20%R 800 4000 Demo.exact_receiver Demo.exact_transmitter
                  1600%R).
    + reflexivity.
    + reflexivity.
    + lra.
    + lia.
    + lia.
    + split; lra.
    + exact Hnum.
Defined.

(** ** Programs of receiver calls *)

Section ProgramFacts.

Context {F : Type} {ops : FloatOps F} {libm : FloatExp F}.

(** What one call does to the world: it appends one block to the trace. *)
Lemma R_do_bus (c : R_call F) (self : R_Click F) (w : World) :
  let r := R_do c self w in
  let n := R_exchange_of c (fst (fst r)) in
  exists blk : list event,
    trace (snd r) = trace w ++ blk
    /\ (forall rest : list event,
          R_bus_exchanges (CS_pin_ self) (blk ++ rest)
          = option_map (Nat.add n) (R_bus_exchanges (CS_pin_ self) rest))
    /\ sent_bytes blk = repeat 255 (2 * n)
    /\ transfers (snd r) = (transfers w + 2 * n)%nat
    /\ miso (snd r) = miso w
    /\ micros_now (snd r) = micros_now w.
Proof.
  cbv zeta.
  assert (Hnone :
            exists blk : list event,
              trace w = trace w ++ blk
              /\ (forall rest : list event,
                    R_bus_exchanges (CS_pin_ self) (blk ++ rest)
                    = option_map (Nat.add 0) (R_bus_exchanges (CS_pin_ self) rest))
              /\ sent_bytes blk = repeat 255 (2 * 0)
              /\ transfers w = (transfers w + 2 * 0)%nat
              /\ miso w = miso w
              /\ micros_now w = micros_now w).
  { exists []. rewrite app_nil_r.
    repeat split; try (cbn; lia).
    intros rest. cbn [app]. destruct (R_bus_exchanges _ rest); reflexivity. }
  assert (Hexchange : forall rx_HI rx_LO : Z,
            exists blk : list event,
              trace w ++ [SPI_beginTransaction_ev (SPI_clock_ self);
                          digitalWrite_ev (CS_pin_ self) LOW;
                          SPI_transfer_ev 255 rx_HI;
                          SPI_transfer_ev 255 rx_LO;
                          digitalWrite_ev (CS_pin_ self) HIGH;
                          SPI_endTransaction_ev]
              = trace w ++ blk
              /\ (forall rest : list event,
                    R_bus_exchanges (CS_pin_ self) (blk ++ rest)
                    = option_map (Nat.add 1) (R_bus_exchanges (CS_pin_ self) rest))
              /\ sent_bytes blk = repeat 255 (2 * 1)
              /\ S (S (transfers w)) = (transfers w + 2 * 1)%nat
              /\ miso w = miso w
              /\ micros_now w = micros_now w).
  { intros rx_HI rx_LO. eexists. split; [ reflexivity | ].
    repeat split; try (cbn; lia).
    intros rest. cbn [app R_bus_exchanges LOW HIGH].
    rewrite Z.eqb_refl. cbn [andb Z.eqb Pos.eqb].
    destruct (R_bus_exchanges _ rest); reflexivity. }
  destruct c; cbn -[read_bitval poll_EMA bitval2mA R_bus_exchanges Nat.mul];
    unfold bind, ret, read_mA, bind, ret;
    try rewrite !read_bitval_run;
    cbn -[poll_EMA bitval2mA reconstruct_bitval wrap8 R_bus_exchanges Nat.mul];
    try apply Hnone; try apply Hexchange.
  - (* begin *)
    unfold R_begin, bind, SPI_begin, digitalWrite, pinMode_OUTPUT, emit.
    cbn -[R_bus_exchanges Nat.mul]. repeat rewrite <- app_assoc.
    cbn -[R_bus_exchanges Nat.mul].
    eexists. split; [ reflexivity | ].
    repeat split; try (cbn; lia).
    intros rest. cbn [app R_bus_exchanges HIGH].
    rewrite Z.eqb_refl. cbn [andb].
    destruct (R_bus_exchanges _ rest); reflexivity.
  - (* poll_EMA *)
    destruct (due self w) eqn:Hdue.
    + rewrite (poll_EMA_sample self w Hdue). rewrite read_bitval_run.
      cbn -[R_bus_exchanges Nat.mul wrap8 wrap32 EMA_alpha reconstruct_bitval].
      apply Hexchange.
    + rewrite (poll_EMA_idle self w Hdue).
      cbn -[R_bus_exchanges Nat.mul]. apply Hnone.
Qed.


(** What no call changes, and the one call that changes the clock. *)
Lemma R_do_frame (c : R_call F) (self : R_Click F) (w : World) :
  let self' := snd (fst (R_do c self w)) in
  CS_pin_ self' = CS_pin_ self
  /\ calib_ self' = calib_ self
  /\ EMA_interval_ self' = EMA_interval_ self
  /\ EMA_LP_freq_ self' = EMA_LP_freq_ self
  /\ SPI_clock_ self' = R_last_clock [(0, c)] (SPI_clock_ self).
Proof.
  cbv zeta.
  destruct c; cbn -[read_bitval poll_EMA bitval2mA wrap32];
    unfold bind, ret, read_mA, bind, ret;
    try rewrite !read_bitval_run;
    cbn -[poll_EMA bitval2mA reconstruct_bitval wrap8 wrap32];
    try (repeat split; reflexivity).
  destruct (due self w) eqn:Hdue.
  - rewrite (poll_EMA_sample self w Hdue). repeat split; reflexivity.
  - rewrite (poll_EMA_idle self w Hdue). repeat split; reflexivity.
Qed.

(** X1: whatever sequence of its methods a program calls on a receiver,
    and whenever, what the receiver adds to the board's trace is made of
    complete blocks only: [begin()] blocks, and exchanges of exactly two
    bytes, each [0xFF], each between chip select low and chip select high
    inside a transaction of its own.  The number of exchanges is the number
    of [read_bitval], [read_mA] and sampling [poll_EMA] calls; the chip is
    never left selected and no other pin is touched. *)
Theorem R_run_bus_activity (calls : list (Z * R_call F)) :
  forall (self : R_Click F) (w : World),
    let result := R_run calls self w in
    let n := R_exchanges calls (fst (fst result)) in
    exists added : list event,
      trace (snd result) = trace w ++ added
      /\ R_bus_exchanges (CS_pin_ self) added = Some n
      /\ sent_bytes added = repeat 255 (2 * n)
      /\ transfers (snd result) = (transfers w + 2 * n)%nat
      /\ miso (snd result) = miso w
      /\ length (fst (fst result)) = length calls.
Proof.
  induction calls as [ | [t c] rest IH ]; intros self w; cbv zeta.
  - exists []. cbn. rewrite app_nil_r. repeat split; lia.
  - rewrite R_run_cons. cbn [fst snd R_exchanges].
    set (w0 := snd (at_time t w)).
    destruct (R_do_bus c self w0)
      as (blk & Htrace & Hparse & Hsent & Htransfers & Hmiso & _).
    destruct (R_do_frame c self w0) as (Hpin & _).
    specialize (IH (snd (fst (R_do c self w0))) (snd (R_do c self w0))).
    cbv zeta in IH.
    destruct IH as (added & Htrace' & Hparse' & Hsent' & Htransfers' & Hmiso' & Hlen).
    set (n1 := R_exchange_of c (fst (fst (R_do c self w0)))) in *.
    set (n2 := R_exchanges rest _) in *.
    exists (blk ++ added).
    split; [ | split; [ | split; [ | split; [ | split ] ] ] ].
    + rewrite Htrace', Htrace. unfold w0. cbn [at_time snd trace].
      symmetry. apply app_assoc.
    + rewrite Hparse. rewrite Hpin in Hparse'. rewrite Hparse'. reflexivity.
    + rewrite sent_bytes_app, Hsent, Hsent'. rewrite <- repeat_app.
      f_equal. lia.
    + rewrite Htransfers', Htransfers. unfold w0. cbn [at_time snd transfers].
      lia.
    + rewrite Hmiso', Hmiso. reflexivity.
    + cbn [length]. rewrite Hlen. reflexivity.
Qed.

Lemma R_run_EMA_interval (calls : list (Z * R_call F)) :
  forall (self : R_Click F) (w : World),
    EMA_interval_ (snd (fst (R_run calls self w))) = EMA_interval_ self.
Proof.
  induction calls as [ | [t c] rest IH ]; intros self w.
  - reflexivity.
  - rewrite R_run_cons. cbn [fst snd]. rewrite IH.
    apply (R_do_frame c self (snd (at_time t w))).
Qed.

(** X2: no sequence of method calls changes what the constructor fixed: the
    chip-select pin, the calibration, the oversampling interval and the
    cut-off constant stay as they were, and the SPI clock is the one the
    last [set_SPI_clock] asked for (the constructor's if there was none). *)
Theorem R_run_keeps_configuration (calls : list (Z * R_call F)) :
  forall (self : R_Click F) (w : World),
    let self' := snd (fst (R_run calls self w)) in
    CS_pin_ self' = CS_pin_ self
    /\ calib_ self' = calib_ self
    /\ EMA_interval_ self' = EMA_interval_ self
    /\ EMA_LP_freq_ self' = EMA_LP_freq_ self
    /\ SPI_clock_ self' = R_last_clock calls (SPI_clock_ self).
Proof.
  induction calls as [ | [t c] rest IH ]; intros self w; cbv zeta.
  - repeat split; reflexivity.
  - rewrite R_run_cons. cbn [fst snd].
    set (w0 := snd (at_time t w)).
    destruct (R_do_frame c self w0) as (Hpin & Hcalib & Hitv & Hlp & Hclk).
    specialize (IH (snd (fst (R_do c self w0))) (snd (R_do c self w0))).
    cbv zeta in IH. destruct IH as (Hpin' & Hcalib' & Hitv' & Hlp' & Hclk').
    rewrite Hpin', Hcalib', Hitv', Hlp', Hclk', Hpin, Hcalib, Hitv, Hlp, Hclk.
    repeat split; try reflexivity.
    destruct c; reflexivity.
Qed.

(** *** The cadence of the samples *)

Lemma poll_EMA_sample_interval (self : R_Click F) (w : World) :
  due self w = true ->
  EMA_interval_ self
  <= wrap32 (wrap32 (micros_now w) - EMA_tick_ self) < 2 ^ 32.
Proof.
  unfold due. intros Hdue. rewrite Z.geb_leb in Hdue. apply Z.leb_le in Hdue.
  pose proof (wrap32_range (wrap32 (micros_now w) - EMA_tick_ self)). lia.
Qed.

Lemma R_do_cadence_inv (c : R_call F) (self : R_Click F) (w : World) :
  cadence_inv self -> cadence_inv (snd (fst (R_do c self w))).
Proof.
  intros Hinv.
  destruct c; cbn -[read_bitval poll_EMA bitval2mA wrap32];
    unfold bind, ret, read_mA, bind, ret;
    try rewrite !read_bitval_run;
    cbn -[poll_EMA bitval2mA reconstruct_bitval wrap8 wrap32];
    try exact Hinv.
  destruct (due self w) eqn:Hdue.
  - rewrite (poll_EMA_sample self w Hdue). cbn [fst snd].
    intros _. cbn [EMA_interval_ EMA_obtained_interval_].
    apply poll_EMA_sample_interval. exact Hdue.
  - rewrite (poll_EMA_idle self w Hdue). exact Hinv.
Qed.

Lemma R_run_cadence_inv (calls : list (Z * R_call F)) :
  forall (self : R_Click F) (w : World),
    cadence_inv self -> cadence_inv (snd (fst (R_run calls self w))).
Proof.
  induction calls as [ | [t c] rest IH ]; intros self w Hinv.
  - exact Hinv.
  - rewrite R_run_cons. cbn [fst snd].
    apply IH. apply R_do_cadence_inv. exact Hinv.
Qed.

(** X3: a sampling [poll_EMA] stamps the filter with the time of the call.
    From then on a call is refused as long as the wrapped clock is less than
    the configured interval past that stamp, and accepted as soon as it is
    not; so the obtained interval a sample reports is never below the
    configured one.  With a configured interval of 0 every call samples.  In
    any program run on a freshly constructed receiver, once a sample was
    taken [get_EMA_obtained_interval] is at least the configured interval. *)
Theorem poll_EMA_sampling_cadence :
  (forall (self : R_Click F) (w : World),
      due self w = true ->
      let self' := snd (fst (poll_EMA self w)) in
      EMA_tick_ self' = wrap32 (micros_now w)
      /\ EMA_interval_ self <= get_EMA_obtained_interval self' < 2 ^ 32
      /\ (forall w2 : World,
            wrap32 (wrap32 (micros_now w2) - wrap32 (micros_now w))
            < EMA_interval_ self ->
            poll_EMA self' w2 = (false, self', w2))
      /\ (forall w2 : World,
            EMA_interval_ self
            <= wrap32 (wrap32 (micros_now w2) - wrap32 (micros_now w)) ->
            fst (fst (poll_EMA self' w2)) = true))
  /\ (forall (self : R_Click F) (w : World),
         EMA_interval_ self <= 0 -> fst (fst (poll_EMA self w)) = true)
  /\ (forall (junk CS_pin : Z) (calib : RT_Click_Calibration F)
             (EMA_interval : Z) (EMA_LP_freq : F) (w0 : World)
             (calls : list (Z * R_call F)) (w : World),
         let self0 :=
           fst (R_Click_new_EMA junk CS_pin calib EMA_interval EMA_LP_freq w0) in
         let result := R_run calls self0 w in
         sampled (fst (fst result)) = true ->
         wrap32 EMA_interval
         <= get_EMA_obtained_interval (snd (fst result)) < 2 ^ 32).
Proof.
  split; [ | split ].
  - intros self w Hdue. cbv zeta.
    rewrite (poll_EMA_sample self w Hdue). cbn [fst snd].
    unfold get_EMA_obtained_interval. cbn [EMA_tick_ EMA_obtained_interval_].
    split; [ reflexivity | ].
    split; [ apply poll_EMA_sample_interval; exact Hdue | ].
    split.
    + intros w2 Hearly. apply poll_EMA_idle.
      unfold due. cbn [EMA_tick_ EMA_interval_].
      rewrite Z.geb_leb. apply Z.leb_gt. exact Hearly.
    + intros w2 Hlate. rewrite poll_EMA_due. cbn [EMA_tick_ EMA_interval_].
      rewrite Z.geb_leb. apply Z.leb_le. exact Hlate.
  - intros self w Hzero. rewrite poll_EMA_due.
    rewrite Z.geb_leb. apply Z.leb_le.
    pose proof (wrap32_range (wrap32 (micros_now w) - EMA_tick_ self)). lia.
  - intros junk CS_pin calib EMA_interval EMA_LP_freq w0 calls w. cbv zeta.
    set (self0 := fst (R_Click_new_EMA junk CS_pin calib EMA_interval
                         EMA_LP_freq w0)).
    intros Hsampled.
    assert (Hinv : cadence_inv self0) by (intros Habs; discriminate Habs).
    apply (R_run_cadence_inv calls self0 w) in Hinv.
    pose proof (R_run_EMA_interval calls self0 w) as Hitv.
    unfold cadence_inv in Hinv.
    rewrite (R_run_startup calls self0 w), Hsampled, Hitv in Hinv.
    apply Hinv. reflexivity.
Qed.

End ProgramFacts.

(** ** The transmitter's command *)

Section TransmitterFacts.

Context {F : Type} {ops : FloatOps F}.

(** X4: whatever current is asked for, [set_mA] clocks out two bytes that
    form the 16-bit command [0x3000 + (bitval mod 4096)], where [bitval] is
    the 16-bit result of [mA2bitval]: the converter receives the low twelve
    bits only.  [get_last_set_bitval] hands back all sixteen bits, so it
    agrees with what the converter received exactly when the bit value is
    below 4096. *)
Theorem set_mA_command_word (mA : F) (self : T_Click F) (w : World) :
  let bitval := mA2bitval self mA in
  let result := set_mA mA self w in
  exists hi lo : Z,
    sent_bytes (trace (snd result)) = sent_bytes (trace w) ++ [hi; lo]
    /\ 0 <= hi < 256 /\ 0 <= lo < 256
    /\ hi * 256 + lo = 12288 + bitval mod 4096
    /\ 0 <= bitval < 65536
    /\ get_last_set_bitval (fst result) = bitval
    /\ ((hi * 256 + lo) mod 4096 = get_last_set_bitval (fst result)
        <-> bitval < 4096).
Proof.
  cbv zeta. rewrite set_mA_run. cbn [fst snd trace get_last_set_bitval bitval_].
  set (bitval := mA2bitval self mA).
  assert (Hrange : 0 <= bitval < 65536).
  { unfold bitval, mA2bitval. apply wrap16_range. }
  exists (48 + (bitval / 256) mod 16), (bitval mod 256).
  assert (H16 : 0 <= (bitval / 256) mod 16 < 16) by (apply Z.mod_pos_bound; lia).
  assert (H256 : 0 <= bitval mod 256 < 256) by (apply Z.mod_pos_bound; lia).
  assert (Hword : (48 + (bitval / 256) mod 16) * 256 + bitval mod 256
                  = 12288 + bitval mod 4096).
  { pose proof (Z.div_mod bitval 256 ltac:(lia)) as H1.
    pose proof (Z.div_mod (bitval / 256) 16 ltac:(lia)) as H2.
    pose proof (Z.div_mod bitval 4096 ltac:(lia)) as H3.
    pose proof (Z.mod_pos_bound bitval 4096 ltac:(lia)) as H4.
    assert (Hq : bitval / 4096 = bitval / 256 / 16)
      by (rewrite Z.div_div by lia; reflexivity).
    lia. }
  split; [ rewrite sent_bytes_app; reflexivity | ].
  split; [ lia | ]. split; [ exact H256 | ]. split; [ exact Hword | ].
  split; [ exact Hrange | ]. split; [ reflexivity | ].
  rewrite Hword.
  pose proof (Z.mod_pos_bound bitval 4096 ltac:(lia)) as H4.
  replace (12288 + bitval mod 4096) with (bitval mod 4096 + 3 * 4096) by lia.
  rewrite Z.mod_add by lia. rewrite Z.mod_mod by lia.
  split.
  - intros Heq. lia.
  - intros Hlt. apply Z.mod_small. lia.
Qed.

End TransmitterFacts.

(** ** Programs of transmitter calls *)

Section TransmitterProgramFacts.

Context {F : Type} {ops : FloatOps F}.

Lemma T_run_cons (t : Z) (c : T_call F) (rest : list (Z * T_call F))
      (self : T_Click F) (w : World) :
  let w0 := snd (at_time t w) in
  let step := T_do c self w0 in
  let tail := T_run rest (snd (fst step)) (snd step) in
  T_run ((t, c) :: rest) self w
  = (fst (fst step) :: fst (fst tail), snd (fst tail), snd tail).
Proof.
  cbv zeta. cbn [T_run]. unfold bind at 1 2 3. cbn [at_time snd fst].
  unfold at_time.
  destruct (T_do c self _) as [[r self1] w1]. cbn [fst snd].
  destruct (T_run rest self1 w1) as [[rs self2] w2]. reflexivity.
Qed.

(** [mA2bitval] looks at the calibration only. *)
Lemma mA2bitval_calib (self self' : T_Click F) (mA : F) :
  T_calib_ self' = T_calib_ self -> mA2bitval self' mA = mA2bitval self mA.
Proof. intros Hcalib. unfold mA2bitval. rewrite Hcalib. reflexivity. Qed.

Lemma last_cons {A : Type} (l : list A) (a d : A) :
  last (a :: l) d = last l a.
Proof.
  revert a d. induction l as [ | b l IH ]; intros a d; [ reflexivity | ].
  change (last (a :: b :: l) d) with (last (b :: l) d).
  rewrite (IH b d), (IH b a). reflexivity.
Qed.

(** The [begin()] block parses to nothing. *)
Lemma T_bus_words_begin (pin : Z) (rest : list event) :
  T_bus_words pin
    (SPI_begin_ev :: digitalWrite_ev pin HIGH :: pinMode_OUTPUT_ev pin :: rest)
  = T_bus_words pin rest.
Proof. cbn [T_bus_words HIGH]. rewrite Z.eqb_refl. reflexivity. Qed.

(** The command block parses to its data word. *)
Lemma T_bus_words_command (pin clock bitval rx1 rx2 : Z) (rest : list event) :
  T_bus_words pin
    (SPI_beginTransaction_ev clock :: digitalWrite_ev pin LOW
       :: SPI_transfer_ev (48 + (bitval / 256) mod 16) rx1
       :: SPI_transfer_ev (bitval mod 256) rx2
       :: digitalWrite_ev pin HIGH :: SPI_endTransaction_ev :: rest)
  = option_map (cons (bitval mod 4096)) (T_bus_words pin rest).
Proof.
  cbn [T_bus_words LOW HIGH].
  pose proof (Z.mod_pos_bound (bitval / 256) 16 ltac:(lia)) as H16.
  pose proof (Z.mod_pos_bound bitval 256 ltac:(lia)) as H256.
  rewrite Z.eqb_refl. cbn [andb].
  assert (Hhi : (48 + (bitval / 256) mod 16) / 16 = 3).
  { replace (48 + (bitval / 256) mod 16)
      with ((bitval / 256) mod 16 + 3 * 16) by lia.
    rewrite Z.div_add by lia. rewrite Z.div_small by lia. reflexivity. }
  rewrite Hhi. cbn [Z.eqb Pos.eqb andb].
  assert (Hlo1 : (0 <=? bitval mod 256) = true) by (apply Z.leb_le; lia).
  assert (Hlo2 : (bitval mod 256 <? 256) = true) by (apply Z.ltb_lt; lia).
  rewrite Hlo1, Hlo2. cbn [andb].
  assert (Hword : (48 + (bitval / 256) mod 16) mod 16 * 256 + bitval mod 256
                  = bitval mod 4096).
  { replace (48 + (bitval / 256) mod 16)
      with ((bitval / 256) mod 16 + 3 * 16) by lia.
    rewrite Z.mod_add by lia. rewrite Z.mod_mod by lia.
    pose proof (Z.div_mod bitval 256 ltac:(lia)) as H1.
    pose proof (Z.div_mod (bitval / 256) 16 ltac:(lia)) as H2.
    pose proof (Z.div_mod bitval 4096 ltac:(lia)) as H3.
    pose proof (Z.mod_pos_bound bitval 4096 ltac:(lia)) as H4.
    assert (Hq : bitval / 4096 = bitval / 256 / 16)
      by (rewrite Z.div_div by lia; reflexivity).
    lia. }
  rewrite Hword. reflexivity.
Qed.

(** What one call does: to the object, and to the trace. *)
Lemma T_do_step (c : T_call F) (self : T_Click F) (w : World) :
  let r := T_do c self w in
  let self' := snd (fst r) in
  T_calib_ self' = T_calib_ self
  /\ T_CS_pin_ self' = T_CS_pin_ self
  /\ get_last_set_bitval self'
     = last (map (mA2bitval self) (T_currents [(0, c)]))
            (get_last_set_bitval self)
  /\ exists blk : list event,
       trace (snd r) = trace w ++ blk
       /\ forall rest : list event,
            T_bus_words (T_CS_pin_ self) (blk ++ rest)
            = option_map
                (app (map (fun mA => mA2bitval self mA mod 4096)
                          (T_currents [(0, c)])))
                (T_bus_words (T_CS_pin_ self) rest).
Proof.
  cbv zeta.
  assert (Hid : forall o : option (list Z), o = option_map (app []) o)
    by (intros [ l | ]; reflexivity).
  destruct c as [ hz | | mA | mA | ]; cbn [T_do T_currents map last].
  - unfold ret. cbn [fst snd T_set_SPI_clock T_calib_ T_CS_pin_
                     get_last_set_bitval bitval_].
    repeat split. exists []. rewrite app_nil_r. split; [ reflexivity | ].
    intros rest. apply Hid.
  - unfold bind, ret, T_begin, bind, SPI_begin, digitalWrite, pinMode_OUTPUT,
      emit.
    cbn -[set_mA mA2bitval LOW HIGH]. rewrite set_mA_run.
    cbn -[mA2bitval wrap8 Z.div Z.modulo Z.add T_bus_words LOW HIGH].
    repeat split.
    eexists. split.
    + repeat rewrite <- app_assoc. reflexivity.
    + intros rest.
      cbn [app]. rewrite T_bus_words_begin, T_bus_words_command.
      destruct (T_bus_words (T_CS_pin_ self) rest); reflexivity.
  - unfold ret. cbn [fst snd]. repeat split.
    exists []. rewrite app_nil_r. split; [ reflexivity | ].
    intros rest. apply Hid.
  - unfold bind, ret. rewrite set_mA_run.
    cbn -[mA2bitval wrap8 Z.div Z.modulo Z.add T_bus_words LOW HIGH].
    repeat split.
    eexists. split; [ reflexivity | ].
    intros rest. cbn [app]. rewrite T_bus_words_command.
    destruct (T_bus_words (T_CS_pin_ self) rest); reflexivity.
  - unfold ret. cbn [fst snd]. repeat split.
    exists []. rewrite app_nil_r. split; [ reflexivity | ].
    intros rest. apply Hid.
Qed.

Lemma T_currents_cons (t : Z) (c : T_call F) (rest : list (Z * T_call F)) :
  T_currents ((t, c) :: rest) = T_currents [(0, c)] ++ T_currents rest.
Proof. destruct c; reflexivity. Qed.

(** X5: whatever sequence of its methods a program calls on a
    transmitter, what it adds to the board's trace is made of complete
    blocks only ([begin()] blocks and framed two-byte commands with the
    configuration bits [0011]), and the data words the converter receives
    are, in order, the low twelve bits of [mA2bitval] of the currents the
    program asked for, 4 mA for each [begin()].  [get_last_set_bitval] is
    the 16-bit bit value of the last of them (what it was, if there was
    none); calibration and chip-select pin never change. *)
Theorem T_run_command_stream (calls : list (Z * T_call F)) :
  forall (self : T_Click F) (w : World),
    let result := T_run calls self w in
    let self' := snd (fst result) in
    T_calib_ self' = T_calib_ self
    /\ T_CS_pin_ self' = T_CS_pin_ self
    /\ get_last_set_bitval self'
       = last (map (mA2bitval self) (T_currents calls))
              (get_last_set_bitval self)
    /\ exists added : list event,
         trace (snd result) = trace w ++ added
         /\ T_bus_words (T_CS_pin_ self) added
            = Some (map (fun mA => mA2bitval self mA mod 4096)
                        (T_currents calls)).
Proof.
  induction calls as [ | [t c] rest IH ]; intros self w; cbv zeta.
  - cbn [T_run ret fst snd T_currents map last].
    repeat split. exists []. rewrite app_nil_r. split; reflexivity.
  - rewrite T_run_cons. cbn [fst snd].
    set (w0 := snd (at_time t w)).
    destruct (T_do_step c self w0)
      as (Hcalib & Hpin & Hlast & blk & Htrace & Hparse).
    specialize (IH (snd (fst (T_do c self w0))) (snd (T_do c self w0))).
    cbv zeta in IH.
    destruct IH as (Hcalib' & Hpin' & Hlast' & added & Htrace' & Hparse').
    set (self1 := snd (fst (T_do c self w0))) in *.
    assert (Hsame : forall mA : F, mA2bitval self1 mA = mA2bitval self mA)
      by (intros mA; apply mA2bitval_calib; exact Hcalib).
    assert (Hmap : map (mA2bitval self1) (T_currents rest)
                   = map (mA2bitval self) (T_currents rest))
      by (apply map_ext; exact Hsame).
    assert (Hmap' : map (fun mA => mA2bitval self1 mA mod 4096) (T_currents rest)
                    = map (fun mA => mA2bitval self mA mod 4096) (T_currents rest))
      by (apply map_ext; intros mA; rewrite Hsame; reflexivity).
    rewrite (T_currents_cons t c rest), !map_app.
    split; [ rewrite Hcalib'; exact Hcalib | ].
    split; [ rewrite Hpin'; exact Hpin | ].
    split.
    + rewrite Hlast', Hmap, Hlast.
      destruct c; cbn [T_currents map app last]; try reflexivity;
        symmetry; apply last_cons.
    + exists (blk ++ added). split.
      * rewrite Htrace', Htrace. unfold w0. cbn [at_time snd trace].
        symmetry. apply app_assoc.
      * rewrite Hparse. rewrite Hpin in Hparse'. rewrite Hparse', Hmap'.
        reflexivity.
Qed.

End TransmitterProgramFacts.

(** ** The moving average in exact arithmetic *)

Section ExactFilter.

Local Open Scope R_scope.


Lemma read_bitval_range {F : Type} {ops : FloatOps F} (self : R_Click F)
      (w : World) :
  (0 <= fst (read_bitval self w) <= 4095)%Z.
Proof.
  rewrite read_bitval_run. cbn [fst].
  pose proof (wrap8_range (miso w (transfers w))) as HH.
  pose proof (wrap8_range (miso w (S (transfers w)))) as HL.
  change (2 ^ 8)%Z with 256%Z in HH, HL.
  rewrite reconstruct_bitval_value by assumption.
  assert (H32 : (0 <= wrap8 (miso w (transfers w)) mod 32 < 32)%Z)
    by (apply Z.mod_pos_bound; lia).
  assert (HL2 : (0 <= wrap8 (miso w (S (transfers w))) / 2 < 128)%Z).
  { split; [ apply Z.div_pos; lia | apply Z.div_lt_upper_bound; lia ]. }
  lia.
Qed.






End ExactFilter.

(** *** The decay of the distance to the input *)

Section ExactDecay.

Local Open Scope R_scope.



End ExactDecay.

(** ** Edge cases in single precision *)

(** X8: a calibration whose two bit values are equal makes [bitval2mA]
    divide by zero.  Nothing is raised: the result is [NAN] or plus
    infinity, whatever the input; and it is plus infinity, which passes the
    fault test as a current, for every reading above the common bit value
    when [p2_mA] is above [p1_mA]. *)
Theorem bitval2mA_equal_bitvals (self : R_Click spec_float) :
  p1_bitval (calib_ self) = p2_bitval (calib_ self) ->
  (forall bitval : spec_float,
      bitval2mA self bitval = NAN
      \/ bitval2mA self bitval = S754_infinity false)
  /\ (forall x : Z,
        0 <= p1_bitval (calib_ self) < x -> x <= 65535 ->
        B32.is_number (p1_mA (calib_ self)) = true ->
        B32.pnormal (B32.sub (p2_mA (calib_ self)) (p1_mA (calib_ self))) ->
        bitval2mA self (Fof_int x) = S754_infinity false)
  /\ bitval2mA self (Fof_int (p1_bitval (calib_ self))) = NAN.
Proof.
  intros Heq.
  unfold bitval2mA, bitval2mA_current. rewrite <- Heq, Z.sub_diag.
  rewrite R_CLICK_FAULT_mA_binary32.
  destruct (calib_ self) as [p1 p2 b1 b2].
  cbn [p1_mA p2_mA p1_bitval p2_bitval Fadd Fsub Fmul Fdiv Fof_int Fgt NAN
       binary32].
  change (B32.of_int 0) with (S754_zero false).
  unfold B32.add, B32.mul, B32.div, B32.ltb.
  split; [ | split ].
  - intros bitval.
    destruct (B32.sub bitval (B32.of_int b1)) as [ [ | ] | [ | ] | | [ | ] md ed ];
      destruct (B32.sub p2 p1) as [ [ | ] | [ | ] | | [ | ] mw ew ];
      destruct p1 as [ [ | ] | [ | ] | | [ | ] m1 e1 ];
      cbn; auto.
  - intros x Hx Hx' Hp1 (mw & ew & Hw & _). rewrite Hw.
    assert (Hd : B32.pnormal (B32.sub (B32.of_int x) (B32.of_int b1))).
    { destruct (of_int_value x ltac:(lia)) as [Hxn Hxv].
      apply (sub_int_approx (B32.of_int x) b1 Hxn ltac:(lia)).
      rewrite Hxv, <- minus_IZR.
      assert (H1 : (1 <= IZR (x - b1))%R) by (apply IZR_le; lia).
      assert (H2 : (IZR (x - b1) <= 65535)%R) by (apply IZR_le; lia).
      lra. }
    destruct Hd as (md & ed & Hd & _). rewrite Hd.
    destruct p1 as [ [ | ] | [ | ] | | [ | ] m1 e1 ];
      try discriminate Hp1; reflexivity.
  - assert (Hd : B32.sub (B32.of_int b1) (B32.of_int b1) = S754_zero false
                 \/ B32.sub (B32.of_int b1) (B32.of_int b1) = S754_nan).
    { unfold B32.sub.
      destruct (B32.of_int b1) as [ [ | ] | [ | ] | | s m e ];
        cbn [SFsub Bool.eqb negb]; auto.
      left. rewrite Z.sub_diag. reflexivity. }
    destruct Hd as [-> | ->];
      destruct (B32.sub p2 p1) as [ [ | ] | [ | ] | | [ | ] mw ew ];
      destruct p1 as [ [ | ] | [ | ] | | [ | ] m1 e1 ];
      reflexivity.
Qed.
(** X9: a steady input leaves the filter where it is.  When the running
    value is the [float] of a bit value and the next sample is that same bit
    value, the blending step hands back the running value unchanged, bit for
    bit, whatever the smoothing factor, as long as that factor is a number:
    single precision adds no drift of its own. *)
Theorem poll_EMA_steady_input (libm : FloatExp spec_float)
        (self : R_Click spec_float) (w : World) :
  due self w = true ->
  EMA_at_startup_ self = false ->
  EMA_bitval_ self = Fof_int (fst (read_bitval self w)) ->
  B32.is_number
    (EMA_alpha (wrap32 (wrap32 (micros_now w) - EMA_tick_ self))
               (EMA_LP_freq_ self)) = true ->
  get_EMA_bitval (snd (fst (poll_EMA self w))) = get_EMA_bitval self.
Proof.
  intros Hdue Hsteady Hv Halpha.
  rewrite (poll_EMA_sample self w Hdue). cbn [fst snd].
  unfold get_EMA_bitval. cbn [EMA_bitval_]. rewrite Hsteady, Hv.
  set (d := fst (read_bitval self w)).
  set (alpha := EMA_alpha _ _) in *.
  cbn [Fadd Fsub Fmul Fof_int binary32].
  unfold B32.add, B32.sub, B32.mul, B32.prec, B32.emax.
  pose proof (read_bitval_range self w) as Hd. fold d in Hd.
  destruct (Z.eq_dec d 0) as [-> | Hnz].
  - change (B32.of_int 0) with (S754_zero false).
    destruct alpha as [ [ | ] | [ | ] | | [ | ] ma ea ];
      try discriminate Halpha; reflexivity.
  - destruct (of_int_value d ltac:(lia)) as [Hn _].
    rewrite (SFsub_diag _ Hn).
    destruct Hn as (m & e & -> & _).
    destruct alpha as [ [ | ] | [ | ] | | [ | ] ma ea ];
      try discriminate Halpha; reflexivity.
Qed.

(** X10: the constructor without filter parameters builds the very object
    the other constructor builds for an oversampling interval of 2000 us and
    a cut-off frequency of 10 Hz: the default [10e-6] is the [float]
    [10.f * 1e-6f]. *)
Theorem R_Click_new_defaults (junk CS_pin : Z)
        (calib : RT_Click_Calibration spec_float) (w : World) :
  R_Click_new junk CS_pin calib w
  = R_Click_new_EMA junk CS_pin calib 2000 (Fof_int 10) w.
Proof.
  unfold R_Click_new, R_Click_new_EMA, bind, micros, ret.
  assert (Hlp : Fliteral (ops := binary32) 1 100000
                = (Fof_int 10 * Fliteral 1 1000000)%flt)
    by (vm_compute; reflexivity).
  rewrite Hlp. reflexivity.
Qed.

(** ** The accuracy of the two conversions in single precision *)

Section Accuracy.

Local Open Scope R_scope.

Lemma Rabs_le_elim (x a : R) : Rabs x <= a -> - a <= x <= a.
Proof. unfold Rabs. destruct (Rcase_abs x); lra. Qed.

Lemma near_5 (x : R) :
  B32.near 5 x -> 1 - 6 / 10000000 <= x <= 1 + 6 / 10000000.
Proof. unfold B32.near, B32.ulp_rel. simpl pow. intros H. lra. Qed.

Lemma near_4_tight (x : R) :
  B32.near 4 x -> 1 - 5 / 10000000 <= x <= 1 + 5 / 10000000.
Proof. unfold B32.near, B32.ulp_rel. simpl pow. intros H. lra. Qed.

(** A positive normal number is well-formed. *)
Lemma pnormal_valid (x : spec_float) : B32.pnormal x -> B32.valid x = true.
Proof.
  intros (m & e & -> & Hm & He).
  unfold B32.valid, valid_binary, SpecFloat.bounded,
    SpecFloat.canonical_mantissa, SpecFloat.fexp, SpecFloat.emin,
    B32.prec, B32.emax.
  rewrite (pnormal_digits m Hm).
  apply Bool.andb_true_iff. split.
  - apply Z.eqb_eq. lia.
  - apply Z.leb_le. lia.
Qed.

(** The accumulated rounding error of [bitval2mA]: five operations. *)
Lemma bitval2mA_real_error (X S P W r1 r2 r3 r4 r5 : R) :
  1 <= X <= S -> 2 <= P <= 6 -> 12 <= W <= 20 ->
  B32.near 1 r1 -> B32.near 1 r2 -> B32.near 1 r3 -> B32.near 1 r4 ->
  B32.near 1 r5 ->
  Rabs ((P + X * r1 / S * r2 * (W * r3) * r4) * r5 - (P + X / S * W))
  <= / 50000.
Proof.
  intros HX HP HW H1 H2 H3 H4 H5.
  replace ((P + X * r1 / S * r2 * (W * r3) * r4) * r5 - (P + X / S * W))
    with (P * (r5 - 1) + X / S * W * (r1 * r2 * r3 * r4 * r5 - 1))
    by (field; lra).
  set (Psi := r1 * r2 * r3 * r4 * r5).
  set (T := X / S * W).
  assert (HT : 0 <= T <= 20).
  { unfold T. assert (HXS : 0 <= X / S <= 1).
    { split.
      - apply Rmult_le_pos; [ lra | left; apply Rinv_0_lt_compat; lra ].
      - apply Rmult_le_reg_r with (r := S); [ lra | ].
        unfold Rdiv. rewrite Rmult_assoc, Rinv_l by lra. lra. }
    nra. }
  assert (HPsi : 1 - 6 / 10000000 <= Psi <= 1 + 6 / 10000000).
  { apply near_5. unfold Psi.
    change 5%nat with (1 + 1 + 1 + 1 + 1)%nat.
    repeat apply near_mul; assumption. }
  assert (Hr5 : - / 8388608 <= r5 - 1 <= / 8388608).
  { destruct H5 as [Hl Hh]. unfold B32.ulp_rel in *. simpl pow in *. lra. }
  assert (HE1 : - (6 * / 8388608) <= P * (r5 - 1) <= 6 * / 8388608).
  { assert (P * (r5 - 1) <= P * / 8388608)
      by (apply Rmult_le_compat_l; lra).
    assert (P * (- / 8388608) <= P * (r5 - 1))
      by (apply Rmult_le_compat_l; lra).
    lra. }
  assert (HE2 : - (20 * (6 / 10000000)) <= T * (Psi - 1) <= 20 * (6 / 10000000)).
  { assert (T * (Psi - 1) <= T * (6 / 10000000))
      by (apply Rmult_le_compat_l; lra).
    assert (T * (- (6 / 10000000)) <= T * (Psi - 1))
      by (apply Rmult_le_compat_l; lra).
    lra. }
  clearbody T Psi.
  apply Rabs_le. split; lra.
Qed.

Lemma bitval2mA_current_inside (self : R_Click spec_float) (n : Z) :
  B32.pnormal (p1_mA (calib_ self)) -> B32.pnormal (p2_mA (calib_ self)) ->
  2 <= B32.val (p1_mA (calib_ self)) <= 6 ->
  18 <= B32.val (p2_mA (calib_ self)) <= 22 ->
  (0 <= p1_bitval (calib_ self) < n)%Z ->
  (n <= p2_bitval (calib_ self))%Z ->
  (p2_bitval (calib_ self) <= 65535)%Z ->
  B32.pnormal (bitval2mA_current self (Fof_int n))
  /\ Rabs (B32.val (bitval2mA_current self (Fof_int n))
           - exact_mA (calib_ self) (IZR n)) <= / 50000.
Proof.
  unfold bitval2mA_current, exact_mA.
  destruct (calib_ self) as [p1 p2 b1 b2].
  cbn [p1_mA p2_mA p1_bitval p2_bitval Fadd Fsub Fmul Fdiv Fof_int binary32].
  intros Hp1 Hp2 HP1 HP2 Hb1 Hn Hb2.
  unfold B32.add, B32.sub, B32.mul, B32.div, B32.prec, B32.emax.
  pose proof ulp_rel_small as Hu. unfold B32.ulp_rel in Hu.
  set (X := IZR n - IZR b1). set (S := IZR (b2 - b1)).
  set (P := B32.val p1) in *. set (W := B32.val p2 - P).
  assert (HX : 1 <= X <= S).
  { unfold X, S. rewrite <- minus_IZR. split; apply IZR_le; lia. }
  assert (HS : S <= 65535) by (unfold S; apply IZR_le; lia).
  assert (HW : 12 <= W <= 20) by (unfold W; lra).
  destruct (of_int_value n ltac:(lia)) as [Hxn Hxv].
  destruct (of_int_value (b2 - b1) ltac:(lia)) as [HSn HSv]. fold S in HSv.
  (* d = x - b1 *)
  set (fd := SFsub 24 128 (B32.of_int n) (B32.of_int b1)).
  assert (Hd : B32.approx fd X).
  { unfold fd, X. rewrite <- Hxv. apply sub_int_approx; [ exact Hxn | lia | ].
    rewrite Hxv. fold X. lra. }
  destruct (approx_elim fd X 1 65535 Hd ltac:(lra) ltac:(lra))
    as (Hdn & (r1 & Hr1 & Hdv) & Hdb).
  unfold B32.ulp_rel in Hdb.
  (* q = d / span *)
  set (fS := B32.of_int (b2 - b1)) in *.
  set (fq := SFdiv 24 128 fd fS).
  assert (Hqe : / 100000 <= B32.val fd / S <= 65536).
  { pose proof (div_bounds (B32.val fd) S (99 / 100) 65536 1 65535
                  ltac:(lra) ltac:(lra) ltac:(lra) ltac:(lra)). lra. }
  assert (Hq : B32.approx fq (B32.val fd / S)).
  { unfold fq. rewrite <- HSv. apply div_approx; [ exact Hdn | exact HSn | ].
    rewrite HSv. apply window. lra. }
  destruct (approx_elim fq _ (/ 100000) 65536 Hq ltac:(lra) Hqe)
    as (Hqn & (r2 & Hr2 & Hqv) & Hqb).
  unfold B32.ulp_rel in Hqb.
  (* w = p2 - p1 *)
  set (fw := SFsub 24 128 p2 p1).
  assert (Hw : B32.approx fw W).
  { unfold fw, W. apply sub_approx; [ exact Hp2 | exact Hp1 | ].
    apply window. fold P. lra. }
  destruct (approx_elim fw W 12 20 Hw ltac:(lra) HW)
    as (Hwn & (r3 & Hr3 & Hwv) & Hwb).
  unfold B32.ulp_rel in Hwb.
  (* t = q * w *)
  set (ft := SFmul 24 128 fq fw).
  assert (Hte : / 100000 <= B32.val fq * B32.val fw <= 1400000).
  { pose proof (mul_bounds (B32.val fq) (B32.val fw) (9 / 1000000) 65537
                  (119 / 10) 21
                  ltac:(lra) ltac:(lra) ltac:(lra) ltac:(lra)). lra. }
  assert (Ht : B32.approx ft (B32.val fq * B32.val fw)).
  { unfold ft. apply mul_approx; [ exact Hqn | exact Hwn | ].
    apply window. lra. }
  destruct (approx_elim ft _ (/ 100000) 1400000 Ht ltac:(lra) Hte)
    as (Htn & (r4 & Hr4 & Htv) & Htb).
  unfold B32.ulp_rel in Htb.
  (* mA = p1 + t *)
  set (fm := SFadd 24 128 p1 ft).
  assert (Hm : B32.approx fm (P + B32.val ft)).
  { unfold fm, P. apply add_approx; [ exact Hp1 | exact Htn | ].
    fold P. apply window. lra. }
  destruct (approx_elim fm _ 2 1500000 Hm ltac:(lra) ltac:(lra))
    as (Hmn & (r5 & Hr5 & Hmv) & _).
  split; [ exact Hmn | ].
  rewrite Hmv, Htv, Hqv, Hdv, Hwv.
  replace (IZR b2 - IZR b1) with S by (unfold S; rewrite minus_IZR; ring).
  fold X.
  apply (bitval2mA_real_error X S P W r1 r2 r3 r4 r5); assumption.
Qed.

Lemma bitval2mA_current_at_p1 (self : R_Click spec_float) :
  B32.pnormal (p1_mA (calib_ self)) -> B32.pnormal (p2_mA (calib_ self)) ->
  2 <= B32.val (p1_mA (calib_ self)) <= 6 ->
  18 <= B32.val (p2_mA (calib_ self)) <= 22 ->
  (0 <= p1_bitval (calib_ self) < p2_bitval (calib_ self))%Z ->
  (p2_bitval (calib_ self) <= 65535)%Z ->
  bitval2mA_current self (Fof_int (p1_bitval (calib_ self)))
  = p1_mA (calib_ self).
Proof.
  unfold bitval2mA_current.
  destruct (calib_ self) as [p1 p2 b1 b2].
  cbn [p1_mA p2_mA p1_bitval p2_bitval Fadd Fsub Fmul Fdiv Fof_int binary32].
  intros Hp1 Hp2 HP1 HP2 Hb1 Hb2.
  unfold B32.add, B32.sub, B32.mul, B32.div, B32.prec, B32.emax.
  assert (Hw : B32.pnormal (SFsub 24 128 p2 p1)).
  { apply (sub_approx p2 p1 Hp2 Hp1). apply window. lra. }
  destruct Hw as (mw & ew & Hw & _). rewrite Hw.
  destruct (of_int_value (b2 - b1) ltac:(lia)) as [(mS & eS & HS & _) _].
  rewrite HS.
  assert (Hd : SFsub 24 128 (B32.of_int b1) (B32.of_int b1) = S754_zero false).
  { destruct (Z.eq_dec b1 0) as [-> | Hnz]; [ reflexivity | ].
    apply SFsub_diag. apply of_int_value. lia. }
  rewrite Hd. cbn [SFdiv SFmul xorb].
  destruct Hp1 as (m1 & e1 & -> & _). reflexivity.
Qed.

(** X11: the accuracy of [bitval2mA].  For a calibration whose first point
    lies between 2 and 6 mA, whose second lies between 18 and 22 mA and whose
    bit values are strictly ordered, and for every bit value [x] of the
    calibrated span, the current computed in single precision is a normal
    number within 0.00002 mA of the exact line through the two calibration
    points; at the first calibration point it is [p1_mA] itself.  It is
    handed back as it is when the exact current is more than that margin
    above 3.8 mA, and [NAN] is handed back when it is that much below. *)
Theorem bitval2mA_accuracy (self : R_Click spec_float) (x : Z) :
  B32.valid (p1_mA (calib_ self)) = true ->
  B32.valid (p2_mA (calib_ self)) = true ->
  2 <= B32.val (p1_mA (calib_ self)) <= 6 ->
  18 <= B32.val (p2_mA (calib_ self)) <= 22 ->
  (0 <= p1_bitval (calib_ self) < p2_bitval (calib_ self))%Z ->
  (p2_bitval (calib_ self) <= 65535)%Z ->
  (p1_bitval (calib_ self) <= x <= p2_bitval (calib_ self))%Z ->
  let mA := bitval2mA_current self (Fof_int x) in
  let exact := exact_mA (calib_ self) (IZR x) in
  B32.pnormal mA
  /\ Rabs (B32.val mA - exact) <= / 50000
  /\ (x = p1_bitval (calib_ self) -> mA = p1_mA (calib_ self))
  /\ (38 / 10 + / 50000 < exact -> bitval2mA self (Fof_int x) = mA)
  /\ (exact <= 38 / 10 - / 50000 -> bitval2mA self (Fof_int x) = NAN).
Proof.
  intros Hv1 Hv2 HP1 HP2 Hb Hb2 Hx. cbv zeta.
  assert (Hlow : B32.pow2 (-125) <= 2).
  { pose proof (pow2_le_mono (-125) 1 ltac:(lia)) as H.
    change (B32.pow2 1) with (2 * 1) in H. lra. }
  assert (Hp1 : B32.pnormal (p1_mA (calib_ self)))
    by (apply valid_pnormal; [ exact Hv1 | lra ]).
  assert (Hp2 : B32.pnormal (p2_mA (calib_ self)))
    by (apply valid_pnormal; [ exact Hv2 | lra ]).
  assert (Hmain : B32.pnormal (bitval2mA_current self (Fof_int x))
                  /\ Rabs (B32.val (bitval2mA_current self (Fof_int x))
                           - exact_mA (calib_ self) (IZR x)) <= / 50000).
  { destruct (Z.eq_dec x (p1_bitval (calib_ self))) as [-> | Hne].
    - rewrite bitval2mA_current_at_p1 by assumption.
      split; [ exact Hp1 | ].
      unfold exact_mA.
      replace (IZR (p1_bitval (calib_ self)) - IZR (p1_bitval (calib_ self)))
        with 0 by ring.
      unfold Rdiv. rewrite !Rmult_0_l, Rplus_0_r.
      replace (B32.val (p1_mA (calib_ self)) - B32.val (p1_mA (calib_ self)))
        with 0 by ring.
      rewrite Rabs_R0. lra.
    - apply bitval2mA_current_inside; try assumption; lia. }
  destruct Hmain as [Hn Herr].
  split; [ exact Hn | ]. split; [ exact Herr | ].
  split; [ intros ->; apply bitval2mA_current_at_p1; assumption | ].
  set (mA := bitval2mA_current self (Fof_int x)) in *.
  set (exact := exact_mA (calib_ self) (IZR x)) in *.
  assert (Hnum : B32.is_nan mA = false)
    by (destruct Hn as (m & e & -> & _); reflexivity).
  assert (Hleb : B32.leb mA R_CLICK_FAULT_mA = true <-> B32.val mA <= 38 / 10).
  { rewrite (fault_threshold_is_3_8 mA (pnormal_valid mA Hn) Hnum).
    destruct Hn as (m & e & -> & _). reflexivity. }
  apply Rabs_le_elim in Herr.
  unfold bitval2mA. fold mA.
  rewrite (Fgt_is_not_leb mA _ Hnum fault_threshold_not_nan).
  split.
  - intros Habove.
    assert (Hcmp : B32.leb mA R_CLICK_FAULT_mA = false).
    { apply Bool.not_true_is_false. intros Hc. apply Hleb in Hc. lra. }
    rewrite Hcmp. reflexivity.
  - intros Hbelow.
    assert (Hcmp : B32.leb mA R_CLICK_FAULT_mA = true) by (apply Hleb; lra).
    rewrite Hcmp. reflexivity.
Qed.

(** *** From current to bit value *)

Lemma pow2_minus_22 : B32.pow2 (-22) = / 4194304.
Proof. unfold B32.pow2. simpl. lra. Qed.

(** A normal number of value 2 or more is a multiple of [2^-22]. *)
Lemma pnormal_grid (x : spec_float) :
  B32.pnormal x -> 2 <= B32.val x ->
  exists k : Z, B32.val x = IZR k * / 4194304.
Proof.
  intros (m & e & -> & Hm & He) Hval. cbn [B32.val cond_Zopp] in *.
  assert (Hlt : B32.pow2 1 < B32.pow2 (24 + e)).
  { rewrite pow2_add. change (B32.pow2 1) with (2 * 1).
    assert (Hm' : IZR (Zpos m) < B32.pow2 24).
    { rewrite pow2_IZR by lia. apply IZR_lt. lia. }
    pose proof (pow2_gt_0 e) as Hpe.
    assert (IZR (Zpos m) * B32.pow2 e < B32.pow2 24 * B32.pow2 e)
      by (apply Rmult_lt_compat_r; assumption).
    lra. }
  apply pow2_lt_inv in Hlt.
  exists (Zpos m * 2 ^ (e + 22))%Z.
  rewrite mult_IZR, <- pow2_IZR by lia.
  rewrite <- pow2_minus_22, Rmult_assoc, <- pow2_add.
  replace (e + 22 + -22)%Z with e by lia. reflexivity.
Qed.

(** Two normal numbers of the same value subtract to zero. *)
Lemma SFsub_same_value (x y : spec_float) :
  B32.pnormal x -> B32.pnormal y -> B32.val x = B32.val y ->
  SFsub 24 128 x y = S754_zero false.
Proof.
  intros (mx & ex & -> & _) (my & ey & -> & _) Hval.
  cbn [B32.val cond_Zopp] in Hval. cbn [SFsub cond_Zopp].
  set (ez := Z.min ex ey).
  pose proof (aligned_value mx ex ez ltac:(unfold ez; lia)) as Hx.
  pose proof (aligned_value my ey ez ltac:(unfold ez; lia)) as Hy.
  rewrite <- Hx, <- Hy in Hval.
  pose proof (pow2_gt_0 ez) as Hpos.
  apply Rmult_eq_reg_r in Hval; [ | lra ].
  apply eq_IZR in Hval. rewrite Hval, Z.sub_diag. reflexivity.
Qed.

(** The accumulated rounding error of [mA2bitval]: five operations. *)
Lemma mA2bitval_real_error (A W S B r3 r6 r7 r8 r9 : R) :
  0 < A <= W -> 12 <= W <= 20 -> 1 <= S -> 0 <= B -> B + S <= 65535 ->
  B32.near 1 r3 -> B32.near 1 r6 -> B32.near 1 r7 -> B32.near 1 r8 ->
  B32.near 1 r9 ->
  Rabs ((A * r6 / (W * r3) * r7 * S * r8 + B) * r9 - (A / W * S + B))
  <= / 20.
Proof.
  intros HA HW HS HB HBS H3 H6 H7 H8 H9.
  pose proof (near_pos _ _ H3) as H3pos.
  replace ((A * r6 / (W * r3) * r7 * S * r8 + B) * r9 - (A / W * S + B))
    with (A / W * S * (r6 * r7 * r8 * r9 / r3 - 1) + B * (r9 - 1))
    by (field; lra).
  set (Q := A / W * S).
  set (N := r6 * r7 * r8 * r9).
  assert (HQ : 0 <= Q <= S).
  { unfold Q. assert (HAW : 0 <= A / W <= 1).
    { split.
      - apply Rmult_le_pos; [ lra | left; apply Rinv_0_lt_compat; lra ].
      - apply Rmult_le_reg_r with (r := W); [ lra | ].
        unfold Rdiv. rewrite Rmult_assoc, Rinv_l by lra. lra. }
    split.
    - apply Rmult_le_pos; lra.
    - replace S with (1 * S) at 2 by ring.
      apply Rmult_le_compat_r; lra. }
  assert (HN : 1 - 5 / 10000000 <= N <= 1 + 5 / 10000000).
  { apply near_4_tight. unfold N. change 4%nat with (1 + 1 + 1 + 1)%nat.
    repeat apply near_mul; assumption. }
  assert (Hr3 : 1 - / 8388608 <= r3 <= 1 + / 8388608).
  { destruct H3 as [Hl Hh]. unfold B32.ulp_rel in *. simpl pow in *. lra. }
  assert (Hr9 : - / 8388608 <= r9 - 1 <= / 8388608).
  { destruct H9 as [Hl Hh]. unfold B32.ulp_rel in *. simpl pow in *. lra. }
  set (Phi := N / r3).
  assert (HPhi_eq : Phi * r3 = N) by (unfold Phi; field; lra).
  assert (HPhi : - (7 / 10000000) <= Phi - 1 <= 7 / 10000000).
  { split.
    - assert ((1 - 7 / 10000000) * r3 <= Phi * r3) by (rewrite HPhi_eq; lra).
      assert (1 - 7 / 10000000 <= Phi)
        by (apply Rmult_le_reg_r with (r := r3); assumption).
      lra.
    - assert (Phi * r3 <= (1 + 7 / 10000000) * r3) by (rewrite HPhi_eq; lra).
      assert (Phi <= 1 + 7 / 10000000)
        by (apply Rmult_le_reg_r with (r := r3); assumption).
      lra. }
  assert (HE1 : - (Q * (7 / 10000000)) <= Q * (Phi - 1) <= Q * (7 / 10000000)).
  { assert (Q * (Phi - 1) <= Q * (7 / 10000000))
      by (apply Rmult_le_compat_l; lra).
    assert (Q * (- (7 / 10000000)) <= Q * (Phi - 1))
      by (apply Rmult_le_compat_l; lra).
    lra. }
  assert (HE2 : - (B * / 8388608) <= B * (r9 - 1) <= B * / 8388608).
  { assert (B * (r9 - 1) <= B * / 8388608)
      by (apply Rmult_le_compat_l; lra).
    assert (B * (- / 8388608) <= B * (r9 - 1))
      by (apply Rmult_le_compat_l; lra).
    lra. }
  clearbody Q Phi.
  apply Rabs_le. split; lra.
Qed.

Lemma mA2bitval_inside (self : T_Click spec_float) (mA : spec_float) (n : Z) :
  B32.pnormal (p1_mA (T_calib_ self)) -> B32.pnormal (p2_mA (T_calib_ self)) ->
  B32.pnormal mA ->
  2 <= B32.val (p1_mA (T_calib_ self)) <= 6 ->
  18 <= B32.val (p2_mA (T_calib_ self)) <= 22 ->
  (0 <= p1_bitval (T_calib_ self) < p2_bitval (T_calib_ self))%Z ->
  (p2_bitval (T_calib_ self) <= 65535)%Z ->
  B32.val (p1_mA (T_calib_ self)) < B32.val mA <= B32.val (p2_mA (T_calib_ self)) ->
  Rabs (exact_bitval (T_calib_ self) (B32.val mA) - IZR n) <= 2 / 5 ->
  mA2bitval self mA = n.
Proof.
  unfold mA2bitval, exact_bitval.
  destruct (T_calib_ self) as [p1 p2 b1 b2].
  cbn [p1_mA p2_mA p1_bitval p2_bitval Fadd Fsub Fmul Fdiv Fof_int Fround
       binary32].
  intros Hp1 Hp2 HmA HP1 HP2 Hb1 Hb2 Hin Hnear.
  unfold B32.add, B32.sub, B32.mul, B32.div, B32.prec, B32.emax.
  pose proof ulp_rel_small as Hu. unfold B32.ulp_rel in Hu.
  set (P := B32.val p1) in *. set (W := B32.val p2 - P).
  set (A := B32.val mA - P). set (S := IZR (b2 - b1)). set (B := IZR b1).
  assert (HS : 1 <= S <= 65535) by (unfold S; split; apply IZR_le; lia).
  assert (HB : 0 <= B) by (unfold B; apply IZR_le; lia).
  assert (HBS : B + S <= 65535).
  { unfold B, S. rewrite <- plus_IZR. apply IZR_le. lia. }
  assert (HW : 12 <= W <= 20) by (unfold W; lra).
  assert (HA : / 4194304 <= A <= W).
  { split; [ | unfold A, W; lra ].
    destruct (pnormal_grid mA HmA ltac:(lra)) as (k1 & Hk1).
    destruct (pnormal_grid p1 Hp1 ltac:(fold P; lra)) as (k2 & Hk2).
    unfold A, P. rewrite Hk1, Hk2.
    assert (Hk : (k2 < k1)%Z).
    { apply lt_IZR. fold P in Hk2. rewrite Hk1, Hk2 in Hin. lra. }
    assert (Hk' : 1 <= IZR (k1 - k2)) by (apply IZR_le; lia).
    rewrite minus_IZR in Hk'. lra. }
  destruct (of_int_value (b2 - b1) ltac:(lia)) as [HSn HSv]. fold S in HSv.
  (* a = mA - p1 *)
  set (fa := SFsub 24 128 mA p1).
  assert (Ha : B32.approx fa A).
  { unfold fa, A, P. apply sub_approx; [ exact HmA | exact Hp1 | ].
    fold P. fold A. apply window. lra. }
  destruct (approx_elim fa A (/ 4194304) 20 Ha ltac:(lra) ltac:(lra))
    as (Han & (r6 & Hr6 & Hav) & Hab).
  unfold B32.ulp_rel in Hab.
  (* w = p2 - p1 *)
  set (fw := SFsub 24 128 p2 p1).
  assert (Hw : B32.approx fw W).
  { unfold fw, W. apply sub_approx; [ exact Hp2 | exact Hp1 | ].
    apply window. fold P. lra. }
  destruct (approx_elim fw W 12 20 Hw ltac:(lra) HW)
    as (Hwn & (r3 & Hr3 & Hwv) & Hwb).
  unfold B32.ulp_rel in Hwb.
  (* r = a / w *)
  set (fr := SFdiv 24 128 fa fw).
  assert (Hre : / 100000000 <= B32.val fa / B32.val fw <= 2).
  { pose proof (div_bounds (B32.val fa) (B32.val fw) (/ 4200000) 21
                  (119 / 10) 21
                  ltac:(lra) ltac:(lra) ltac:(lra) ltac:(lra)). lra. }
  assert (Hr : B32.approx fr (B32.val fa / B32.val fw)).
  { unfold fr. apply div_approx; [ exact Han | exact Hwn | ].
    apply window. lra. }
  destruct (approx_elim fr _ (/ 100000000) 2 Hr ltac:(lra) Hre)
    as (Hrn & (r7 & Hr7 & Hrv) & Hrb).
  unfold B32.ulp_rel in Hrb.
  (* s = r * span *)
  set (fS := B32.of_int (b2 - b1)) in *.
  set (fs := SFmul 24 128 fr fS).
  assert (Hse : / 1000000000 <= B32.val fr * S <= 200000).
  { pose proof (mul_bounds (B32.val fr) S (9 / 1000000000) 3 1 65535
                  ltac:(lra) ltac:(lra) ltac:(lra) ltac:(lra)). lra. }
  assert (Hs : B32.approx fs (B32.val fr * S)).
  { unfold fs. rewrite <- HSv. apply mul_approx; [ exact Hrn | exact HSn | ].
    rewrite HSv. apply window. lra. }
  destruct (approx_elim fs _ (/ 1000000000) 200000 Hs ltac:(lra) Hse)
    as (Hsn & (r8 & Hr8 & Hsv) & Hsb).
  unfold B32.ulp_rel in Hsb.
  (* v = s + b1 *)
  set (fv := SFadd 24 128 fs (B32.of_int b1)).
  assert (Hv : B32.approx fv (B32.val fs + B)).
  { unfold fv, B. apply add_int_approx; [ exact Hsn | lia | ]. fold B. lra. }
  destruct (approx_elim fv _ (/ 10000000000) 300000 Hv ltac:(lra) ltac:(lra))
    as (Hvn & (r9 & Hr9 & Hvv) & _).
  (* the exact image and the integer next to it *)
  replace (IZR b2 - IZR b1) with S in Hnear
    by (unfold S; rewrite minus_IZR; ring).
  fold A W B in Hnear.
  assert (Herr : Rabs (B32.val fv - (A / W * S + B)) <= / 20).
  { rewrite Hvv, Hsv, Hrv, Hav, Hwv.
    apply (mA2bitval_real_error A W S B r3 r6 r7 r8 r9); try assumption; lra. }
  apply Rabs_le_elim in Herr. apply Rabs_le_elim in Hnear.
  assert (HQ : 0 <= A / W * S <= S).
  { assert (HAW : 0 <= A / W <= 1).
    { split.
      - apply Rmult_le_pos; [ lra | left; apply Rinv_0_lt_compat; lra ].
      - apply Rmult_le_reg_r with (r := W); [ lra | ].
        unfold Rdiv. rewrite Rmult_assoc, Rinv_l by lra. lra. }
    split.
    - apply Rmult_le_pos; lra.
    - replace S with (1 * S) at 2 by ring.
      apply Rmult_le_compat_r; lra. }
  clearbody fv A W S B.
  assert (Hn : (0 <= n <= 65535)%Z).
  { split.
    - assert (H : IZR (-1) < IZR n) by (change (IZR (-1)) with (-1); lra).
      apply lt_IZR in H. lia.
    - assert (H : IZR n < IZR 65536) by (change (IZR 65536) with 65536; lra).
      apply lt_IZR in H. lia. }
  rewrite (round_near fv n).
  - apply wrap16_small. lia.
  - exact Hvn.
  - apply Rabs_def1; lra.
Qed.

Lemma mA2bitval_at_p1 (self : T_Click spec_float) (mA : spec_float) :
  B32.pnormal (p1_mA (T_calib_ self)) -> B32.pnormal (p2_mA (T_calib_ self)) ->
  B32.pnormal mA ->
  2 <= B32.val (p1_mA (T_calib_ self)) <= 6 ->
  18 <= B32.val (p2_mA (T_calib_ self)) <= 22 ->
  (0 <= p1_bitval (T_calib_ self) < p2_bitval (T_calib_ self))%Z ->
  (p2_bitval (T_calib_ self) <= 65535)%Z ->
  B32.val mA = B32.val (p1_mA (T_calib_ self)) ->
  mA2bitval self mA = p1_bitval (T_calib_ self).
Proof.
  unfold mA2bitval.
  destruct (T_calib_ self) as [p1 p2 b1 b2].
  cbn [p1_mA p2_mA p1_bitval p2_bitval Fadd Fsub Fmul Fdiv Fof_int Fround
       binary32].
  intros Hp1 Hp2 HmA HP1 HP2 Hb1 Hb2 Hsame.
  unfold B32.add, B32.sub, B32.mul, B32.div, B32.prec, B32.emax.
  rewrite (SFsub_same_value mA p1 HmA Hp1 Hsame).
  assert (Hw : B32.pnormal (SFsub 24 128 p2 p1)).
  { apply (sub_approx p2 p1 Hp2 Hp1). apply window. lra. }
  destruct Hw as (mw & ew & Hw & _). rewrite Hw.
  destruct (of_int_value (b2 - b1) ltac:(lia)) as [(mS & eS & HS & _) _].
  rewrite HS. cbn [SFdiv SFmul xorb].
  assert (Hv : B32.round (SFadd 24 128 (S754_zero false) (B32.of_int b1)) = b1).
  { destruct (Z.eq_dec b1 0) as [-> | Hnz]; [ reflexivity | ].
    destruct (of_int_value b1 ltac:(lia)) as [Hbn Hbv].
    assert (Hadd : SFadd 24 128 (S754_zero false) (B32.of_int b1) = B32.of_int b1)
      by (destruct Hbn as (mb & eb & -> & _); reflexivity).
    rewrite Hadd. apply round_near; [ exact Hbn | ].
    rewrite Hbv. replace (IZR b1 - IZR b1) with 0 by ring.
    rewrite Rabs_R0. lra. }
  rewrite Hv. apply wrap16_small. lia.
Qed.

(** X12: the accuracy of [mA2bitval].  For a calibration whose first point
    lies between 2 and 6 mA, whose second lies between 18 and 22 mA and whose
    bit values are strictly ordered, and for every current between the two
    calibration currents: whenever the exact line through the calibration
    points sends the current to within 0.4 of an integer, that integer is
    the bit value computed in single precision.  In particular the two
    calibration currents give the two calibration bit values. *)
Theorem mA2bitval_accuracy (self : T_Click spec_float) :
  B32.valid (p1_mA (T_calib_ self)) = true ->
  B32.valid (p2_mA (T_calib_ self)) = true ->
  2 <= B32.val (p1_mA (T_calib_ self)) <= 6 ->
  18 <= B32.val (p2_mA (T_calib_ self)) <= 22 ->
  (0 <= p1_bitval (T_calib_ self) < p2_bitval (T_calib_ self))%Z ->
  (p2_bitval (T_calib_ self) <= 65535)%Z ->
  (forall (mA : spec_float) (n : Z),
      B32.valid mA = true ->
      B32.val (p1_mA (T_calib_ self)) <= B32.val mA
      <= B32.val (p2_mA (T_calib_ self)) ->
      Rabs (exact_bitval (T_calib_ self) (B32.val mA) - IZR n) <= 2 / 5 ->
      mA2bitval self mA = n)
  /\ mA2bitval self (p1_mA (T_calib_ self)) = p1_bitval (T_calib_ self)
  /\ mA2bitval self (p2_mA (T_calib_ self)) = p2_bitval (T_calib_ self).
Proof.
  intros Hv1 Hv2 HP1 HP2 Hb Hb2.
  assert (Hlow : B32.pow2 (-125) <= 2).
  { pose proof (pow2_le_mono (-125) 1 ltac:(lia)) as H.
    change (B32.pow2 1) with (2 * 1) in H. lra. }
  assert (Hp1 : B32.pnormal (p1_mA (T_calib_ self)))
    by (apply valid_pnormal; [ exact Hv1 | lra ]).
  assert (Hp2 : B32.pnormal (p2_mA (T_calib_ self)))
    by (apply valid_pnormal; [ exact Hv2 | lra ]).
  assert (Hgeneral : forall (mA : spec_float) (n : Z),
             B32.valid mA = true ->
             B32.val (p1_mA (T_calib_ self)) <= B32.val mA
             <= B32.val (p2_mA (T_calib_ self)) ->
             Rabs (exact_bitval (T_calib_ self) (B32.val mA) - IZR n) <= 2 / 5 ->
             mA2bitval self mA = n).
  { intros mA n HvmA [Hge Hle] Hnear.
    assert (HmA : B32.pnormal mA) by (apply valid_pnormal; [ exact HvmA | lra ]).
    destruct Hge as [Hgt | Heq].
    - apply mA2bitval_inside; try assumption. split; [ exact Hgt | exact Hle ].
    - rewrite (mA2bitval_at_p1 self mA) by (try assumption; symmetry; exact Heq).
      unfold exact_bitval in Hnear. rewrite <- Heq in Hnear.
      replace (B32.val (p1_mA (T_calib_ self)) - B32.val (p1_mA (T_calib_ self)))
        with 0 in Hnear by ring.
      unfold Rdiv in Hnear. rewrite !Rmult_0_l, Rplus_0_r in Hnear.
      rewrite <- minus_IZR in Hnear.
      apply Rabs_le_elim in Hnear.
      assert (H1 : IZR (-1) < IZR (p1_bitval (T_calib_ self) - n))
        by (change (IZR (-1)) with (-1); lra).
      assert (H2 : IZR (p1_bitval (T_calib_ self) - n) < IZR 1)
        by (change (IZR 1) with 1; lra).
      apply lt_IZR in H1, H2. lia. }
  split; [ exact Hgeneral | ]. split.
  - apply mA2bitval_at_p1; try assumption. reflexivity.
  - apply Hgeneral; [ exact Hv2 | lra | ].
    unfold exact_bitval.
    replace (IZR (p1_bitval (T_calib_ self))
             + (B32.val (p2_mA (T_calib_ self)) - B32.val (p1_mA (T_calib_ self)))
               / (B32.val (p2_mA (T_calib_ self)) - B32.val (p1_mA (T_calib_ self)))
               * (IZR (p2_bitval (T_calib_ self)) - IZR (p1_bitval (T_calib_ self)))
             - IZR (p2_bitval (T_calib_ self)))
      with 0 by (field; lra).
    rewrite Rabs_R0. lra.
Qed.

End Accuracy.

(** ** The transmitter at start-up *)

(** X13: [begin()] of the transmitter starts SPI, drives chip select high
    before it makes the pin an output, and then does what [set_mA(4.0)]
    does: one command of two bytes, after which [get_last_set_bitval] is
    the bit value of 4 mA, whatever it was before.  In single precision and
    for a calibration whose first point is 4 mA, that bit value is
    [p1_bitval]. *)
Theorem T_begin_sets_4_mA :
  (forall (F : Type) (ops : FloatOps F) (self : T_Click F) (w : World),
      let result := T_begin self w in
      let bitval := mA2bitval self (Fof_int 4) in
      get_last_set_bitval (fst result) = bitval
      /\ T_calib_ (fst result) = T_calib_ self
      /\ T_CS_pin_ (fst result) = T_CS_pin_ self
      /\ T_SPI_clock_ (fst result) = T_SPI_clock_ self
      /\ transfers (snd result) = S (S (transfers w))
      /\ trace (snd result)
         = trace w ++ [SPI_begin_ev;
                       digitalWrite_ev (T_CS_pin_ self) HIGH;
                       pinMode_OUTPUT_ev (T_CS_pin_ self);
                       SPI_beginTransaction_ev (T_SPI_clock_ self);
                       digitalWrite_ev (T_CS_pin_ self) LOW;
                       SPI_transfer_ev (48 + (bitval / 256) mod 16)
                                       (wrap8 (miso w (transfers w)));
                       SPI_transfer_ev (bitval mod 256)
                                       (wrap8 (miso w (S (transfers w))));
                       digitalWrite_ev (T_CS_pin_ self) HIGH;
                       SPI_endTransaction_ev])
  /\ (forall (self : T_Click spec_float) (w : World),
         B32.valid (p1_mA (T_calib_ self)) = true ->
         B32.valid (p2_mA (T_calib_ self)) = true ->
         B32.val (p1_mA (T_calib_ self)) = 4%R ->
         (18 <= B32.val (p2_mA (T_calib_ self)) <= 22)%R ->
         0 <= p1_bitval (T_calib_ self) < p2_bitval (T_calib_ self) ->
         p2_bitval (T_calib_ self) <= 65535 ->
         get_last_set_bitval (fst (T_begin self w)) = p1_bitval (T_calib_ self)).
Proof.
  assert (Hrun : forall (F : Type) (ops : FloatOps F) (self : T_Click F)
                        (w : World),
             T_begin self w
             = (mkT_Click (T_SPI_clock_ self) (T_CS_pin_ self) (T_calib_ self)
                  (mA2bitval self (Fof_int 4)),
                mkWorld (micros_now w) (miso w) (S (S (transfers w)))
                  (trace w ++ [SPI_begin_ev;
                               digitalWrite_ev (T_CS_pin_ self) HIGH;
                               pinMode_OUTPUT_ev (T_CS_pin_ self);
                               SPI_beginTransaction_ev (T_SPI_clock_ self);
                               digitalWrite_ev (T_CS_pin_ self) LOW;
                               SPI_transfer_ev
                                 (48 + (mA2bitval self (Fof_int 4) / 256) mod 16)
                                 (wrap8 (miso w (transfers w)));
                               SPI_transfer_ev
                                 (mA2bitval self (Fof_int 4) mod 256)
                                 (wrap8 (miso w (S (transfers w))));
                               digitalWrite_ev (T_CS_pin_ self) HIGH;
                               SPI_endTransaction_ev]))).
  { intros F ops self w. unfold T_begin, bind.
    unfold SPI_begin, digitalWrite, pinMode_OUTPUT, emit.
    cbn -[set_mA mA2bitval]. rewrite set_mA_run.
    cbn -[mA2bitval wrap8 Z.div Z.modulo].
    repeat rewrite <- app_assoc. reflexivity. }
  split.
  - intros F ops self w. cbv zeta. rewrite Hrun.
    cbn [fst snd get_last_set_bitval bitval_ T_calib_ T_CS_pin_ T_SPI_clock_
         transfers trace].
    repeat split; reflexivity.
  - intros self w Hv1 Hv2 HP1 HP2 Hb Hb2. rewrite Hrun.
    cbn [fst get_last_set_bitval bitval_].
    assert (Hlow : (B32.pow2 (-125) <= 2)%R).
    { pose proof (pow2_le_mono (-125) 1 ltac:(lia)) as H.
      change (B32.pow2 1) with (2 * 1)%R in H. lra. }
    destruct (of_int_value 4 ltac:(lia)) as [H4n H4v].
    apply mA2bitval_at_p1.
    + apply valid_pnormal; [ exact Hv1 | lra ].
    + apply valid_pnormal; [ exact Hv2 | lra ].
    + exact H4n.
    + lra.
    + exact HP2.
    + exact Hb.
    + exact Hb2.
    + cbn [Fof_int binary32]. rewrite H4v, HP1. reflexivity.
Qed.

(** ** The pressure logger's main loop *)

Section LoggerFacts.

Context {F : Type} {ops : FloatOps F} {libm : FloatExp F}.

Lemma reported_app (out1 out2 : list (output F)) :
  Logger.reported (out1 ++ out2) = Logger.reported out1 ++ Logger.reported out2.
Proof.
  induction out1 as [ | o out1 IH ]; [ reflexivity | ].
  destruct o; cbn [app Logger.reported]; rewrite IH; reflexivity.
Qed.

(** [tick - now >= 1], computed on [uint32_t], says that the two differ. *)
Lemma wrap32_sub_geb_1 (a b : Z) :
  0 <= a < 2 ^ 32 -> 0 <= b < 2 ^ 32 ->
  (wrap32 (a - b) >=? 1) = negb (b =? a).
Proof.
  intros Ha Hb. unfold wrap32. rewrite Z.geb_leb.
  destruct (Z.eqb_spec b a) as [-> | Hne]; cbn [negb].
  - rewrite Z.sub_diag. reflexivity.
  - apply Z.leb_le.
    pose proof (Z.mod_pos_bound (a - b) (2 ^ 32) ltac:(lia)) as Hm.
    destruct (Z.eq_dec ((a - b) mod 2 ^ 32) 0) as [Hz | Hnz]; [ | lia ].
    exfalso. apply Z.mod_divide in Hz; [ | lia ].
    destruct Hz as [q Hq]. nia.
Qed.

Lemma command_block_facts (now : Z) (command : option string)
      (s : Logger.Loop_statics) :
  Logger.reported (fst (Logger.command_block (F := F) now command s)) = []
  /\ Logger.tick (snd (Logger.command_block (F := F) now command s)) = Logger.tick s
  /\ (command = None -> snd (Logger.command_block (F := F) now command s) = s).
Proof.
  unfold Logger.command_block.
  destruct command as [ c | ]; [ | repeat split ].
  destruct (String.eqb c "id?"); [ repeat split; discriminate | ].
  destruct (String.eqb c "on"); [ repeat split; discriminate | ].
  destruct (String.eqb c "off"); repeat split; discriminate.
Qed.

(** One pass through [loop()], block by block. *)
Lemma Logger_loop_run (millis_now : Z) (command : option string)
      (st : Logger.Sketch F) (w : World) :
  let now := wrap32 millis_now in
  let s0 := match Logger.statics st with
            | Some s => s
            | None => Logger.mkLoop_statics now false now false
            end in
  let R_click' := snd (fst (poll_EMA (Logger.R_click st) w)) in
  let s1 := snd (Logger.command_block (F := F) now command s0) in
  let reporting := Logger.report s1 && (wrap32 (Logger.tick s1 - now) >=? 1) in
  let bar := Logger.mA2bar (get_EMA_mA R_click') Logger.PRESSURE_CALIB in
  let s2 := if reporting
            then Logger.mkLoop_statics now (Logger.flash s1)
                   (Logger.flash_tick s1) (Logger.report s1)
            else s1 in
  let dimming :=
    Logger.flash s2
    && (wrap32 (now - Logger.flash_tick s2) >=? Logger.FLASH_LENGTH) in
  Logger.loop millis_now command st w
  = (fst (Logger.command_block (F := F) now command s0)
       ++ (if reporting
           then [Serial_print_uint now; Serial_write "009"%char;
                 Serial_println_float (bar * Fof_int 1000)%flt 2]
           else [])
       ++ (if dimming
           then [neo_setPixelColor 0 0 Logger.NEO_DIM 0; neo_show]
           else []),
     Logger.mkSketch R_click'
       (if reporting
        then Logger.mkReadings (Logger.pres_bitval (Logger.readings st))
               (get_EMA_mA R_click') bar
        else Logger.readings st)
       (Some (if dimming
              then Logger.mkLoop_statics (Logger.tick s2) false
                     (Logger.flash_tick s2) (Logger.report s2)
              else s2)),
     snd (poll_EMA (Logger.R_click st) w)).
Proof.
  cbv zeta. unfold Logger.loop, bind, ret.
  destruct (poll_EMA (Logger.R_click st) w) as [[sampled R_click'] w'].
  cbn [fst snd].
  set (now := wrap32 millis_now).
  set (s0 := match Logger.statics st with
             | Some s => s
             | None => Logger.mkLoop_statics now false now false
             end).
  unfold Logger.command_block.
  destruct command as [ c | ];
    [ destruct (String.eqb c "id?");
      [ | destruct (String.eqb c "on"); [ | destruct (String.eqb c "off") ] ]
    | ];
    cbn [fst snd Logger.tick Logger.flash Logger.flash_tick Logger.report];
    match goal with
    | |- context [?r && (wrap32 (?t - now) >=? 1)] =>
        destruct (r && (wrap32 (t - now) >=? 1))
    end;
    cbn [fst snd Logger.tick Logger.flash Logger.flash_tick Logger.report];
    match goal with
    | |- context [?f && (wrap32 (now - ?t) >=? Logger.FLASH_LENGTH)] =>
        destruct (f && (wrap32 (now - t) >=? Logger.FLASH_LENGTH))
    end;
    reflexivity.
Qed.

(** X14: while reporting is on, a pass through [loop()] prints a pressure
    line exactly when [millis()] differs from the time stamp of the last
    line: the test [tick - now >= 1] on unsigned integers says no more than
    that.  The line carries [mA2bar] of the filtered current, times 1000.
    So the very first pass prints nothing, and neither does a pass that
    follows, without a command, at the same [millis()]: at most one line per
    millisecond. *)
Theorem Logger_loop_reports_on_millis_change
        (millis_now : Z) (command : option string)
        (st : Logger.Sketch F) (w : World) :
  let now := wrap32 millis_now in
  let tick0 := match Logger.statics st with
               | Some s => Logger.tick s
               | None => now
               end in
  0 <= tick0 < 2 ^ 32 ->
  let result := Logger.loop millis_now command st w in
  let out := fst (fst result) in
  let st' := snd (fst result) in
  exists s' : Logger.Loop_statics,
    Logger.statics st' = Some s'
    /\ Logger.reported out
       = (if Logger.report s' && negb (now =? tick0)
          then [(Logger.mA2bar (get_EMA_mA (Logger.R_click st'))
                   Logger.PRESSURE_CALIB * Fof_int 1000)%flt]
          else [])
    /\ Logger.tick s'
       = (if Logger.report s' && negb (now =? tick0) then now else tick0)
    /\ (Logger.statics st = None -> Logger.reported out = [])
    /\ (forall w2 : World,
          Logger.reported (fst (fst (Logger.loop millis_now None st' w2))) = []).
Proof.
  cbv zeta. intros Htick.
  pose proof (wrap32_range millis_now) as Hnow.
  set (now := wrap32 millis_now) in *.
  rewrite (Logger_loop_run millis_now command st w). cbv zeta. fold now.
  cbn [fst snd Logger.statics Logger.R_click].
  set (s0 := match Logger.statics st with
             | Some s => s
             | None => Logger.mkLoop_statics now false now false
             end).
  assert (Htick0 : Logger.tick s0
                   = match Logger.statics st with
                     | Some s => Logger.tick s
                     | None => now
                     end)
    by (unfold s0; destruct (Logger.statics st); reflexivity).
  rewrite <- Htick0 in *.
  destruct (command_block_facts now command s0) as (Hquiet & Hsame & _).
  set (s1 := snd (Logger.command_block (F := F) now command s0)) in *.
  rewrite Hsame, (wrap32_sub_geb_1 (Logger.tick s0) now Htick Hnow).
  set (reporting := Logger.report s1 && negb (now =? Logger.tick s0)).
  set (s2 := if reporting
             then Logger.mkLoop_statics now (Logger.flash s1)
                    (Logger.flash_tick s1) (Logger.report s1)
             else s1).
  assert (Hreport2 : Logger.report s2 = Logger.report s1)
    by (unfold s2; destruct reporting; reflexivity).
  assert (Htick2 : Logger.tick s2 = if reporting then now else Logger.tick s0)
    by (unfold s2; destruct reporting; [ reflexivity | exact Hsame ]).
  set (dimming := Logger.flash s2 && _).
  set (s3 := if dimming
             then Logger.mkLoop_statics (Logger.tick s2) false
                    (Logger.flash_tick s2) (Logger.report s2)
             else s2).
  assert (Hreport3 : Logger.report s3 = Logger.report s1)
    by (unfold s3; destruct dimming; exact Hreport2).
  assert (Htick3 : Logger.tick s3 = if reporting then now else Logger.tick s0)
    by (unfold s3; destruct dimming; exact Htick2).
  assert (Hout : Logger.reported
                   (fst (Logger.command_block (F := F) now command s0)
                    ++ (if reporting
                        then [Serial_print_uint now; Serial_write "009"%char;
                              Serial_println_float
                                (Logger.mA2bar
                                   (get_EMA_mA
                                      (snd (fst (poll_EMA (Logger.R_click st) w))))
                                   Logger.PRESSURE_CALIB * Fof_int 1000)%flt 2]
                        else [])
                    ++ (if dimming
                        then [neo_setPixelColor 0 0 Logger.NEO_DIM 0; neo_show]
                        else []))
                 = if reporting
                   then [(Logger.mA2bar
                            (get_EMA_mA
                               (snd (fst (poll_EMA (Logger.R_click st) w))))
                            Logger.PRESSURE_CALIB * Fof_int 1000)%flt]
                   else []).
  { rewrite !reported_app, Hquiet.
    destruct reporting, dimming; reflexivity. }
  exists s3.
  split; [ reflexivity | ].
  rewrite Hreport3. fold reporting.
  split; [ exact Hout | ].
  split; [ exact Htick3 | ].
  split.
  - intros Hfirst. rewrite Hout.
    assert (Hsame0 : Logger.tick s0 = now)
      by (unfold s0; rewrite Hfirst; reflexivity).
    unfold reporting. rewrite Hsame0, Z.eqb_refl.
    rewrite Bool.andb_false_r. reflexivity.
  - intros w2.
    rewrite (Logger_loop_run millis_now None _ w2). cbv zeta. fold now.
    cbn [fst snd Logger.statics Logger.command_block].
    rewrite !reported_app. cbn [Logger.reported app].
    assert (Hrange3 : 0 <= Logger.tick s3 < 2 ^ 32)
      by (rewrite Htick3; destruct reporting; assumption).
    rewrite (wrap32_sub_geb_1 (Logger.tick s3) now Hrange3 Hnow).
    assert (Hquiet2 : Logger.report s3 && negb (now =? Logger.tick s3) = false).
    { rewrite Hreport3, Htick3. unfold reporting.
      destruct (Logger.report s1); [ | reflexivity ].
      destruct (now =? Logger.tick s0) eqn:Heq; cbn [andb negb].
      - rewrite Heq. reflexivity.
      - rewrite Z.eqb_refl. reflexivity. }
    rewrite Hquiet2.
    match goal with
    | |- context [if ?b then [neo_setPixelColor _ _ _ _; neo_show] else []] =>
        destruct b
    end; reflexivity.
Qed.

(** The reporting flag a command leaves. *)
Lemma command_block_report (now : Z) (command : option string)
      (s : Logger.Loop_statics) :
  Logger.report (snd (Logger.command_block (F := F) now command s))
  = match command with
    | Some c =>
        if String.eqb c "on" then true
        else if String.eqb c "id?" || String.eqb c "off" then false
        else Logger.report s
    | None => Logger.report s
    end.
Proof.
  unfold Logger.command_block.
  destruct command as [ c | ]; [ | reflexivity ].
  destruct (String.eqb_spec c "id?") as [-> | _]; [ reflexivity | ].
  destruct (String.eqb c "on"); [ reflexivity | ].
  destruct (String.eqb c "off"); reflexivity.
Qed.

Lemma identity_lines_app (out1 out2 : list (output F)) :
  Logger.identity_lines (out1 ++ out2)
  = (Logger.identity_lines out1 + Logger.identity_lines out2)%nat.
Proof.
  induction out1 as [ | o out1 IH ]; [ reflexivity | ].
  destruct o; cbn [app Logger.identity_lines]; rewrite IH; reflexivity.
Qed.

Lemma Logger_run_cons (micros_now millis_now : Z) (command : option string)
      (rest : list (Z * Z * option string)) (st : Logger.Sketch F) (w : World) :
  let step := Logger.loop millis_now command st (snd (at_time micros_now w)) in
  let tail := Logger.run rest (snd (fst step)) (snd step) in
  Logger.run ((micros_now, millis_now, command) :: rest) st w
  = (fst (fst step) ++ fst (fst tail), snd (fst tail), snd tail).
Proof.
  cbv zeta. cbn [Logger.run]. unfold bind at 1 2 3. unfold at_time.
  cbn [fst snd].
  destruct (Logger.loop millis_now command st _) as [[out st1] w1].
  cbn [fst snd].
  destruct (Logger.run rest st1 w1) as [[outs st2] w2]. reflexivity.
Qed.

(** What one pass leaves of the reporting flag, and what it prints. *)
Lemma Logger_loop_command (millis_now : Z) (command : option string)
      (st : Logger.Sketch F) (w : World) :
  let result := Logger.loop millis_now command st w in
  let report0 := match Logger.statics st with
                 | Some s => Logger.report s
                 | None => false
                 end in
  let report' := match command with
                 | Some c =>
                     if String.eqb c "on" then true
                     else if String.eqb c "id?" || String.eqb c "off" then false
                     else report0
                 | None => report0
                 end in
  (exists s' : Logger.Loop_statics,
      Logger.statics (snd (fst result)) = Some s'
      /\ Logger.report s' = report')
  /\ Logger.identity_lines (fst (fst result))
     = (if Logger.asks_identity command then 1 else 0)%nat
  /\ (report' = false -> Logger.reported (fst (fst result)) = []).
Proof.
  cbv zeta.
  rewrite (Logger_loop_run millis_now command st w). cbv zeta.
  cbn [fst snd Logger.statics].
  set (now := wrap32 millis_now).
  set (s0 := match Logger.statics st with
             | Some s => s
             | None => Logger.mkLoop_statics now false now false
             end).
  assert (Hreport0 : Logger.report s0
                     = match Logger.statics st with
                       | Some s => Logger.report s
                       | None => false
                       end)
    by (unfold s0; destruct (Logger.statics st); reflexivity).
  rewrite <- Hreport0.
  pose proof (command_block_report now command s0) as Hreport1.
  destruct (command_block_facts now command s0) as (Hquiet & _ & _).
  set (s1 := snd (Logger.command_block (F := F) now command s0)) in *.
  rewrite <- Hreport1.
  set (reporting := Logger.report s1 && _).
  set (s2 := if reporting
             then Logger.mkLoop_statics now (Logger.flash s1)
                    (Logger.flash_tick s1) (Logger.report s1)
             else s1).
  assert (Hreport2 : Logger.report s2 = Logger.report s1)
    by (unfold s2; destruct reporting; reflexivity).
  set (dimming := Logger.flash s2 && _).
  split; [ | split ].
  - eexists. split; [ reflexivity | ].
    destruct dimming; exact Hreport2.
  - rewrite !identity_lines_app.
    assert (Hid : Logger.identity_lines (fst (Logger.command_block (F := F) now command s0))
                  = (if Logger.asks_identity command then 1 else 0)%nat).
    { unfold Logger.command_block, Logger.asks_identity.
      destruct command as [ c | ]; [ | reflexivity ].
      destruct (String.eqb c "id?"); [ reflexivity | ].
      destruct (String.eqb c "on"); [ reflexivity | ].
      destruct (String.eqb c "off"); reflexivity. }
    rewrite Hid. destruct reporting, dimming; cbn; lia.
  - intros Hoff. rewrite !reported_app, Hquiet.
    unfold reporting. rewrite Hoff. cbn [andb].
    destruct dimming; reflexivity.
Qed.

(** X15: the commands of the serial interface.  After a pass that received
    [on] reporting is on, after one that received [off] or [id?] it is off,
    and any other command, like no command, leaves it as it was.  Every
    [id?] is answered by exactly one identity line, whether reporting is on
    or off.  A freshly started logger prints no pressure line as long as no
    [on] has arrived. *)
Theorem Logger_commands :
  (forall (millis_now : Z) (command : option string)
          (st : Logger.Sketch F) (w : World),
      let result := Logger.loop millis_now command st w in
      let report0 := match Logger.statics st with
                     | Some s => Logger.report s
                     | None => false
                     end in
      exists s' : Logger.Loop_statics,
        Logger.statics (snd (fst result)) = Some s'
        /\ Logger.report s'
           = match command with
             | Some c =>
                 if String.eqb c "on" then true
                 else if String.eqb c "id?" || String.eqb c "off" then false
                 else report0
             | None => report0
             end)
  /\ (forall (passes : list (Z * Z * option string))
             (st : Logger.Sketch F) (w : World),
         Logger.identity_lines (fst (fst (Logger.run passes st w)))
         = length (filter (fun p => Logger.asks_identity (snd p)) passes))
  /\ (forall (passes : list (Z * Z * option string)) (w0 w : World),
         (forall p, In p passes -> snd p <> Some "on"%string) ->
         Logger.reported
           (fst (fst (Logger.run passes (fst (Logger.Sketch_new w0)) w)))
         = []).
Proof.
  split; [ | split ].
  - intros millis_now command st w. cbv zeta.
    apply (Logger_loop_command millis_now command st w).
  - induction passes as [ | [[micros_now millis_now] command] rest IH ];
      intros st w; [ reflexivity | ].
    rewrite Logger_run_cons. cbn [fst snd filter].
    rewrite identity_lines_app, IH.
    destruct (Logger_loop_command millis_now command st
                (snd (at_time micros_now w))) as (_ & Hid & _).
    rewrite Hid. destruct (Logger.asks_identity command); reflexivity.
  - intros passes w0 w Hnever.
    assert (Hquiet : forall (passes : list (Z * Z * option string))
                            (st : Logger.Sketch F) (w : World),
               (forall p, In p passes -> snd p <> Some "on"%string) ->
               match Logger.statics st with
               | Some s => Logger.report s
               | None => false
               end = false ->
               Logger.reported (fst (fst (Logger.run passes st w))) = []).
    { clear passes w Hnever.
      induction passes as [ | [[micros_now millis_now] command] rest IH ];
        intros st w Hnever Hoff; [ reflexivity | ].
      rewrite Logger_run_cons. cbn [fst snd].
      destruct (Logger_loop_command millis_now command st
                  (snd (at_time micros_now w)))
        as ((s' & Hs' & Hreport') & _ & Hsilent).
      cbv zeta in Hsilent, Hreport'.
      assert (Hstay : match command with
                      | Some c =>
                          if String.eqb c "on" then true
                          else if String.eqb c "id?" || String.eqb c "off"
                               then false
                               else match Logger.statics st with
                                    | Some s => Logger.report s
                                    | None => false
                                    end
                      | None => match Logger.statics st with
                                | Some s => Logger.report s
                                | None => false
                                end
                      end = false).
      { destruct command as [ c | ]; [ | exact Hoff ].
        destruct (String.eqb_spec c "on") as [-> | _].
        - exfalso. apply (Hnever (micros_now, millis_now, Some "on"%string));
            [ left; reflexivity | reflexivity ].
        - destruct (String.eqb c "id?" || String.eqb c "off");
            [ reflexivity | exact Hoff ]. }
      rewrite reported_app, (Hsilent Hstay). cbn [app].
      apply IH.
      + intros p Hp. apply Hnever. right. exact Hp.
      + rewrite Hs', Hreport'. exact Hstay. }
    apply Hquiet; [ exact Hnever | reflexivity ].
Qed.

End LoggerFacts.

(** X16: a fault is never reported as a pressure.  In single precision
    [mA2bar] of [NAN] is [NAN] for every pressure calibration, and so is its
    product with 1000; so in every pass through [loop()] in which the
    filtered current is [NAN], because the loop is broken or because the
    filter has no sample yet, the number printed, if one is printed, is
    [NAN]. *)
Theorem Logger_reports_fault_as_NAN (libm : FloatExp spec_float) :
  (forall calib : Logger.Pressure_Calibration spec_float,
      Logger.mA2bar NAN calib = NAN
      /\ (Logger.mA2bar NAN calib * Fof_int 1000)%flt = NAN)
  /\ (forall (millis_now : Z) (command : option string)
             (st : Logger.Sketch spec_float) (w : World),
         let result := Logger.loop millis_now command st w in
         get_EMA_mA (Logger.R_click (snd (fst result))) = NAN ->
         forall v : spec_float,
           In v (Logger.reported (fst (fst result))) -> v = NAN).
Proof.
  assert (Hnan : forall calib : Logger.Pressure_Calibration spec_float,
             Logger.mA2bar NAN calib = NAN
             /\ (Logger.mA2bar NAN calib * Fof_int 1000)%flt = NAN).
  { intros [zero span full]. unfold Logger.mA2bar.
    cbn [Logger.zero_mA Logger.span_mA Logger.full_range_bar
         Fsub Fdiv Fmul NAN binary32].
    assert (H1 : B32.sub S754_nan zero = S754_nan) by reflexivity.
    rewrite H1.
    assert (H2 : B32.div S754_nan span = S754_nan) by reflexivity.
    rewrite H2.
    assert (H3 : forall y, B32.mul S754_nan y = S754_nan) by reflexivity.
    rewrite !H3. split; reflexivity. }
  split; [ exact Hnan | ].
  intros millis_now command st w. cbv zeta.
  rewrite (Logger_loop_run millis_now command st w). cbv zeta.
  cbn [fst snd Logger.R_click].
  intros Hfault v.
  rewrite !reported_app.
  destruct (command_block_facts (F := spec_float) (wrap32 millis_now) command
              match Logger.statics st with
              | Some s => s
              | None => Logger.mkLoop_statics (wrap32 millis_now) false
                          (wrap32 millis_now) false
              end) as (Hquiet & _ & _).
  rewrite Hquiet. cbn [app].
  rewrite Hfault.
  match goal with
  | |- context [if ?b then [Serial_print_uint _; _; _] else []] => destruct b
  end;
    match goal with
    | |- context [if ?b then [neo_setPixelColor _ _ _ _; neo_show] else []] =>
        destruct b
    end; cbn [Logger.reported app In]; try tauto.
  - intros [<- | []]. apply Hnan.
  - intros [<- | []]. apply Hnan.
Qed.

(** ** The pressure logger on the bus *)

Section LoggerBus.

Context {F : Type} {ops : FloatOps F} {libm : FloatExp F}.



End LoggerBus.

(** ** The example sketch *)

Section ExampleFacts.

Context {F : Type} {ops : FloatOps F} {libm : FloatExp F}.

(** What one pass does to the transmitter and to [mA_out]. *)
Lemma Example_loop_cycle (millis_now : Z) (st : Example.Sketch F) (w : World) :
  let now := wrap32 millis_now in
  let tock0 := match Example.statics st with
               | Some s => Example.tock s
               | None => now
               end in
  let st' := snd (fst (Example.loop millis_now st w)) in
  if (wrap32 (now - tock0) >? 10000)%Z then
    shown_mA st' = next_mA (shown_mA st)
    /\ Example.T_click st'
       = mkT_Click (T_SPI_clock_ (Example.T_click st))
           (T_CS_pin_ (Example.T_click st)) (T_calib_ (Example.T_click st))
           (mA2bitval (Example.T_click st) (Fof_int (next_mA (shown_mA st))))
  else
    shown_mA st' = shown_mA st /\ Example.T_click st' = Example.T_click st.
Proof.
  cbv zeta. unfold Example.loop, bind, ret, shown_mA.
  destruct (poll_EMA (Example.R_click st) w) as [[sampled R_click'] w'].
  cbn [fst snd].
  set (now := wrap32 millis_now).
  assert (Htock : Example.tock
                    match Example.statics st with
                    | Some s => s
                    | None => Example.mkLoop_statics now now 4
                    end
                  = match Example.statics st with
                    | Some s => Example.tock s
                    | None => now
                    end)
    by (destruct (Example.statics st); reflexivity).
  assert (HmA : Example.mA_out
                  match Example.statics st with
                  | Some s => s
                  | None => Example.mkLoop_statics now now 4
                  end
                = match Example.statics st with
                  | Some s => Example.mA_out s
                  | None => 4
                  end)
    by (destruct (Example.statics st); reflexivity).
  set (s0 := match Example.statics st with
             | Some s => s
             | None => Example.mkLoop_statics now now 4
             end) in *.
  rewrite <- Htock, <- HmA.
  destruct (wrap32 (now - Example.tock s0) >? 10000)%Z.
  - rewrite set_mA_run. cbn [fst snd Example.tick Example.tock Example.mA_out].
    match goal with
    | |- context [(wrap32 (now - ?t) >? 1000)%Z] =>
        destruct (wrap32 (now - t) >? 1000)%Z
    end; cbn [fst snd Example.statics Example.T_click Example.mA_out];
      split; reflexivity.
  - cbn [fst snd].
    match goal with
    | |- context [(wrap32 (now - ?t) >? 1000)%Z] =>
        destruct (wrap32 (now - t) >? 1000)%Z
    end; cbn [fst snd Example.statics Example.T_click Example.mA_out];
      split; reflexivity.
Qed.

Lemma next_mA_cases (mA : Z) :
  next_mA mA = 4 \/ next_mA mA = 12 \/ next_mA mA = 20.
Proof.
  unfold next_mA. destruct (mA =? 4); [ auto | ]. destruct (mA =? 12); auto.
Qed.

Lemma Example_loop_inv (millis_now : Z) (st : Example.Sketch F) (w : World) :
  Example_inv st -> Example_inv (snd (fst (Example.loop millis_now st w))).
Proof.
  intros [Hshown Hset].
  pose proof (Example_loop_cycle millis_now st w) as Hcycle. cbv zeta in Hcycle.
  destruct (wrap32 _ >? 10000)%Z.
  - destruct Hcycle as [HmA HT]. unfold Example_inv. rewrite HmA, HT.
    split; [ apply next_mA_cases | reflexivity ].
  - destruct Hcycle as [HmA HT]. unfold Example_inv. rewrite HmA, HT.
    split; assumption.
Qed.

Lemma Example_run_cons (micros_now millis_now : Z) (rest : list (Z * Z))
      (st : Example.Sketch F) (w : World) :
  let step := Example.loop millis_now st (snd (at_time micros_now w)) in
  let tail := Example.run rest (snd (fst step)) (snd step) in
  Example.run ((micros_now, millis_now) :: rest) st w
  = (fst (fst step) ++ fst (fst tail), snd (fst tail), snd tail).
Proof.
  cbv zeta. cbn [Example.run]. unfold bind at 1 2 3. unfold at_time.
  cbn [fst snd].
  destruct (Example.loop millis_now st _) as [[out st1] w1].
  cbn [fst snd].
  destruct (Example.run rest st1 w1) as [[outs st2] w2]. reflexivity.
Qed.

(** X18: the example sketch keeps its transmitter and its display in step.
    A pass through [loop()] that finds more than 10000 ms gone since the
    last switch moves [mA_out] one step along the cycle 4, 12, 20, 4 and sets
    the transmitter to that current; any other pass leaves both alone.  So
    after [setup()], at every moment of every run, [mA_out] is 4, 12 or 20
    and the bit value last set is [mA2bitval] of that very current. *)
Theorem Example_cycles_4_12_20 :
  (forall (millis_now : Z) (st : Example.Sketch F) (w : World),
      let now := wrap32 millis_now in
      let tock0 := match Example.statics st with
                   | Some s => Example.tock s
                   | None => now
                   end in
      let st' := snd (fst (Example.loop millis_now st w)) in
      if (wrap32 (now - tock0) >? 10000)%Z then
        shown_mA st' = next_mA (shown_mA st)
        /\ get_last_set_bitval (Example.T_click st')
           = mA2bitval (Example.T_click st) (Fof_int (shown_mA st'))
      else
        shown_mA st' = shown_mA st
        /\ Example.T_click st' = Example.T_click st)
  /\ (forall (passes : list (Z * Z)) (w0 w1 w : World),
         let st0 := fst (Example.Sketch_new w0) in
         let st1 := snd (fst (Example.setup st0 w1)) in
         let st := snd (fst (Example.run passes st1 w)) in
         (shown_mA st = 4 \/ shown_mA st = 12 \/ shown_mA st = 20)
         /\ get_last_set_bitval (Example.T_click st)
            = mA2bitval (Example.T_click st) (Fof_int (shown_mA st))
         /\ T_calib_ (Example.T_click st) = T_calib_ Example.T_click_new).
Proof.
  split.
  - intros millis_now st w. cbv zeta.
    pose proof (Example_loop_cycle millis_now st w) as Hcycle.
    cbv zeta in Hcycle.
    destruct (wrap32 _ >? 10000)%Z.
    + destruct Hcycle as [HmA HT]. split; [ exact HmA | ].
      rewrite HT, HmA. reflexivity.
    + exact Hcycle.
  - intros passes w0 w1 w. cbv zeta.
    set (st1 := snd (fst (Example.setup (fst (Example.Sketch_new w0)) w1))).
    assert (Hinv1 : Example_inv st1
                    /\ T_calib_ (Example.T_click st1)
                       = T_calib_ Example.T_click_new).
    { unfold st1, Example.setup, Example.Sketch_new, bind, ret.
      cbn [fst snd Example.R_click Example.T_click Example.statics].
      destruct (R_begin _ w1) as [[] w2].
      unfold T_begin, bind, SPI_begin, digitalWrite, pinMode_OUTPUT, emit.
      cbn -[set_mA mA2bitval wrap8]. rewrite set_mA_run.
      unfold Example_inv, shown_mA.
      cbn [fst snd Example.T_click Example.statics get_last_set_bitval
           bitval_ T_calib_].
      repeat split. left. reflexivity. }
    clearbody st1. revert st1 w Hinv1.
    induction passes as [ | [micros_now millis_now] rest IH ];
      intros st1 w [[Hshown Hset] Hcalib].
    + cbn [Example.run ret fst snd]. repeat split; assumption.
    + rewrite Example_run_cons. cbn [fst snd].
      apply IH. split.
      * apply Example_loop_inv. split; assumption.
      * pose proof (Example_loop_cycle millis_now st1
                      (snd (at_time micros_now w))) as Hcycle.
        cbv zeta in Hcycle.
        destruct (wrap32 _ >? 10000)%Z; destruct Hcycle as [_ HT];
          rewrite HT; exact Hcalib.
Qed.

End ExampleFacts.

(** ** More set-ups on which the theorems run *)

(** The example receiver samples at 2000 us; the next call is refused at
    3999 us and accepted at 4000 us. *)
Lemma poll_EMA_sampling_cadence_witness :
  due Demo.receiver (Demo.world 2000) = true
  /\ EMA_tick_ Demo.seeded = wrap32 (micros_now (Demo.world 2000))
  /\ EMA_interval_ Demo.receiver
     <= get_EMA_obtained_interval Demo.seeded < 2 ^ 32
  /\ poll_EMA Demo.seeded (Demo.world 3999)
     = (false, Demo.seeded, Demo.world 3999)
  /\ fst (fst (poll_EMA Demo.seeded (Demo.world 4000))) = true
  /\ EMA_interval_ Demo.eager_receiver <= 0
  /\ fst (fst (poll_EMA Demo.eager_receiver (Demo.world 0))) = true
  /\ sampled (fst (fst (R_run [(2000, call_poll_EMA)] Demo.receiver
                          (Demo.world 0)))) = true
  /\ wrap32 2000
     <= get_EMA_obtained_interval
          (snd (fst (R_run [(2000, call_poll_EMA)] Demo.receiver
                       (Demo.world 0)))) < 2 ^ 32.
Proof.
  pose proof (poll_EMA_sampling_cadence (F := spec_float))
    as (Hstep & Hzero & Hrun).
  assert (Hdue : due Demo.receiver (Demo.world 2000) = true)
    by (vm_compute; reflexivity).
  destruct (Hstep Demo.receiver (Demo.world 2000) Hdue)
    as (Htick & Hobtained & Hearly & Hlate).
  assert (Hsampled : sampled (fst (fst (R_run [(2000, call_poll_EMA)]
                                          Demo.receiver (Demo.world 0))))
                     = true)
    by (vm_compute; reflexivity).
  assert (Heager : EMA_interval_ Demo.eager_receiver <= 0)
    by (vm_compute; discriminate).
  split; [ exact Hdue | ].
  split; [ exact Htick | ].
  split; [ exact Hobtained | ].
  split; [ apply Hearly; vm_compute; reflexivity | ].
  split; [ apply Hlate; vm_compute; discriminate | ].
  split; [ exact Heager | ].
  split; [ apply Hzero; exact Heager | ].
  split; [ exact Hsampled | ].
  exact (Hrun 0 5 Demo.calib 2000 (Demo.f32 10 1) (Demo.world 0)
              [(2000, call_poll_EMA)] (Demo.world 0) Hsampled).
Defined.



(** Calibration [{4.0, 20.0, 800, 800}]: the reading 801 comes out as plus
    infinity, the reading 800 as [NAN]. *)
Lemma bitval2mA_equal_bitvals_witness :
  p1_bitval (calib_ Demo.flat_receiver) = p2_bitval (calib_ Demo.flat_receiver)
  /\ bitval2mA Demo.flat_receiver (Fof_int 801) = S754_infinity false
  /\ bitval2mA Demo.flat_receiver
       (Fof_int (p1_bitval (calib_ Demo.flat_receiver))) = NAN.
Proof.
  assert (Heq : p1_bitval (calib_ Demo.flat_receiver)
                = p2_bitval (calib_ Demo.flat_receiver)) by reflexivity.
  destruct (bitval2mA_equal_bitvals Demo.flat_receiver Heq)
    as (_ & Habove & Hat).
  split; [ exact Heq | ]. split; [ | exact Hat ].
  apply Habove.
  - vm_compute. split; [ discriminate | reflexivity ].
  - vm_compute. discriminate.
  - vm_compute. reflexivity.
  - exists 8388608%positive, (-19). split; [ vm_compute; reflexivity | ].
    split; split; vm_compute; first [ reflexivity | discriminate ].
Defined.

(** The example receiver, seeded with 1600 at 2000 us, samples 1600 again
    at 4000 us. *)
Lemma poll_EMA_steady_input_witness :
  due Demo.seeded (Demo.world 4000) = true
  /\ EMA_at_startup_ Demo.seeded = false
  /\ EMA_bitval_ Demo.seeded
     = Fof_int (fst (read_bitval Demo.seeded (Demo.world 4000)))
  /\ get_EMA_bitval (snd (fst (poll_EMA Demo.seeded (Demo.world 4000))))
     = get_EMA_bitval Demo.seeded.
Proof.
  assert (Hdue : due Demo.seeded (Demo.world 4000) = true)
    by (vm_compute; reflexivity).
  assert (Hsteady : EMA_at_startup_ Demo.seeded = false)
    by (vm_compute; reflexivity).
  assert (Hv : EMA_bitval_ Demo.seeded
               = Fof_int (fst (read_bitval Demo.seeded (Demo.world 4000))))
    by (vm_compute; reflexivity).
  split; [ exact Hdue | ]. split; [ exact Hsteady | ]. split; [ exact Hv | ].
  apply (poll_EMA_steady_input binary32_exp Demo.seeded (Demo.world 4000)
           Hdue Hsteady Hv).
  vm_compute. reflexivity.
Defined.
(** The pressure logger's receiver at the reading 1600. *)
Lemma bitval2mA_accuracy_witness :
  B32.valid (p1_mA (calib_ Demo.logger)) = true
  /\ B32.valid (p2_mA (calib_ Demo.logger)) = true
  /\ (2 <= B32.val (p1_mA (calib_ Demo.logger)) <= 6)%R
  /\ (18 <= B32.val (p2_mA (calib_ Demo.logger)) <= 22)%R
  /\ B32.pnormal (bitval2mA_current Demo.logger (Fof_int 1600))
  /\ (Rabs (B32.val (bitval2mA_current Demo.logger (Fof_int 1600))
            - exact_mA (calib_ Demo.logger) (IZR 1600)) <= / 50000)%R.
Proof.
  assert (H1 : B32.val (p1_mA (calib_ Demo.logger))
               = (8619295 / 2097152)%R).
  { change (p1_mA (calib_ Demo.logger))
      with (S754_finite false 8619295 (-21)).
    unfold B32.val, B32.pow2. cbn [cond_Zopp]. simpl powerRZ. lra. }
  assert (H2 : B32.val (p2_mA (calib_ Demo.logger))
               = (10496246 / 524288)%R).
  { change (p2_mA (calib_ Demo.logger))
      with (S754_finite false 10496246 (-19)).
    unfold B32.val, B32.pow2. cbn [cond_Zopp]. simpl powerRZ. lra. }
  assert (Hv1 : B32.valid (p1_mA (calib_ Demo.logger)) = true)
    by (vm_compute; reflexivity).
  assert (Hv2 : B32.valid (p2_mA (calib_ Demo.logger)) = true)
    by (vm_compute; reflexivity).
  assert (HP1 : (2 <= B32.val (p1_mA (calib_ Demo.logger)) <= 6)%R)
    by (rewrite H1; lra).
  assert (HP2 : (18 <= B32.val (p2_mA (calib_ Demo.logger)) <= 22)%R)
    by (rewrite H2; lra).
  destruct (bitval2mA_accuracy Demo.logger 1600 Hv1 Hv2 HP1 HP2)
    as (Hn & Herr & _).
  - vm_compute. split; [ discriminate | reflexivity ].
  - vm_compute. discriminate.
  - vm_compute. split; discriminate.
  - repeat split; try assumption; lra.
Defined.

(** The example transmitter, calibration [{4.0, 20.0, 800, 4000}], asked for
    12 mA: the exact line gives 2400. *)
Lemma mA2bitval_accuracy_witness :
  B32.valid (p1_mA (T_calib_ Demo.transmitter)) = true
  /\ B32.valid (p2_mA (T_calib_ Demo.transmitter)) = true
  /\ B32.valid (Demo.f32 12 1) = true
  /\ (Rabs (exact_bitval (T_calib_ Demo.transmitter) (B32.val (Demo.f32 12 1))
            - IZR 2400) <= 2 / 5)%R
  /\ mA2bitval Demo.transmitter (Demo.f32 12 1) = 2400
  /\ mA2bitval Demo.transmitter (p2_mA (T_calib_ Demo.transmitter)) = 4000.
Proof.
  assert (H4 : B32.val (p1_mA (T_calib_ Demo.transmitter)) = 4%R).
  { change (p1_mA (T_calib_ Demo.transmitter))
      with (S754_finite false 8388608 (-21)).
    unfold B32.val, B32.pow2. cbn [cond_Zopp]. simpl powerRZ. lra. }
  assert (H20 : B32.val (p2_mA (T_calib_ Demo.transmitter)) = 20%R).
  { change (p2_mA (T_calib_ Demo.transmitter))
      with (S754_finite false 10485760 (-19)).
    unfold B32.val, B32.pow2. cbn [cond_Zopp]. simpl powerRZ. lra. }
  assert (H12 : B32.val (Demo.f32 12 1) = 12%R).
  { change (Demo.f32 12 1) with (S754_finite false 12582912 (-20)).
    unfold B32.val, B32.pow2. cbn [cond_Zopp]. simpl powerRZ. lra. }
  assert (Hv1 : B32.valid (p1_mA (T_calib_ Demo.transmitter)) = true)
    by (vm_compute; reflexivity).
  assert (Hv2 : B32.valid (p2_mA (T_calib_ Demo.transmitter)) = true)
    by (vm_compute; reflexivity).
  assert (Hv12 : B32.valid (Demo.f32 12 1) = true)
    by (vm_compute; reflexivity).
  assert (Hnear : (Rabs (exact_bitval (T_calib_ Demo.transmitter)
                           (B32.val (Demo.f32 12 1)) - IZR 2400) <= 2 / 5)%R).
  { unfold exact_bitval. rewrite H4, H20, H12.
    change (p1_bitval (T_calib_ Demo.transmitter)) with 800.
    change (p2_bitval (T_calib_ Demo.transmitter)) with 4000.
    replace (800 + (12 - 4) / (20 - 4) * (4000 - 800) - 2400)%R with 0%R
      by field.
    rewrite Rabs_R0. lra. }
  destruct (mA2bitval_accuracy Demo.transmitter Hv1 Hv2)
    as (Hgeneral & _ & Hp2).
  - rewrite H4. lra.
  - rewrite H20. lra.
  - vm_compute. split; [ discriminate | reflexivity ].
  - vm_compute. discriminate.
  - split; [ exact Hv1 | ]. split; [ exact Hv2 | ]. split; [ exact Hv12 | ].
    split; [ exact Hnear | ].
    split; [ | exact Hp2 ].
    apply Hgeneral; [ exact Hv12 | rewrite H4, H20, H12; lra | exact Hnear ].
Defined.

(** The example transmitter after [begin()]: its first calibration point is
    4 mA at 800. *)
Lemma T_begin_sets_4_mA_witness :
  B32.val (p1_mA (T_calib_ Demo.transmitter)) = 4%R
  /\ get_last_set_bitval (fst (T_begin Demo.transmitter (Demo.world 0)))
     = p1_bitval (T_calib_ Demo.transmitter).
Proof.
  assert (H4 : B32.val (p1_mA (T_calib_ Demo.transmitter)) = 4%R).
  { change (p1_mA (T_calib_ Demo.transmitter))
      with (S754_finite false 8388608 (-21)).
    unfold B32.val, B32.pow2. cbn [cond_Zopp]. simpl powerRZ. lra. }
  assert (H20 : B32.val (p2_mA (T_calib_ Demo.transmitter)) = 20%R).
  { change (p2_mA (T_calib_ Demo.transmitter))
      with (S754_finite false 10485760 (-19)).
    unfold B32.val, B32.pow2. cbn [cond_Zopp]. simpl powerRZ. lra. }
  destruct T_begin_sets_4_mA as [_ Hsingle].
  split; [ exact H4 | ].
  apply (Hsingle Demo.transmitter (Demo.world 0)).
  - vm_compute. reflexivity.
  - vm_compute. reflexivity.
  - exact H4.
  - rewrite H20. lra.
  - vm_compute. split; [ discriminate | reflexivity ].
  - vm_compute. discriminate.
Defined.

(** The logger with reporting on, last line stamped 0 ms, in a pass at 5 ms,
    50 us after start: no sample was due yet. *)
Lemma Logger_loop_reports_on_millis_change_witness :
  0 <= 0 < 2 ^ 32
  /\ exists s' : Logger.Loop_statics,
       Logger.statics
         (snd (fst (Logger.loop 5 None Demo.reporting_sketch (Demo.world 50))))
       = Some s'
       /\ Logger.reported
            (fst (fst (Logger.loop 5 None Demo.reporting_sketch (Demo.world 50))))
          = (if Logger.report s' && negb (wrap32 5 =? 0)
             then [(Logger.mA2bar
                      (get_EMA_mA
                         (Logger.R_click
                            (snd (fst (Logger.loop 5 None Demo.reporting_sketch
                                         (Demo.world 50))))))
                      Logger.PRESSURE_CALIB * Fof_int 1000)%flt]
             else [])
       /\ Logger.tick s'
          = (if Logger.report s' && negb (wrap32 5 =? 0) then wrap32 5 else 0).
Proof.
  assert (Htick : 0 <= 0 < 2 ^ 32)
    by (split; [ discriminate | reflexivity ]).
  split; [ exact Htick | ].
  destruct (Logger_loop_reports_on_millis_change
              5 None Demo.reporting_sketch (Demo.world 50) Htick)
    as (s' & Hs' & Hout & Hstamp & _).
  exists s'. split; [ exact Hs' | ]. split; [ exact Hout | exact Hstamp ].
Defined.

(** A fresh logger that is asked for its identity and later told [off]. *)
Lemma Logger_commands_witness :
  (forall p, In p Demo.quiet_passes -> snd p <> Some "on"%string)
  /\ Logger.reported
       (fst (fst (Logger.run Demo.quiet_passes Demo.logger_sketch
                    (Demo.world 0))))
     = []
  /\ Logger.identity_lines
       (fst (fst (Logger.run Demo.quiet_passes Demo.logger_sketch
                    (Demo.world 0))))
     = 1%nat.
Proof.
  destruct (Logger_commands (F := spec_float)) as (_ & Hidentity & Hsilent).
  assert (Hnever : forall p, In p Demo.quiet_passes -> snd p <> Some "on"%string).
  { intros p [<- | [<- | [<- | []]]]; discriminate. }
  split; [ exact Hnever | ].
  split; [ exact (Hsilent Demo.quiet_passes (Demo.world 0) (Demo.world 0) Hnever) | ].
  rewrite Hidentity. reflexivity.
Defined.

(** The logger with reporting on, before the filter has its first sample:
    the line it prints carries [NAN]. *)
Lemma Logger_reports_fault_as_NAN_witness :
  get_EMA_mA
    (Logger.R_click
       (snd (fst (Logger.loop 5 None Demo.reporting_sketch (Demo.world 50)))))
  = NAN
  /\ In NAN (Logger.reported
               (fst (fst (Logger.loop 5 None Demo.reporting_sketch
                            (Demo.world 50)))))
  /\ forall v : spec_float,
       In v (Logger.reported
               (fst (fst (Logger.loop 5 None Demo.reporting_sketch
                            (Demo.world 50))))) ->
       v = NAN.
Proof.
  destruct (Logger_reports_fault_as_NAN binary32_exp) as [_ Hpass].
  assert (Hfault : get_EMA_mA
                     (Logger.R_click
                        (snd (fst (Logger.loop 5 None Demo.reporting_sketch
                                     (Demo.world 50)))))
                   = NAN)
    by (vm_compute; reflexivity).
  split; [ exact Hfault | ].
  split; [ vm_compute; left; reflexivity | ].
  exact (Hpass 5 None Demo.reporting_sketch (Demo.world 50) Hfault).
Defined.

(** ** The read path, end to end *)

(** The bit value read from a chip that frames the conversion result [d]
    as its data sheet says. *)
Lemma read_bitval_framed {F : Type} {ops : FloatOps F} (self : R_Click F)
      (w : World) (lead d tail : Z) :
  0 <= lead < 8 -> 0 <= d < 4096 -> 0 <= tail < 2 ->
  (wrap8 (miso w (transfers w)), wrap8 (miso w (S (transfers w))))
  = MCP3201_answer lead d tail ->
  fst (read_bitval self w) = d.
Proof.
  intros Hlead Hd Htail Hframe.
  rewrite read_bitval_run. cbn [fst].
  pose proof (wrap8_range (miso w (transfers w))) as HH.
  pose proof (wrap8_range (miso w (S (transfers w)))) as HL.
  change (2 ^ 8) with 256 in HH, HL.
  rewrite reconstruct_bitval_value by assumption.
  unfold MCP3201_answer in Hframe. injection Hframe as HeqH HeqL.
  rewrite HeqH, HeqL.
  assert (Hd128 : 0 <= d / 128 < 32).
  { split; [ apply Z.div_pos; lia | apply Z.div_lt_upper_bound; lia ]. }
  replace (lead * 32 + d / 128) with (d / 128 + lead * 32) by lia.
  rewrite Z.mod_add by lia.
  rewrite (Z.mod_small (d / 128) 32) by lia.
  assert (Hm : 0 <= d mod 128 < 128) by (apply Z.mod_pos_bound; lia).
  replace (d mod 128 * 2 + tail) with (tail + (d mod 128) * 2) by lia.
  rewrite Z.div_add by lia.
  rewrite (Z.div_small tail 2) by lia.
  pose proof (Z.div_mod d 128 ltac:(lia)). lia.
Qed.

(** X19: the read path from the chip to a current.  The first sample of a
    filter leaves [get_EMA_mA] at the very value [read_mA] would have handed
    back for the same exchange.  In single precision, for a calibration
    whose first point lies between 2 and 6 mA and whose second lies between
    18 and 22 mA, when the chip delivers the conversion result [d] of the
    calibrated span in the framing of its data sheet and the exact current
    on the line through the calibration points is more than 0.00002 mA above
    3.8 mA, [read_mA] hands back a number within 0.00002 mA of that exact
    current. *)
Theorem read_mA_end_to_end :
  (forall (F : Type) (ops : FloatOps F) (libm : FloatExp F)
          (self : R_Click F) (w : World),
      due self w = true ->
      EMA_at_startup_ self = true ->
      get_EMA_mA (snd (fst (poll_EMA self w))) = fst (read_mA self w)
      /\ get_EMA_bitval (snd (fst (poll_EMA self w)))
         = Fof_int (fst (read_bitval self w))
      /\ snd (poll_EMA self w) = snd (read_mA self w))
  /\ (forall (self : R_Click spec_float) (w : World) (lead d tail : Z),
         B32.valid (p1_mA (calib_ self)) = true ->
         B32.valid (p2_mA (calib_ self)) = true ->
         (2 <= B32.val (p1_mA (calib_ self)) <= 6)%R ->
         (18 <= B32.val (p2_mA (calib_ self)) <= 22)%R ->
         0 <= p1_bitval (calib_ self) < p2_bitval (calib_ self) ->
         p2_bitval (calib_ self) <= 4095 ->
         0 <= lead < 8 -> 0 <= tail < 2 ->
         p1_bitval (calib_ self) <= d <= p2_bitval (calib_ self) ->
         (wrap8 (miso w (transfers w)), wrap8 (miso w (S (transfers w))))
         = MCP3201_answer lead d tail ->
         (38 / 10 + / 50000 < exact_mA (calib_ self) (IZR d))%R ->
         B32.is_nan (fst (read_mA self w)) = false
         /\ (Rabs (B32.val (fst (read_mA self w))
                   - exact_mA (calib_ self) (IZR d)) <= / 50000)%R).
Proof.
  split.
  - intros F ops libm self w Hdue Hstart.
    rewrite (poll_EMA_sample self w Hdue). rewrite Hstart.
    unfold get_EMA_mA, get_EMA_bitval, read_mA, bind, ret.
    cbn [fst snd EMA_bitval_].
    destruct (read_bitval self w) as [bitval w'] eqn:Hread. cbn [fst snd].
    repeat split.
  - intros self w lead d tail Hv1 Hv2 HP1 HP2 Hb Hb2 Hlead Htail Hd Hframe
           Habove.
    assert (Hread : fst (read_bitval self w) = d)
      by (apply (read_bitval_framed self w lead d tail); try assumption; lia).
    unfold read_mA, bind, ret.
    destruct (read_bitval self w) as [bitval w'] eqn:Hpair.
    cbn [fst] in Hread |- *. subst bitval.
    assert (Hlow : (B32.pow2 (-125) <= 2)%R).
    { pose proof (pow2_le_mono (-125) 1 ltac:(lia)) as H.
      change (B32.pow2 1) with (2 * 1)%R in H. lra. }
    assert (Hp1 : B32.pnormal (p1_mA (calib_ self)))
      by (apply valid_pnormal; [ exact Hv1 | lra ]).
    assert (Hp2 : B32.pnormal (p2_mA (calib_ self)))
      by (apply valid_pnormal; [ exact Hv2 | lra ]).
    assert (Hmain : B32.pnormal (bitval2mA_current self (Fof_int d))
                    /\ (Rabs (B32.val (bitval2mA_current self (Fof_int d))
                              - exact_mA (calib_ self) (IZR d)) <= / 50000)%R).
    { destruct (Z.eq_dec d (p1_bitval (calib_ self))) as [-> | Hne].
      - rewrite bitval2mA_current_at_p1 by (try assumption; lia).
        split; [ exact Hp1 | ].
        unfold exact_mA.
        replace (IZR (p1_bitval (calib_ self)) - IZR (p1_bitval (calib_ self)))%R
          with 0%R by ring.
        unfold Rdiv. rewrite !Rmult_0_l, Rplus_0_r.
        replace (B32.val (p1_mA (calib_ self)) - B32.val (p1_mA (calib_ self)))%R
          with 0%R by ring.
        rewrite Rabs_R0. lra.
      - apply bitval2mA_current_inside; try assumption; lia. }
    destruct Hmain as [Hn Herr].
    set (mA := bitval2mA_current self (Fof_int d)) in *.
    assert (Hnum : B32.is_nan mA = false)
      by (destruct Hn as (m & e & -> & _); reflexivity).
    assert (Hleb : B32.leb mA R_CLICK_FAULT_mA = true
                   <-> (B32.val mA <= 38 / 10)%R).
    { rewrite (fault_threshold_is_3_8 mA (pnormal_valid mA Hn) Hnum).
      destruct Hn as (m & e & -> & _). reflexivity. }
    assert (Hcmp : B32.leb mA R_CLICK_FAULT_mA = false).
    { apply Bool.not_true_is_false. intros Hc. apply Hleb in Hc.
      apply Rabs_le_elim in Herr. lra. }
    unfold bitval2mA. fold mA.
    rewrite (Fgt_is_not_leb mA _ Hnum fault_threshold_not_nan), Hcmp.
    cbn [negb]. split; [ exact Hnum | exact Herr ].
Qed.

(** The pressure logger's receiver on a chip that delivers 1600. *)
Lemma read_mA_end_to_end_witness :
  (due Demo.receiver (Demo.world 2000) = true
   /\ EMA_at_startup_ Demo.receiver = true
   /\ get_EMA_mA (snd (fst (poll_EMA Demo.receiver (Demo.world 2000))))
      = fst (read_mA Demo.receiver (Demo.world 2000)))
  /\ ((wrap8 (miso (Demo.world 0) (transfers (Demo.world 0))),
       wrap8 (miso (Demo.world 0) (S (transfers (Demo.world 0)))))
      = MCP3201_answer 0 1600 0
      /\ (38 / 10 + / 50000 < exact_mA (calib_ Demo.logger) (IZR 1600))%R
      /\ B32.is_nan (fst (read_mA Demo.logger (Demo.world 0))) = false
      /\ (Rabs (B32.val (fst (read_mA Demo.logger (Demo.world 0)))
                - exact_mA (calib_ Demo.logger) (IZR 1600)) <= / 50000)%R).
Proof.
  destruct read_mA_end_to_end as [Hfirst Hsingle].
  split.
  - assert (Hdue : due Demo.receiver (Demo.world 2000) = true)
      by (vm_compute; reflexivity).
    assert (Hstart : EMA_at_startup_ Demo.receiver = true) by reflexivity.
    split; [ exact Hdue | ]. split; [ exact Hstart | ].
    apply (Hfirst spec_float binary32 binary32_exp Demo.receiver
                  (Demo.world 2000) Hdue Hstart).
  - assert (H1 : B32.val (p1_mA (calib_ Demo.logger))
                 = (8619295 / 2097152)%R).
    { change (p1_mA (calib_ Demo.logger))
        with (S754_finite false 8619295 (-21)).
      unfold B32.val, B32.pow2. cbn [cond_Zopp]. simpl powerRZ. lra. }
    assert (H2 : B32.val (p2_mA (calib_ Demo.logger))
                 = (10496246 / 524288)%R).
    { change (p2_mA (calib_ Demo.logger))
        with (S754_finite false 10496246 (-19)).
      unfold B32.val, B32.pow2. cbn [cond_Zopp]. simpl powerRZ. lra. }
    assert (Hframe : (wrap8 (miso (Demo.world 0) (transfers (Demo.world 0))),
                      wrap8 (miso (Demo.world 0) (S (transfers (Demo.world 0)))))
                     = MCP3201_answer 0 1600 0)
      by (vm_compute; reflexivity).
    assert (Habove : (38 / 10 + / 50000
                      < exact_mA (calib_ Demo.logger) (IZR 1600))%R).
    { unfold exact_mA. rewrite H1, H2.
      change (p1_bitval (calib_ Demo.logger)) with 830.
      change (p2_bitval (calib_ Demo.logger)) with 4002.
      lra. }
    split; [ exact Hframe | ]. split; [ exact Habove | ].
    apply (Hsingle Demo.logger (Demo.world 0) 0 1600 0).
    + vm_compute. reflexivity.
    + vm_compute. reflexivity.
    + rewrite H1. lra.
    + rewrite H2. lra.
    + vm_compute. split; [ discriminate | reflexivity ].
    + vm_compute. discriminate.
    + lia.
    + lia.
    + vm_compute. split; discriminate.
    + exact Hframe.
    + exact Habove.
Defined.

